(** * Gephi input files from the Personality Disorder data

    A shallow embedding of [Gephi_Input_files_from_PD_data_v6.py]: the
    category encoder ([categorise_columns]), the service-movement matrix
    ([output_SM_file]), the edge list ([output_Edge_file]), the node list
    ([output_Node_file]) and the subgroup recoder
    ([create_new_ward_and_setting_columns],
    [create_network_data_for_subgroup]).

    Conventions.  A pandas DataFrame is a record of columns (lists of equal
    length); a column that is only created later is an [option].  A numpy
    array of counts is a list of rows over [Z]: the counts are whole numbers
    stored as floats, so [int(...)] is the identity on them.  Python
    exceptions are the [Raise] case of [result].  Strings are byte strings;
    Python compares [str] by code point, which on UTF-8 bytes is the
    lexicographic order of [String.compare]. *)

From Stdlib Require Import ZArith String Ascii List Lia QArith_base.
From stdpp Require Import base list strings sorting.

Local Open Scope string_scope.
Local Open Scope list_scope.
Local Open Scope Z_scope.

(** ** Exceptions and the error monad *)

Inductive exn :=
| ValueError (msg : string)
| IndexError (msg : string)
| KeyError (key : string)
| AttributeError (name : string)
| AssertionError (msg : string).

Inductive result (A : Type) :=
| Ok (a : A)
| Raise (e : exn).
Arguments Ok {A} a.
Arguments Raise {A} e.

#[global] Instance result_ret : MRet result := @Ok.
#[global] Instance result_bind : MBind result := λ A B f m,
  match m with
  | Ok a => f a
  | Raise e => Raise e
  end.

(** [for x in l: acc = body(acc, x)], stopping at the first exception. *)
Fixpoint for_each {A B} (l : list A) (body : B → A → result B) (acc : B) : result B :=
  match l with
  | [] => Ok acc
  | x :: l' => acc' ← body acc x; for_each l' body acc'
  end.

(** ** numpy and pandas primitives *)

(** [Series.unique()]: the distinct values in order of first appearance. *)
Fixpoint unique_from {A} `{EqDecision A} (seen l : list A) : list A :=
  match l with
  | [] => []
  | x :: l' =>
      if decide (x ∈ seen) then unique_from seen l'
      else x :: unique_from (x :: seen) l'
  end.

Definition unique {A} `{EqDecision A} (l : list A) : list A := unique_from [] l.

(** [col == v]: the boolean mask of an elementwise comparison. *)
Definition eq_mask {A} `{EqDecision A} (col : list A) (v : A) : list bool :=
  (λ x, bool_decide (x = v)) <$> col.

Definition ne_mask {A} `{EqDecision A} (col : list A) (v : A) : list bool :=
  (λ x, bool_decide (x ≠ v)) <$> col.

(** [arr[mask]]: boolean indexing. *)
Fixpoint mask_select {A} (mask : list bool) (arr : list A) : list A :=
  match mask, arr with
  | b :: mask', x :: arr' =>
      if b then x :: mask_select mask' arr' else mask_select mask' arr'
  | _, _ => []
  end.

(** [arr[mask] = v]: masked assignment of a scalar, in place. *)
Fixpoint mask_assign {A} (mask : list bool) (v : A) (arr : list A) : list A :=
  match mask, arr with
  | b :: mask', x :: arr' => (if b then v else x) :: mask_assign mask' v arr'
  | _, _ => arr
  end.

(** The builtin [max] over an iterable of integers. *)
Definition py_max (l : list Z) : result Z :=
  match l with
  | [] => Raise (ValueError "max() arg is an empty sequence")
  | x :: l' => Ok (foldl Z.max x l')
  end.

(** *** Order on labels *)

Definition str_le (a b : string) : Prop := String.leb a b = true.
Definition str_lt (a b : string) : Prop := String.ltb a b = true.

#[global] Instance str_le_dec a b : Decision (str_le a b).
Proof. unfold str_le. apply _. Defined.

(** *** Categoricals *)

Record Categorical := {
  categories : list string;
  codes : list Z
}.

(** [Index.get_indexer]: position of a label among the categories, -1 when
    it is not one of them. *)
Definition get_indexer (cats : list string) (x : string) : Z :=
  match list_find (λ c, c = x) cats with
  | Some (i, _) => Z.of_nat i
  | None => -1
  end.

(** [Series.astype('category')]: the categories are the distinct values in
    sorted order, the codes are the positions in that order. *)
Definition astype_category (col : list string) : Categorical :=
  let cats := merge_sort str_le (unique col) in
  {| categories := cats; codes := get_indexer cats <$> col |}.

(** [wardTeamCat] as a column of labels again (what [np.vstack] and
    [drop_duplicates] see): each code looked up in the categories. *)
Definition cat_values (c : Categorical) : list string :=
  (λ k, default "" (categories c !! Z.to_nat k)) <$> codes c.

(** ** The data frame *)

(** The columns of the cleaned Personality Disorder data that the network
    code reads.  [GroupCol] stands for the column selected by
    [subgroup_info['COLUMN']] (Locality_Edit, Cluster, ...); the last four
    columns are the ones the code adds. *)
Record DataFrame := {
  ClientID : list Z;
  WardTeam : list string;
  Setting : list string;
  GroupCol : list string;
  LoSdays : list Z;
  newWardTeam : option (list string);
  newSetting : option (list string);
  wardTeamCat : option Categorical;
  wardTeamCatCode : option (list Z)
}.

(** Reading a column that may not exist: [df['name']] raises [KeyError],
    [df.name] raises [AttributeError]. *)
Definition getitem {A} (name : string) (c : option A) : result A :=
  match c with
  | Some v => Ok v
  | None => Raise (KeyError name)
  end.

Definition getattr {A} (name : string) (c : option A) : result A :=
  match c with
  | Some v => Ok v
  | None => Raise (AttributeError name)
  end.

Definition set_wardTeamCat (c : Categorical) (df : DataFrame) : DataFrame :=
  {| ClientID := ClientID df; WardTeam := WardTeam df; Setting := Setting df;
     GroupCol := GroupCol df; LoSdays := LoSdays df;
     newWardTeam := newWardTeam df; newSetting := newSetting df;
     wardTeamCat := Some c; wardTeamCatCode := wardTeamCatCode df |}.

Definition set_wardTeamCatCode (c : list Z) (df : DataFrame) : DataFrame :=
  {| ClientID := ClientID df; WardTeam := WardTeam df; Setting := Setting df;
     GroupCol := GroupCol df; LoSdays := LoSdays df;
     newWardTeam := newWardTeam df; newSetting := newSetting df;
     wardTeamCat := wardTeamCat df; wardTeamCatCode := Some c |}.

(** ** categorise_columns *)

(** Converts the WardTeam column into a numerical ID field: the categorical
    codes plus one.  The frame [DATA_SG] is updated in place, which is the
    returned frame here. *)
Definition categorise_columns (DATA_SG : DataFrame) : result DataFrame :=
  labels ← getitem "newWardTeam" (newWardTeam DATA_SG);
  let DATA_SG := set_wardTeamCat (astype_category labels) DATA_SG in
  cat ← getitem "wardTeamCat" (wardTeamCat DATA_SG);
  let DATA_SG := set_wardTeamCatCode ((λ c, c + 1) <$> codes cat) DATA_SG in
  Ok DATA_SG.

(** ** output_SM_file *)

Abbreviation matrix := (list (list Z)).

(** [np.zeros((r, c))]. *)
Definition np_zeros (r c : Z) : result matrix :=
  if (r <? 0) || (c <? 0)
  then Raise (ValueError "negative dimensions are not allowed")
  else Ok (replicate (Z.to_nat r) (replicate (Z.to_nat c) 0)).

(** An index into an axis of length [n]: negative indices count from the
    end, anything outside [-n, n) raises. *)
Definition np_index (n : nat) (i : Z) : result nat :=
  let i' := if i <? 0 then i + Z.of_nat n else i in
  if (0 <=? i') && (i' <? Z.of_nat n) then Ok (Z.to_nat i')
  else Raise (IndexError "index is out of bounds for axis").

(** [servMove[r, c]]. *)
Definition np_get (servMove : matrix) (r c : Z) : result Z :=
  i ← np_index (length servMove) r;
  let row := default [] (servMove !! i) in
  j ← np_index (length row) c;
  Ok (default 0 (row !! j)).

(** [servMove[r, c] += 1]. *)
Definition np_incr (servMove : matrix) (r c : Z) : result matrix :=
  i ← np_index (length servMove) r;
  let row := default [] (servMove !! i) in
  j ← np_index (length row) c;
  Ok (<[i := <[j := default 0 (row !! j) + 1]> row]> servMove).

(** [series.iloc[j]] for [j >= 0]. *)
Definition iloc {A} (s : list A) (j : nat) : result A :=
  match s !! j with
  | Some x => Ok x
  | None => Raise (IndexError "single positional indexer is out-of-bounds")
  end.

(** The body of [for j in range(0, l - 1)]: one use from the service at
    position [j] (source) to the one at [j + 1] (target). *)
Definition SM_transition (cWardTeam : list Z) (servMove : matrix) (j : nat)
  : result matrix :=
  src ← iloc cWardTeam j;
  tgt ← iloc cWardTeam (j + 1);
  np_incr servMove (src - 1) (tgt - 1).

(** The body of [for ID in clientIDUni], on the pair of the matrix and the
    [singles] array. *)
Definition SM_patient (ids code : list Z) (st : matrix * list Z) (ID : Z)
  : result (matrix * list Z) :=
  let '(servMove, singles) := st in
  let cWardTeam := mask_select (eq_mask ids ID) code in
  let l := length cWardTeam in
  if (1 <? l)%nat then
    servMove ← for_each (seq 0 (l - 1)) (SM_transition cWardTeam) servMove;
    Ok (servMove, singles)
  else
    Ok (servMove, singles ++ [ID]).

(** The function up to the end of its loop: the matrix and [singles], which
    starts as the scalar 0 and is stacked into a column whose first row is
    that 0. *)
Definition SM_loop (DATA_SG : DataFrame) : result (matrix * list Z) :=
  code ← getattr "wardTeamCatCode" (wardTeamCatCode DATA_SG);
  n ← py_max code;
  servMove ← np_zeros n n;
  let singles := [0] in
  let clientIDUni := unique (ClientID DATA_SG) in
  for_each clientIDUni (SM_patient (ClientID DATA_SG) code) (servMove, singles).

(** Creates the service movement array; the array is also what is written
    to the csv file. *)
Definition output_SM_file (DATA_SG : DataFrame) : result matrix :=
  st ← SM_loop DATA_SG;
  Ok st.1.

(** ** output_Edge_file *)

Record Edge := {
  Source : Z;
  Target : Z;
  EType : string;
  Id : Z;
  Weight : Z
}.

(** The body of the inner loop, for column [i] and row [j]; a row of
    [edges] is the triple Source, Target, Activity. *)
Definition Edge_cell (servMove : matrix) (i : nat) (edges : list (Z * Z * Z))
  (j : nat) : result (list (Z * Z * Z)) :=
  v ← np_get servMove (Z.of_nat j) (Z.of_nat i);
  if 0 <? v then
    let rowData := (Z.of_nat j + 1, Z.of_nat i + 1, v) in
    Ok (edges ++ [rowData])
  else Ok edges.

(** [np.transpose(np.vstack((src, tgt, edgetype, edgeid, weight)))]: the
    five columns side by side.  The stacked array is an array of strings
    (the numbers in decimal); the numbers are kept here. *)
Definition Edge_table (src tgt : list Z) (edgetype : list string)
  (edgeid weight : list Z) : list Edge :=
  zip_with (λ '(s, t, ty) '(i, w), Build_Edge s t ty i w)
    (zip (zip src tgt) edgetype) (zip edgeid weight).

(** Creates the edge list from the service movement array. *)
Definition output_Edge_file (servMove : matrix) : result (list Edge) :=
  let edges := [(0, 0, 0)] in
  let lenRow := length servMove in
  edges ← for_each (seq 0 lenRow) (λ edges i,
             for_each (seq 0 lenRow) (Edge_cell servMove i) edges) edges;
  let edges := drop 1 edges in
  let lenEdge := length edges in
  let edgetype := replicate lenEdge "Directed" in
  let edgeid := Z.of_nat <$> seq 0 lenEdge in
  Ok (Edge_table ((λ e, e.1.1) <$> edges) ((λ e, e.1.2) <$> edges)
        edgetype edgeid ((λ e, e.2) <$> edges)).

(** ** output_Node_file *)

Record Node := {
  ID : Z;
  Label : string;
  MeanLoS : Q;
  MedianLoS : Q;
  NSetting : string
}.

Definition sum_Z (l : list Z) : Z := foldr Z.add 0 l.

(** [mean()] and [median()] of a non-empty group, as exact rationals (the
    code computes them in floating point). *)
Definition mean (l : list Z) : Q := Qmake (sum_Z l) (Pos.of_nat (length l)).

Definition median (l : list Z) : Q :=
  let s := merge_sort Z.le l in
  let n := length s in
  if Nat.even n
  then Qmake (default 0 (s !! (n / 2 - 1)%nat) + default 0 (s !! (n / 2)%nat)) 2
  else Qmake (default 0 (s !! (n / 2)%nat)) 1.

(** [groupby(key)[col].agg()]: one value per distinct key, keys ascending. *)
Definition groupby_agg {B} (key : list Z) (col : list Z) (agg : list Z → B)
  : list B :=
  (λ k, agg (mask_select (eq_mask key k) col)) <$> merge_sort Z.le (unique key).

(** [np.vstack] of one-dimensional arrays needs them all of one length. *)
Definition np_vstack_check (lens : list nat) : result unit :=
  match lens with
  | [] => Raise (ValueError "need at least one array to concatenate")
  | n :: lens' =>
      if forallb (Nat.eqb n) lens' then Ok ()
      else Raise (ValueError "all the input array dimensions except for the concatenation axis must match exactly")
  end.

(** [np.transpose(np.vstack((ids, labels, means, medians, settings)))]. *)
Definition Node_table (ids : list Z) (labels : list string)
  (means medians : list Q) (settings : list string) : list Node :=
  zip_with (λ '(i, l, m) '(md, s), Build_Node i l m md s)
    (zip (zip ids labels) means) (zip medians settings).

(** The key of [sort_values('wardTeamCatCode')] on the rows of [df]. *)
Definition by_code (a b : string * Z * string) : Prop := a.1.2 ≤ b.1.2.

#[global] Instance by_code_dec a b : Decision (by_code a b).
Proof. unfold by_code. apply _. Defined.

(** Creates the node list: one row per ward team with its mean and median
    length of stay and its setting.  [sort_values] only meets distinct
    codes whenever the stacking below succeeds, so any sort gives the same
    rows. *)
Definition output_Node_file (DATA_SG : DataFrame) : result (list Node) :=
  code ← getitem "wardTeamCatCode" (wardTeamCatCode DATA_SG);
  let daysMeans := groupby_agg code (LoSdays DATA_SG) mean in
  let daysMedians := groupby_agg code (LoSdays DATA_SG) median in
  cat ← getattr "wardTeamCat" (wardTeamCat DATA_SG);
  code ← getattr "wardTeamCatCode" (wardTeamCatCode DATA_SG);
  setting ← getattr "newSetting" (newSetting DATA_SG);
  let df := zip (zip (cat_values cat) code) setting in
  let df := unique df in
  let df := merge_sort by_code df in
  let df_wardTeamCatCode := (λ r, r.1.2) <$> df in
  let df_wardTeamCat := (λ r, r.1.1) <$> df in
  let df_Setting := (λ r, r.2) <$> df in
  _ ← np_vstack_check [length df_wardTeamCatCode; length df_wardTeamCat;
                        length daysMeans; length daysMedians;
                        length df_Setting];
  Ok (Node_table df_wardTeamCatCode df_wardTeamCat daysMeans daysMedians
        df_Setting).

(** ** create_output_files *)

(** Runs the three output functions in turn; the three files written are
    the value returned. *)
Definition create_output_files (DATA_SG : DataFrame)
  : result (matrix * list Edge * list Node) :=
  servMove ← output_SM_file DATA_SG;
  edges ← output_Edge_file servMove;
  nodes ← output_Node_file DATA_SG;
  Ok (servMove, edges, nodes).

(** ** create_new_ward_and_setting_columns *)

Definition set_WardTeam (c : list string) (df : DataFrame) : DataFrame :=
  {| ClientID := ClientID df; WardTeam := c; Setting := Setting df;
     GroupCol := GroupCol df; LoSdays := LoSdays df;
     newWardTeam := newWardTeam df; newSetting := newSetting df;
     wardTeamCat := wardTeamCat df; wardTeamCatCode := wardTeamCatCode df |}.

Definition set_Setting (c : list string) (df : DataFrame) : DataFrame :=
  {| ClientID := ClientID df; WardTeam := WardTeam df; Setting := c;
     GroupCol := GroupCol df; LoSdays := LoSdays df;
     newWardTeam := newWardTeam df; newSetting := newSetting df;
     wardTeamCat := wardTeamCat df; wardTeamCatCode := wardTeamCatCode df |}.

Definition set_GroupCol (c : list string) (df : DataFrame) : DataFrame :=
  {| ClientID := ClientID df; WardTeam := WardTeam df; Setting := Setting df;
     GroupCol := c; LoSdays := LoSdays df;
     newWardTeam := newWardTeam df; newSetting := newSetting df;
     wardTeamCat := wardTeamCat df; wardTeamCatCode := wardTeamCatCode df |}.

Definition set_newWardTeam (c : list string) (df : DataFrame) : DataFrame :=
  {| ClientID := ClientID df; WardTeam := WardTeam df; Setting := Setting df;
     GroupCol := GroupCol df; LoSdays := LoSdays df;
     newWardTeam := Some c; newSetting := newSetting df;
     wardTeamCat := wardTeamCat df; wardTeamCatCode := wardTeamCatCode df |}.

Definition set_newSetting (c : list string) (df : DataFrame) : DataFrame :=
  {| ClientID := ClientID df; WardTeam := WardTeam df; Setting := Setting df;
     GroupCol := GroupCol df; LoSdays := LoSdays df;
     newWardTeam := newWardTeam df; newSetting := Some c;
     wardTeamCat := wardTeamCat df; wardTeamCatCode := wardTeamCatCode df |}.

(** [series.values] is not a copy: it is the array that backs the column of
    the frame.  A view is the name of the column it aliases; reading goes to
    the frame, and a masked assignment to the view changes the frame. *)
Inductive view :=
| WardTeam_values
| Setting_values
| GroupCol_values.

Definition view_get (v : view) (df : DataFrame) : list string :=
  match v with
  | WardTeam_values => WardTeam df
  | Setting_values => Setting df
  | GroupCol_values => GroupCol df
  end.

Definition view_set (v : view) (arr : list string) (df : DataFrame) : DataFrame :=
  match v with
  | WardTeam_values => set_WardTeam arr df
  | Setting_values => set_Setting arr df
  | GroupCol_values => set_GroupCol arr df
  end.

(** [v[mask] = x]. *)
Definition view_mask_assign (v : view) (mask : list bool) (x : string)
  (df : DataFrame) : DataFrame :=
  view_set v (mask_assign mask x (view_get v df)) df.

(** The keys of [subgroup_info]; [DATA] is a reference into the store of
    frames (below), [REPRESENT_REMOVED] is the integer 0 or 1. *)
Record subgroup_dict := {
  DATA : nat;
  COLUMN : string;
  REPRESENT_REMOVED : Z;
  SUBGROUP_NODE_NAME : string;
  SUBGROUP_FILENAME : string
}.

(** The body of [for notgroup in DATA_SG[COLUMN].unique()], the two column
    assignments included (they are inside the loop). *)
Definition recode_notgroup (subgroup_info : subgroup_dict) (group : string)
  (npWardTeam npSetting npColumn : view) (DATA_SG : DataFrame)
  (notgroup : string) : DataFrame :=
  let DATA_SG :=
    if bool_decide (group ≠ notgroup) then
      let DATA_SG :=
        view_mask_assign npWardTeam
          (eq_mask (view_get npColumn DATA_SG) notgroup)
          (SUBGROUP_NODE_NAME subgroup_info +:+ notgroup) DATA_SG in
      view_mask_assign npSetting
        (eq_mask (view_get npColumn DATA_SG) notgroup) "Mixture" DATA_SG
    else DATA_SG in
  let DATA_SG := set_newWardTeam (view_get npWardTeam DATA_SG) DATA_SG in
  set_newSetting (view_get npSetting DATA_SG) DATA_SG.

(** Adds the columns newWardTeam and newSetting to [DATA_SG], in place. *)
Definition create_new_ward_and_setting_columns (subgroup_info : subgroup_dict)
  (group : string) (DATA_SG : DataFrame) : DataFrame :=
  if bool_decide (REPRESENT_REMOVED subgroup_info ≠ 0) then
    let npWardTeam := WardTeam_values in
    let npSetting := Setting_values in
    let npColumn := GroupCol_values in
    foldl (recode_notgroup subgroup_info group npWardTeam npSetting npColumn)
      DATA_SG (unique (GroupCol DATA_SG))
  else
    let DATA_SG := set_newWardTeam (WardTeam DATA_SG) DATA_SG in
    set_newSetting (Setting DATA_SG) DATA_SG.

(** ** The store of frames *)

(** Frames are objects: [subgroup_info['DATA']] and
    [file_output_info['DATA_SG']] hold references, and two references may be
    to one frame.  The store is the list of the frames allocated so far and
    a reference is a position in it. *)
Abbreviation store := (list DataFrame).

Definition M (A : Type) : Type := store → result (A * store).

#[global] Instance M_ret : MRet M := λ A a σ, Ok (a, σ).
#[global] Instance M_bind : MBind M := λ A B f m σ,
  match m σ with
  | Ok (a, σ') => f a σ'
  | Raise e => Raise e
  end.

Definition lift {A} (r : result A) : M A := λ σ,
  match r with
  | Ok a => Ok (a, σ)
  | Raise e => Raise e
  end.

(** A reference outside the store does not exist in Python; the model
    reports it as a [KeyError] on the reference. *)
Definition deref (r : nat) : M DataFrame := λ σ,
  match σ !! r with
  | Some df => Ok (df, σ)
  | None => Raise (KeyError "no such frame")
  end.

Definition alloc (df : DataFrame) : M nat := λ σ, Ok (length σ, σ ++ [df]).

Definition assign (r : nat) (df : DataFrame) : M unit := λ σ,
  Ok ((), <[r := df]> σ).

(** A function that changes the frame behind a reference in place. *)
Definition in_place (r : nat) (f : DataFrame → result DataFrame) : M unit :=
  df ← deref r;
  df' ← lift (f df);
  assign r df'.

(** [df.copy(deep = True)]: a new frame with the same contents. *)
Definition copy_deep (r : nat) : M nat :=
  df ← deref r;
  alloc df.

(** [df[mask]]: a new frame with the selected rows. *)
Definition frame_select (mask : list bool) (df : DataFrame) : DataFrame :=
  {| ClientID := mask_select mask (ClientID df);
     WardTeam := mask_select mask (WardTeam df);
     Setting := mask_select mask (Setting df);
     GroupCol := mask_select mask (GroupCol df);
     LoSdays := mask_select mask (LoSdays df);
     newWardTeam := mask_select mask <$> newWardTeam df;
     newSetting := mask_select mask <$> newSetting df;
     wardTeamCat :=
       (λ c, {| categories := categories c;
                codes := mask_select mask (codes c) |}) <$> wardTeamCat df;
     wardTeamCatCode := mask_select mask <$> wardTeamCatCode df |}.

(** ** make_filename, update_dictionary, create_network_data_for_subgroup *)

(** [s.replace(', ', '_')]. *)
Fixpoint replace_comma_space (s : string) : string :=
  match s with
  | String "," (String " " s') => String "_" (replace_comma_space s')
  | String c s' => String c (replace_comma_space s')
  | EmptyString => EmptyString
  end.

(** [s.replace(c, '_')] for a single character [c]. *)
Fixpoint replace_char (c : ascii) (s : string) : string :=
  match s with
  | String d s' =>
      String (if Ascii.eqb c d then "_"%char else d) (replace_char c s')
  | EmptyString => EmptyString
  end.

(** Formats the name of a subgroup for use in a file name (a subgroup is a
    string here, so the four replacements never raise). *)
Definition make_filename (filename : string) : string :=
  let filename := replace_comma_space filename in
  let filename := replace_char " " filename in
  let filename := replace_char "." filename in
  let filename := replace_char "," filename in
  filename.

(** The keys of [file_output_info] that change from one network to the
    next; the six constant keys only make up file names. *)
Record file_output_dict := {
  DATA_SG : option nat;
  FILEMIDDLE : option string
}.

Definition update_dictionary (subgroup_info : subgroup_dict)
  (file_output_info : file_output_dict) (group filename : string)
  : M file_output_dict :=
  r ← lift (getitem "DATA_SG" (DATA_SG file_output_info));
  _ ← in_place r
        (λ df, Ok (create_new_ward_and_setting_columns subgroup_info group df));
  _ ← in_place r categorise_columns;
  mret {| DATA_SG := DATA_SG file_output_info;
          FILEMIDDLE := Some (SUBGROUP_FILENAME subgroup_info +:+ filename) |}.

(** One file set: the middle of its name and the three tables. *)
Definition file_set : Type := string * (matrix * list Edge * list Node).

(** The body of [for group in ...unique()], on the dictionary and the file
    sets written so far. *)
Definition subgroup_network (subgroup_info : subgroup_dict)
  (st : file_output_dict * list file_set) (group : string)
  : M (file_output_dict * list file_set) :=
  let '(file_output_info, written) := st in
  if bool_decide (group ≠ "None") then
    let filename := make_filename group in
    r ← (if bool_decide (REPRESENT_REMOVED subgroup_info = 0) then
           d ← deref (DATA subgroup_info);
           alloc (frame_select (eq_mask (GroupCol d) group) d)
         else
           copy_deep (DATA subgroup_info));
    let file_output_info :=
      {| DATA_SG := Some r; FILEMIDDLE := FILEMIDDLE file_output_info |} in
    file_output_info ←
      update_dictionary subgroup_info file_output_info group filename;
    r ← lift (getitem "DATA_SG" (DATA_SG file_output_info));
    df ← deref r;
    files ← lift (create_output_files df);
    middle ← lift (getitem "FILEMIDDLE" (FILEMIDDLE file_output_info));
    mret (file_output_info, written ++ [(middle, files)])
  else mret (file_output_info, written).

Fixpoint for_each_M {A B} (l : list A) (body : B → A → M B) (acc : B) : M B :=
  match l with
  | [] => mret acc
  | x :: l' => acc' ← body acc x; for_each_M l' body acc'
  end.

(** Loops through the categories of the subgroup column and creates the
    output files for each. *)
Definition create_network_data_for_subgroup (subgroup_info : subgroup_dict)
  (file_output_info : file_output_dict) : M (list file_set) :=
  d ← deref (DATA subgroup_info);
  r ← alloc (frame_select (ne_mask (GroupCol d) "None") d);
  let subgroup_info :=
    {| DATA := r; COLUMN := COLUMN subgroup_info;
       REPRESENT_REMOVED := REPRESENT_REMOVED subgroup_info;
       SUBGROUP_NODE_NAME := SUBGROUP_NODE_NAME subgroup_info;
       SUBGROUP_FILENAME := SUBGROUP_FILENAME subgroup_info |} in
  d ← deref (DATA subgroup_info);
  st ← for_each_M (unique (GroupCol d)) (subgroup_network subgroup_info)
         (file_output_info, []);
  mret st.2.

(** ** delete_zero_LoS, create_DATA_with_one_OOA_node *)

(** [col >= v]. *)
Definition ge_mask (col : list Z) (v : Z) : list bool :=
  (λ x, bool_decide (v ≤ x)) <$> col.

(** Removes the rows with a negative length of stay. *)
Definition delete_zero_LoS (DATA : DataFrame) : DataFrame :=
  frame_select (ge_mask (LoSdays DATA) 0) DATA.

(** Represents all the OOA ward teams as one node.  The label is written
    through the array of the WardTeam column, so the frame passed in is
    changed; deleting the column and adding the array back leaves its
    values as they are (the column moves to the end, and the order of the
    columns is not part of a frame here). *)
Definition create_DATA_with_one_OOA_node (DATA_OneOOA : DataFrame)
  : DataFrame :=
  let np1 := WardTeam_values in
  let np2 := Setting_values in
  let DATA_OneOOA :=
    view_mask_assign np1 (eq_mask (view_get np2 DATA_OneOOA) "OOA")
      "All OOA services" DATA_OneOOA in
  let np1_array := view_get np1 DATA_OneOOA in
  set_WardTeam np1_array DATA_OneOOA.

(** ** clean_data *)

(** The columns of the file that [clean_data] touches, as read from the
    csv: a cell of the seven referral columns is [None] where pandas has
    NaN. *)
Record RawData := {
  raw_ClientID : list Z;
  raw_WardTeam : list string;
  raw_Setting : list string;
  ReferralSource : list (option string);
  ReferralDate : list (option string);
  ReferralDischarge : list (option string);
  Locality_Edit : list (option string);
  Cluster : list (option string);
  AgeAtRefGroup : list (option string);
  GenSpecialty_Age : list (option string)
}.

(** [col.replace(np.nan, v)]. *)
Definition replace_nan (v : string) (col : list (option string))
  : list (option string) :=
  (λ c, Some (default v c)) <$> col.

(** [DATA[mask]] on the raw columns. *)
Definition raw_select (mask : list bool) (DATA : RawData) : RawData :=
  {| raw_ClientID := mask_select mask (raw_ClientID DATA);
     raw_WardTeam := mask_select mask (raw_WardTeam DATA);
     raw_Setting := mask_select mask (raw_Setting DATA);
     ReferralSource := mask_select mask (ReferralSource DATA);
     ReferralDate := mask_select mask (ReferralDate DATA);
     ReferralDischarge := mask_select mask (ReferralDischarge DATA);
     Locality_Edit := mask_select mask (Locality_Edit DATA);
     Cluster := mask_select mask (Cluster DATA);
     AgeAtRefGroup := mask_select mask (AgeAtRefGroup DATA);
     GenSpecialty_Age := mask_select mask (GenSpecialty_Age DATA) |}.

(** [(np1 == a) & (np2 == b)]. *)
Definition and_mask (m1 m2 : list bool) : list bool := zip_with andb m1 m2.

(** Replaces NaN in the referral columns, removes the rows without a
    referral date, and renames the ward team Harford after its setting. *)
Definition clean_data (DATA : RawData) : RawData :=
  let DATA :=
    {| raw_ClientID := raw_ClientID DATA;
       raw_WardTeam := raw_WardTeam DATA;
       raw_Setting := raw_Setting DATA;
       ReferralSource := replace_nan "None" (ReferralSource DATA);
       ReferralDate := replace_nan "None" (ReferralDate DATA);
       ReferralDischarge := replace_nan "18/02/2018" (ReferralDischarge DATA);
       Locality_Edit := replace_nan "None" (Locality_Edit DATA);
       Cluster := replace_nan "None" (Cluster DATA);
       AgeAtRefGroup := replace_nan "None" (AgeAtRefGroup DATA);
       GenSpecialty_Age := replace_nan "None" (GenSpecialty_Age DATA) |} in
  let DATA := raw_select (ne_mask (ReferralDate DATA) (Some "None")) DATA in
  let np1 := raw_WardTeam DATA in
  let np2 := raw_Setting DATA in
  let np1 :=
    mask_assign (and_mask (eq_mask np1 "Harford") (eq_mask np2 "Inpatient"))
      "Harford Inpatient" np1 in
  let np1 :=
    mask_assign (and_mask (eq_mask np1 "Harford") (eq_mask np2 "OOA"))
      "Harford OOA" np1 in
  {| raw_ClientID := raw_ClientID DATA;
     raw_WardTeam := np1;
     raw_Setting := raw_Setting DATA;
     ReferralSource := ReferralSource DATA;
     ReferralDate := ReferralDate DATA;
     ReferralDischarge := ReferralDischarge DATA;
     Locality_Edit := Locality_Edit DATA;
     Cluster := Cluster DATA;
     AgeAtRefGroup := AgeAtRefGroup DATA;
     GenSpecialty_Age := GenSpecialty_Age DATA |}.

(** ** Vocabulary of the statements *)

(** The id the encoder gives to a label of the column [labels]. *)
Definition category_id (labels : list string) (a : string) : Z :=
  get_indexer (categories (astype_category labels)) a + 1.

(** Cell [r][c] of a matrix, counted from 0. *)
Definition cell (m : matrix) (r c : nat) : Z :=
  default 0 (m !! r ≫= λ row, row !! c).

(** An [n] by [n] array. *)
Definition square (n : nat) (m : matrix) : Prop :=
  length m = n ∧ Forall (λ row, length row = n) m.

(** The sum of all the cells. *)
Definition matrix_sum (m : matrix) : Z := sum_Z (sum_Z <$> m).

(** The number of cells with a value above 0, row by row. *)
Definition count_positive (m : matrix) : nat :=
  sum_list ((λ row, length (filter (λ v, 0 < v) row)) <$> m).

(** The codes of the events of one entity, in the order of the frame. *)
Definition patient_codes (ids code : list Z) (ID : Z) : list Z :=
  mask_select (eq_mask ids ID) code.

(** The number of events of an entity. *)
Definition event_count (ids : list Z) (ID : Z) : nat :=
  length (filter (λ x, x = ID) ids).

(** The consecutive pairs of a sequence of codes: event [j] with event
    [j + 1]. *)
Definition transitions (c : list Z) : list (Z * Z) := zip c (tail c).

(** How many of the pairs go from the category of row [r] to the category
    of column [c]. *)
Definition uses (ts : list (Z * Z)) (r c : nat) : nat :=
  length (filter (λ p, p = (Z.of_nat r + 1, Z.of_nat c + 1)) ts).

(** The cells in the order the edge extractor visits them: column (target)
    ascending outside, row (source) ascending inside. *)
Definition emission_order (n : nat) : list (nat * nat) :=
  i ← seq 0 n; j ← seq 0 n; [(i, j)].

(** The visited cells that hold a count above 0, as (column, row). *)
Definition edge_cells (m : matrix) : list (nat * nat) :=
  filter (λ p, 0 < cell m p.2 p.1) (emission_order (length m)).

(** The order of the visit on cells given as (column, row). *)
Definition visit_before (p q : nat * nat) : Prop :=
  (p.1 < q.1 ∨ (p.1 = q.1 ∧ p.2 < q.2))%nat.

(** What the recoder makes of a label [w] and a setting [s] of an event
    whose group value is [v], for the focus value [G]. *)
Definition recoded_label (prefix G w v : string) : string :=
  if decide (v = G) then w else prefix +:+ v.

Definition recoded_setting (G s v : string) : string :=
  if decide (v = G) then s else "Mixture".

(** What an explicit assertion about a label with two settings would be:
    an [AssertionError] whose message contains the label. *)
Definition reports_ambiguous_label {A} (r : result A) (a : string) : Prop :=
  ∃ msg, r = Raise (AssertionError msg) ∧ index 0 a msg ≠ None.

(** Every label has one setting: two events with the same label have the
    same setting. *)
Definition single_setting (labels settings : list string) : Prop :=
  ∀ i j a s1 s2,
    labels !! i = Some a → labels !! j = Some a →
    settings !! i = Some s1 → settings !! j = Some s2 → s1 = s2.

(** The five columns of the data have one length. *)
Definition aligned (df : DataFrame) : Prop :=
  length (WardTeam df) = length (ClientID df)
  ∧ length (Setting df) = length (ClientID df)
  ∧ length (GroupCol df) = length (ClientID df)
  ∧ length (LoSdays df) = length (ClientID df).

(** The rows of the data: client, ward team, setting, group and length of
    stay of each event, in the order of the frame. *)
Abbreviation event := (Z * string * string * string * Z)%type.

Definition events (df : DataFrame) : list event :=
  zip (zip (zip (zip (ClientID df) (WardTeam df)) (Setting df)) (GroupCol df))
    (LoSdays df).

(** The label that the one-node representation of the OOA services gives
    to a ward team [w] of setting [s]. *)
Definition one_OOA_label (w s : string) : string :=
  if decide (s = "OOA") then "All OOA services" else w.

(** The rows that [clean_data] keeps: those with a referral date. *)
Definition has_referral_date (DATA : RawData) : list bool :=
  ne_mask (replace_nan "None" (ReferralDate DATA)) (Some "None").

(** The name that [clean_data] gives to a ward team [w] of setting [s]. *)
Definition harford_label (w s : string) : string :=
  if decide (w = "Harford") then
    if decide (s = "Inpatient") then "Harford Inpatient"
    else if decide (s = "OOA") then "Harford OOA" else w
  else w.

(** Every ward team has one setting, but for Harford as an inpatient or OOA
    service: two events with the same ward team have the same setting
    unless the ward team is Harford and one of the two settings is
    Inpatient or OOA. *)
Definition single_setting_but_Harford (labels settings : list string)
  : Prop :=
  ∀ i j a s1 s2,
    labels !! i = Some a → labels !! j = Some a →
    settings !! i = Some s1 → settings !! j = Some s2 →
    s1 = s2
    ∨ (a = "Harford"
       ∧ (s1 = "Inpatient" ∨ s1 = "OOA" ∨ s2 = "Inpatient" ∨ s2 = "OOA")).

(** The characters that [make_filename] replaces. *)
Definition filename_safe (c : ascii) : Prop :=
  c ≠ " "%char ∧ c ≠ "."%char ∧ c ≠ ","%char.

(** ** Example data *)

(** Entity 7 goes Ward1, Ward2, Ward2, Ward3; entity 8 has one event.  The
    labels are already copied to newWardTeam and their codes filled in. *)
Definition example_events : DataFrame :=
  {| ClientID := [7; 7; 7; 7; 8];
     WardTeam := ["Ward1"; "Ward2"; "Ward2"; "Ward3"; "Ward1"];
     Setting := ["Community"; "Inpatient"; "Inpatient"; "OOA"; "Community"];
     GroupCol := ["North"; "North"; "South"; "Exeter"; "None"];
     LoSdays := [1; 2; 3; 4; 5];
     newWardTeam := Some ["Ward1"; "Ward2"; "Ward2"; "Ward3"; "Ward1"];
     newSetting :=
       Some ["Community"; "Inpatient"; "Inpatient"; "OOA"; "Community"];
     wardTeamCat := None;
     wardTeamCatCode := Some [1; 2; 2; 3; 1] |}.

(** Its transition matrix. *)
Definition example_servMove : matrix := [[0; 1; 0]; [0; 1; 1]; [0; 0; 0]].

(** The ward team Harford with two settings, not renamed. *)
Definition harford_events : DataFrame :=
  {| ClientID := [1; 1; 2];
     WardTeam := ["Harford"; "Harford"; "Ward1"];
     Setting := ["Inpatient"; "OOA"; "Community"];
     GroupCol := ["North"; "North"; "North"];
     LoSdays := [3; 4; 5];
     newWardTeam := Some ["Harford"; "Harford"; "Ward1"];
     newSetting := Some ["Inpatient"; "OOA"; "Community"];
     wardTeamCat := None;
     wardTeamCatCode := None |}.

(** A frame without rows, as [DATA[DATA.ClientID == cID]] is for a client
    that is not in the data. *)
Definition empty_events : DataFrame :=
  {| ClientID := []; WardTeam := []; Setting := []; GroupCol := [];
     LoSdays := []; newWardTeam := None; newSetting := None;
     wardTeamCat := None; wardTeamCatCode := None |}.

(** The settings of networks 2 and 3 (no subgroup column, nothing
    represented) and of networks 4 to 8 (localities, excluded ones
    represented). *)
Definition client_network : subgroup_dict :=
  {| DATA := 0%nat; COLUMN := ""; REPRESENT_REMOVED := 0;
     SUBGROUP_NODE_NAME := ""; SUBGROUP_FILENAME := "_ClientID_" |}.

Definition locality_network : subgroup_dict :=
  {| DATA := 0%nat; COLUMN := "Locality_Edit"; REPRESENT_REMOVED := 1;
     SUBGROUP_NODE_NAME := "Locality "; SUBGROUP_FILENAME := "_Locality_" |}.

(** The example events with lengths of stay of which one is negative and
    one is 0. *)
Definition example_stays : DataFrame :=
  {| ClientID := [7; 7; 7; 7; 8];
     WardTeam := ["Ward1"; "Ward2"; "Ward2"; "Ward3"; "Ward1"];
     Setting := ["Community"; "Inpatient"; "Inpatient"; "OOA"; "Community"];
     GroupCol := ["North"; "North"; "South"; "Exeter"; "None"];
     LoSdays := [1; -2; 0; 4; 5];
     newWardTeam := None; newSetting := None;
     wardTeamCat := None; wardTeamCatCode := None |}.


(** Two events without a subgroup value. *)
Definition ungrouped_events : DataFrame :=
  {| ClientID := [1; 2];
     WardTeam := ["Ward1"; "Ward2"];
     Setting := ["Community"; "Inpatient"];
     GroupCol := ["None"; "None"];
     LoSdays := [3; 4];
     newWardTeam := None; newSetting := None;
     wardTeamCat := None; wardTeamCatCode := None |}.

(** Four referrals as read from the file: Harford with two settings, one
    referral without a date, one without a discharge. *)
Definition example_raw : RawData :=
  {| raw_ClientID := [1; 1; 2; 3];
     raw_WardTeam := ["Harford"; "Harford"; "Ward1"; "Ward2"];
     raw_Setting := ["Inpatient"; "OOA"; "Community"; "Community"];
     ReferralSource := [Some "GP"; None; Some "GP"; None];
     ReferralDate :=
       [Some "01/02/2017"; Some "03/04/2017"; Some "05/06/2017"; None];
     ReferralDischarge :=
       [Some "02/03/2017"; None; Some "06/06/2017"; Some "07/08/2017"];
     Locality_Edit := [Some "North"; Some "North"; None; Some "South"];
     Cluster := [None; None; None; None];
     AgeAtRefGroup := [Some "18-25"; Some "18-25"; Some "26-35"; None];
     GenSpecialty_Age := [Some "Adult"; Some "Adult"; None; None] |}.

(** The dictionary before the first run. *)
Definition no_run_yet : file_output_dict :=
  {| DATA_SG := None; FILEMIDDLE := None |}.

(** A statement about two rows of concrete columns, row by row. *)
Ltac by_rows :=
  let i := fresh "i" in
  let j := fresh "j" in
  intros i j; intros;
  repeat (destruct i as [|i]; simplify_eq/=);
  repeat (destruct j as [|j]; simplify_eq/=);
  auto.

(** * Properties *)

(** ** Labels are totally ordered *)

Lemma compare_lt_trans a b c :
  String.compare a b = Lt → String.compare b c = Lt → String.compare a c = Lt.
Proof.
  revert b c. induction a as [|x a IH]; intros [|y b] [|z c]; simpl; try done.
  unfold Ascii.compare.
  destruct (N.compare_spec (N_of_ascii x) (N_of_ascii y)) as [Hxy|Hxy|Hxy];
    try done;
    destruct (N.compare_spec (N_of_ascii y) (N_of_ascii z)) as [Hyz|Hyz|Hyz];
    try done; intros H1 H2.
  - rewrite Hxy, Hyz, N.compare_refl. eauto.
  - rewrite Hxy. by apply N.compare_lt_iff in Hyz as ->.
  - rewrite <- Hyz. by apply N.compare_lt_iff in Hxy as ->.
  - assert (N_of_ascii x < N_of_ascii z)%N as Hxz by lia.
    by apply N.compare_lt_iff in Hxz as ->.
Qed.

Lemma compare_refl_Eq a : String.compare a a = Eq.
Proof.
  induction a as [|x a IH]; simpl; [done|].
  unfold Ascii.compare. by rewrite N.compare_refl.
Qed.

Lemma str_lt_irrefl a : ¬ str_lt a a.
Proof. unfold str_lt, String.ltb. by rewrite compare_refl_Eq. Qed.

Lemma str_lt_le a b : str_lt a b ↔ str_le a b ∧ a ≠ b.
Proof.
  unfold str_lt, str_le, String.ltb, String.leb. split.
  - intros H. split.
    + by destruct (String.compare a b).
    + intros ->. by rewrite compare_refl_Eq in H.
  - intros [H Hne]. destruct (String.compare a b) eqn:E; try done.
    by apply String.compare_eq_iff in E.
Qed.

Lemma str_le_lt_eq a b : str_le a b ↔ str_lt a b ∨ a = b.
Proof.
  split.
  - intros H. destruct (decide (a = b)); [by right|left].
    by apply str_lt_le.
  - intros [H| ->]; [by apply str_lt_le in H as [? _]|].
    unfold str_le, String.leb. by rewrite compare_refl_Eq.
Qed.

Lemma str_lt_trans a b c : str_lt a b → str_lt b c → str_lt a c.
Proof.
  unfold str_lt, String.ltb. intros H1 H2.
  destruct (String.compare a b) eqn:E1; try done.
  destruct (String.compare b c) eqn:E2; try done.
  by rewrite (compare_lt_trans a b c).
Qed.

#[global] Instance str_le_total : Total str_le.
Proof. intros a b. apply String.leb_total. Qed.

#[global] Instance str_le_antisym : AntiSymm (=) str_le.
Proof. intros a b. apply String.leb_antisym. Qed.

#[global] Instance str_le_trans : Transitive str_le.
Proof.
  intros a b c [H1| ->]%str_le_lt_eq [H2| ->]%str_le_lt_eq;
    apply str_le_lt_eq; eauto using str_lt_trans.
Qed.

Lemma str_lt_asym a b : str_lt a b → ¬ str_lt b a.
Proof. intros H1 H2. by apply (str_lt_irrefl a), (str_lt_trans a b a). Qed.

(** ** [unique] *)

Section unique.
Context {A : Type} `{EqDecision A}.
Implicit Types l seen : list A.

Lemma elem_of_unique_from seen l x :
  x ∈ unique_from seen l ↔ x ∈ l ∧ x ∉ seen.
Proof.
  revert seen. induction l as [|y l IH]; intros seen; simpl.
  - rewrite !elem_of_nil. tauto.
  - case_decide as Hy.
    + rewrite IH, elem_of_cons. split; [tauto|].
      intros [[->|?] ?]; tauto.
    + rewrite !elem_of_cons, IH, not_elem_of_cons.
      destruct (decide (x = y)) as [->|]; tauto.
Qed.

Lemma NoDup_unique_from seen l : NoDup (unique_from seen l).
Proof.
  revert seen. induction l as [|y l IH]; intros seen; simpl.
  - constructor.
  - case_decide; [done|]. constructor; [|done].
    rewrite elem_of_unique_from, not_elem_of_cons. tauto.
Qed.

Lemma elem_of_unique l x : x ∈ unique l ↔ x ∈ l.
Proof.
  unfold unique. rewrite elem_of_unique_from, elem_of_nil. tauto.
Qed.

Lemma NoDup_unique l : NoDup (unique l).
Proof. apply NoDup_unique_from. Qed.

Lemma unique_nil_inv l : unique l = [] → l = [].
Proof.
  destruct l as [|x l]; [done|]. unfold unique. simpl.
  destruct (decide (x ∈ [])) as [H|H]; [by apply elem_of_nil in H|done].
Qed.
End unique.

(** ** The category encoder *)

Lemma StronglySorted_lookup_lt {A} (R : relation A) (l : list A) i j x y :
  StronglySorted R l → l !! i = Some x → l !! j = Some y → (i < j)%nat →
  R x y.
Proof.
  intros Hs. revert i j.
  induction Hs as [|z l Hs IH Hall]; intros [|i] [|j] Hi Hj Hlt;
    simplify_eq/=; try lia.
  - by eapply (proj1 (Forall_lookup _ _) Hall).
  - eapply IH; eauto. lia.
Qed.

Lemma StronglySorted_le_lt (l : list string) :
  StronglySorted str_le l → NoDup l → StronglySorted str_lt l.
Proof.
  induction 1 as [|x l Hs IH Hall]; intros Hnd; [constructor|].
  apply NoDup_cons in Hnd as [Hx Hnd]. constructor; [by apply IH|].
  apply Forall_forall. intros y Hy. apply str_lt_le. split.
  - by eapply (proj1 (Forall_forall _ _) Hall).
  - by intros ->.
Qed.

Section encoder.
Implicit Types labels cats : list string.

Lemma categories_Permutation labels :
  categories (astype_category labels) ≡ₚ unique labels.
Proof. apply merge_sort_Permutation. Qed.

Lemma elem_of_categories labels a :
  a ∈ categories (astype_category labels) ↔ a ∈ labels.
Proof. by rewrite categories_Permutation, elem_of_unique. Qed.

Lemma NoDup_categories labels : NoDup (categories (astype_category labels)).
Proof. rewrite categories_Permutation. apply NoDup_unique. Qed.

Lemma categories_sorted labels :
  StronglySorted str_lt (categories (astype_category labels)).
Proof.
  apply StronglySorted_le_lt; [|apply NoDup_categories].
  apply (StronglySorted_merge_sort str_le).
Qed.

Lemma length_categories labels :
  length (categories (astype_category labels)) = length (unique labels).
Proof. by rewrite categories_Permutation. Qed.

(** The categories depend on the set of labels only. *)
Lemma categories_set labels labels' :
  (∀ a, a ∈ labels' ↔ a ∈ labels) →
  categories (astype_category labels')
  = categories (astype_category labels).
Proof.
  intros Hset. apply (StronglySorted_unique str_le).
  - apply (StronglySorted_merge_sort str_le).
  - apply (StronglySorted_merge_sort str_le).
  - rewrite !categories_Permutation.
    apply NoDup_Permutation; [apply NoDup_unique..|].
    intros a. by rewrite !elem_of_unique.
Qed.

Lemma get_indexer_lookup cats i a :
  NoDup cats → cats !! i = Some a → get_indexer cats a = Z.of_nat i.
Proof.
  intros Hnd Hi. unfold get_indexer.
  destruct (list_find _ cats) as [[j b]|] eqn:Hfind.
  - apply list_find_Some in Hfind as (Hj & -> & _).
    by rewrite (NoDup_lookup cats i j a).
  - apply list_find_None in Hfind.
    by destruct (proj1 (Forall_lookup _ _) Hfind i a).
Qed.

Lemma get_indexer_elem_of cats a :
  NoDup cats → a ∈ cats →
  ∃ i, cats !! i = Some a ∧ get_indexer cats a = Z.of_nat i.
Proof.
  intros Hnd (i & Hi)%list_elem_of_lookup.
  exists i. eauto using get_indexer_lookup.
Qed.

Lemma get_indexer_not_elem_of cats a : a ∉ cats → get_indexer cats a = -1.
Proof.
  intros Hna. unfold get_indexer.
  destruct (list_find _ cats) as [[j b]|] eqn:Hfind; [|done].
  apply list_find_Some in Hfind as (Hj & -> & _).
  destruct Hna. apply list_elem_of_lookup. eauto.
Qed.

(** The id of a label of the column is its 1-based rank among the
    categories. *)
Lemma category_id_lookup labels a :
  a ∈ labels →
  ∃ i, categories (astype_category labels) !! i = Some a
       ∧ category_id labels a = Z.of_nat i + 1.
Proof.
  intros Ha. unfold category_id.
  destruct (get_indexer_elem_of (categories (astype_category labels)) a)
    as (i & Hi & ->); eauto using NoDup_categories.
  by apply elem_of_categories.
Qed.

Lemma category_id_of_lookup labels i a :
  categories (astype_category labels) !! i = Some a →
  category_id labels a = Z.of_nat i + 1.
Proof.
  intros Hi. unfold category_id.
  by rewrite (get_indexer_lookup _ i a) by eauto using NoDup_categories.
Qed.

Lemma category_id_range labels a :
  a ∈ labels →
  1 ≤ category_id labels a ≤ Z.of_nat (length (unique labels)).
Proof.
  intros (i & Hi & ->)%category_id_lookup.
  apply lookup_lt_Some in Hi. rewrite length_categories in Hi. lia.
Qed.

Lemma category_id_lt labels a b :
  a ∈ labels → b ∈ labels →
  category_id labels a < category_id labels b ↔ str_lt a b.
Proof.
  intros (i & Hi & ->)%category_id_lookup (j & Hj & ->)%category_id_lookup.
  pose proof (categories_sorted labels) as Hs. split.
  - intros Hlt. eapply (StronglySorted_lookup_lt str_lt); eauto. lia.
  - intros Hab. destruct (decide (i < j)%nat) as [|Hge]; [lia|].
    destruct (decide (i = j)) as [->|Hne].
    + rewrite Hi in Hj. injection Hj as ->. by destruct (str_lt_irrefl b).
    + destruct (str_lt_asym a b Hab).
      eapply (StronglySorted_lookup_lt str_lt); eauto. lia.
Qed.

Lemma category_id_inj labels a b :
  a ∈ labels → b ∈ labels →
  category_id labels a = category_id labels b → a = b.
Proof.
  intros (i & Hi & ->)%category_id_lookup (j & Hj & ->)%category_id_lookup
    Heq.
  assert (i = j) as -> by lia. congruence.
Qed.

Lemma category_id_surj labels k :
  1 ≤ k ≤ Z.of_nat (length (unique labels)) →
  ∃ a, a ∈ labels ∧ category_id labels a = k.
Proof.
  intros Hk.
  destruct (lookup_lt_is_Some_2 (categories (astype_category labels))
              (Z.to_nat (k - 1))) as [a Ha].
  { rewrite length_categories. lia. }
  exists a. split.
  - apply elem_of_categories, list_elem_of_lookup. eauto.
  - rewrite (category_id_of_lookup _ _ _ Ha). lia.
Qed.

Lemma categorise_columns_Ok DATA_SG labels :
  newWardTeam DATA_SG = Some labels →
  categorise_columns DATA_SG
  = Ok (set_wardTeamCatCode (category_id labels <$> labels)
          (set_wardTeamCat (astype_category labels) DATA_SG)).
Proof.
  intros Hl. unfold categorise_columns. rewrite Hl. simpl.
  do 2 f_equal. rewrite <- list_fmap_compose. done.
Qed.
End encoder.

(** ** The service movement matrix *)

Lemma sum_list_cons (x : nat) (l : list nat) :
  sum_list (x :: l) = (x + sum_list l)%nat.
Proof. done. Qed.

Lemma bind_Ok {A B} (a : A) (f : A → result B) : Ok a ≫= f = f a.
Proof. done. Qed.

Lemma for_each_cons {A B} (x : A) (l : list A) (body : B → A → result B)
  (acc : B) :
  for_each (x :: l) body acc = body acc x ≫= for_each l body.
Proof. done. Qed.

Lemma for_each_fmap {A B C} (f : A → B) (l : list A)
  (body : C → B → result C) (acc : C) :
  for_each (f <$> l) body acc = for_each l (λ a x, body a (f x)) acc.
Proof.
  revert acc. induction l as [|x l IH]; intros acc; simpl; [done|].
  destruct (body acc (f x)); simpl; eauto.
Qed.

Lemma for_each_ext {A C} (l : list A) (body body' : C → A → result C) acc :
  (∀ a x, body a x = body' a x) →
  for_each l body acc = for_each l body' acc.
Proof.
  intros Hext. revert acc. induction l as [|x l IH]; intros acc; simpl;
    [done|].
  rewrite Hext. destruct (body' acc x); simpl; eauto.
Qed.

Lemma foldl_max_spec (l : list Z) (x : Z) :
  (foldl Z.max x l = x ∨ foldl Z.max x l ∈ l)
  ∧ x ≤ foldl Z.max x l
  ∧ ∀ y, y ∈ l → y ≤ foldl Z.max x l.
Proof.
  revert x. induction l as [|y l IH]; intros x; simpl.
  - split_and!; [by left|lia|]. by intros y ?%elem_of_nil.
  - destruct (IH (Z.max x y)) as ([Hm|Hm] & Hle & Hall); split_and!.
    + rewrite Hm. destruct (Z.max_spec x y) as [[_ ->]|[_ ->]];
        [right; apply list_elem_of_here|by left].
    + lia.
    + intros z [->|Hz]%elem_of_cons; [lia|by apply Hall].
    + right. by apply list_elem_of_further.
    + lia.
    + intros z [->|Hz]%elem_of_cons; [lia|by apply Hall].
Qed.

Lemma py_max_Ok (l : list Z) :
  l ≠ [] →
  ∃ m, py_max l = Ok m ∧ m ∈ l ∧ ∀ x, x ∈ l → x ≤ m.
Proof.
  destruct l as [|x l]; [done|]. intros _. simpl. eexists. split; [done|].
  destruct (foldl_max_spec l x) as ([Hm|Hm] & Hle & Hall); split.
  - rewrite Hm. apply list_elem_of_here.
  - intros z [->|Hz]%elem_of_cons; [lia|by apply Hall].
  - by apply list_elem_of_further.
  - intros z [->|Hz]%elem_of_cons; [lia|by apply Hall].
Qed.

Lemma np_index_in_range (n i : nat) :
  (i < n)%nat → np_index n (Z.of_nat i) = Ok i.
Proof.
  intros Hi. unfold np_index.
  rewrite (proj2 (Z.ltb_ge (Z.of_nat i) 0)) by lia.
  rewrite (proj2 (Z.leb_le 0 (Z.of_nat i))) by lia.
  rewrite (proj2 (Z.ltb_lt (Z.of_nat i) (Z.of_nat n))) by lia.
  simpl. by rewrite Nat2Z.id.
Qed.

Lemma square_lookup n (m : matrix) r :
  square n m → (r < n)%nat → ∃ row, m !! r = Some row ∧ length row = n.
Proof.
  intros [Hlen Hrows] Hr.
  destruct (lookup_lt_is_Some_2 m r) as [row Hrow]; [lia|].
  exists row. split; [done|].
  by eapply (proj1 (Forall_lookup _ _) Hrows).
Qed.

Lemma cell_nonneg (m : matrix) r c :
  Forall (Forall (λ v, 0 ≤ v)) m → 0 ≤ cell m r c.
Proof.
  intros Hm. unfold cell.
  destruct (m !! r) as [row|] eqn:Hrow; simpl; [|done].
  destruct (row !! c) as [v|] eqn:Hv; simpl; [|done].
  eapply (proj1 (Forall_lookup _ _)); [|exact Hv].
  by eapply (proj1 (Forall_lookup _ _) Hm).
Qed.

Lemma np_get_Ok n (m : matrix) r c :
  square n m → (r < n)%nat → (c < n)%nat →
  np_get m (Z.of_nat r) (Z.of_nat c) = Ok (cell m r c).
Proof.
  intros Hsq Hr Hc. destruct (square_lookup n m r Hsq Hr) as (row & Hrow & Hl).
  unfold np_get, cell. destruct Hsq as [Hlen _].
  rewrite np_index_in_range by lia. simpl. rewrite Hrow. simpl.
  rewrite np_index_in_range by lia. done.
Qed.

Lemma square_zeros (n : nat) : square n (replicate n (replicate n 0)).
Proof.
  split; [apply length_replicate|].
  apply Forall_replicate, length_replicate.
Qed.

Lemma cell_zeros (n r c : nat) : cell (replicate n (replicate n 0)) r c = 0.
Proof.
  unfold cell.
  destruct (replicate n (replicate n 0) !! r) as [row|] eqn:Hrow; simpl;
    [|done].
  apply lookup_replicate in Hrow as [-> _].
  destruct (replicate n 0 !! c) as [v|] eqn:Hv; simpl; [|done].
  by apply lookup_replicate in Hv as [-> _].
Qed.

Lemma sum_Z_replicate_0 (n : nat) : sum_Z (replicate n 0) = 0.
Proof. unfold sum_Z. induction n as [|n IH]; simpl; [done|]. lia. Qed.

Lemma matrix_sum_zeros (n : nat) :
  matrix_sum (replicate n (replicate n 0)) = 0.
Proof.
  unfold matrix_sum. rewrite fmap_replicate, sum_Z_replicate_0.
  apply sum_Z_replicate_0.
Qed.

Lemma sum_Z_insert (l : list Z) i v w :
  l !! i = Some v → sum_Z (<[i := w]> l) = sum_Z l - v + w.
Proof.
  unfold sum_Z. revert i.
  induction l as [|x l IH]; intros [|i] Hi; simplify_eq/=.
  - lia.
  - specialize (IH i Hi). lia.
Qed.

(** One increment of a cell inside a square array. *)
Lemma np_incr_Ok n (m : matrix) (r c : nat) :
  square n m → (r < n)%nat → (c < n)%nat →
  ∃ m', np_incr m (Z.of_nat r) (Z.of_nat c) = Ok m'
        ∧ square n m'
        ∧ (∀ r' c', cell m' r' c'
                    = cell m r' c' + if decide (r' = r ∧ c' = c) then 1 else 0)
        ∧ matrix_sum m' = matrix_sum m + 1.
Proof.
  intros Hsq Hr Hc. destruct (square_lookup n m r Hsq Hr) as (row & Hrow & Hl).
  destruct (lookup_lt_is_Some_2 row c) as [v Hv]; [lia|].
  pose proof Hsq as [Hlen Hrows].
  unfold np_incr. rewrite np_index_in_range by lia. simpl. rewrite Hrow. simpl.
  rewrite np_index_in_range by lia. simpl. rewrite Hv. simpl.
  eexists. split; [done|]. split_and!.
  - split; [by rewrite length_insert|].
    apply Forall_insert; [done|]. by rewrite length_insert.
  - intros r' c'. unfold cell. case_decide as Hrc.
    + destruct Hrc as [-> ->].
      rewrite list_lookup_insert_eq by lia. simpl.
      rewrite list_lookup_insert_eq by lia. rewrite Hrow. simpl.
      by rewrite Hv.
    + destruct (decide (r' = r)) as [->|Hne].
      * rewrite list_lookup_insert_eq by lia. simpl.
        rewrite list_lookup_insert_ne by (intros ->; tauto).
        rewrite Hrow. simpl. lia.
      * rewrite list_lookup_insert_ne by done. lia.
  - unfold matrix_sum. rewrite list_fmap_insert.
    rewrite (sum_Z_insert _ r (sum_Z row)) by by rewrite list_lookup_fmap, Hrow.
    rewrite (sum_Z_insert row c v) by done. lia.
Qed.

Lemma Forall_mask_select {A} (P : A → Prop) (mask : list bool) (arr : list A) :
  Forall P arr → Forall P (mask_select mask arr).
Proof.
  intros Harr. revert mask.
  induction Harr as [|x arr Hx Harr IH]; intros [|[] mask]; simpl;
    try constructor; eauto.
Qed.

Lemma length_patient_codes (ids code : list Z) (ID : Z) :
  length ids = length code →
  length (patient_codes ids code ID) = event_count ids ID.
Proof.
  unfold patient_codes, event_count, eq_mask. revert code.
  induction ids as [|x ids IH]; intros [|c code] Hlen; simplify_eq/=;
    [done|].
  rewrite filter_cons. case_bool_decide; simpl.
  - rewrite decide_True by done. simpl. by rewrite IH.
  - rewrite decide_False by done. by rewrite IH.
Qed.

Lemma SM_transition_cons x (cw : list Z) (m : matrix) (j : nat) :
  SM_transition (x :: cw) m (S j) = SM_transition cw m j.
Proof. done. Qed.

Lemma SM_transition_head x y (cw : list Z) (m : matrix) :
  SM_transition (x :: y :: cw) m 0 = np_incr m (x - 1) (y - 1).
Proof. done. Qed.

Lemma uses_cons x y (ts : list (Z * Z)) (r c : nat) :
  1 ≤ x → 1 ≤ y →
  Z.of_nat (uses ((x, y) :: ts) r c)
  = (if decide (r = Z.to_nat (x - 1) ∧ c = Z.to_nat (y - 1)) then 1 else 0)
    + Z.of_nat (uses ts r c).
Proof.
  intros Hx Hy. unfold uses. rewrite filter_cons.
  destruct (decide ((x, y) = (Z.of_nat r + 1, Z.of_nat c + 1))) as [Heq|Hne].
  - simplify_eq. rewrite decide_True by lia. simpl length. lia.
  - rewrite decide_False; [lia|]. intros [-> ->]. destruct Hne.
    f_equal; lia.
Qed.

(** The inner loop: one increment for each consecutive pair of the
    entity's codes, and nothing else. *)
Lemma SM_transitions_Ok (n : nat) (cw : list Z) (m : matrix) :
  square n m → Forall (λ c, 1 ≤ c ≤ Z.of_nat n) cw →
  ∃ m', for_each (seq 0 (length cw - 1)) (SM_transition cw) m = Ok m'
        ∧ square n m'
        ∧ (∀ r c, cell m' r c
                  = cell m r c + Z.of_nat (uses (transitions cw) r c))
        ∧ matrix_sum m' = matrix_sum m + Z.of_nat (length cw - 1).
Proof.
  intros Hsq Hcw. revert m Hsq.
  induction Hcw as [|x cw Hx Hcw IH]; intros m Hsq.
  { exists m. simpl. split_and!; [done..| |]; intros;
      unfold uses, transitions; simpl; lia. }
  destruct Hcw as [|y rest Hy Hrest].
  { exists m. simpl. split_and!; [done..| |]; intros;
      unfold uses, transitions; simpl; lia. }
  destruct (np_incr_Ok n m (Z.to_nat (x - 1)) (Z.to_nat (y - 1)))
    as (m1 & Hincr & Hsq1 & Hcell1 & Hsum1); [done|lia..|].
  rewrite !Z2Nat.id in Hincr by lia.
  destruct (IH m1 Hsq1) as (m' & Hloop & Hsq' & Hcell' & Hsum').
  exists m'. split_and!; [|done| |].
  - replace (length (x :: y :: rest) - 1)%nat
      with (S (length (y :: rest) - 1)) by (simpl; lia).
    rewrite <- cons_seq, <- fmap_S_seq.
    rewrite for_each_cons, SM_transition_head, Hincr, bind_Ok.
    rewrite for_each_fmap. rewrite <- Hloop.
    apply for_each_ext. intros a j. apply SM_transition_cons.
  - intros r c. rewrite Hcell', Hcell1.
    change (transitions (x :: y :: rest))
      with ((x, y) :: transitions (y :: rest)).
    rewrite uses_cons by lia. lia.
  - rewrite Hsum', Hsum1. simpl. lia.
Qed.

Lemma SM_patient_eq (ids code : list Z) (m : matrix) (singles : list Z) ID :
  SM_patient ids code (m, singles) ID
  = let cWardTeam := patient_codes ids code ID in
    if (1 <? length cWardTeam)%nat
    then for_each (seq 0 (length cWardTeam - 1)) (SM_transition cWardTeam) m
         ≫= λ servMove, Ok (servMove, singles)
    else Ok (m, singles ++ [ID]).
Proof. done. Qed.

(** The outer loop over a list of entities. *)
Lemma SM_patients_Ok (n : nat) (ids code us : list Z) (m : matrix)
  (singles : list Z) :
  square n m → Forall (λ c, 1 ≤ c ≤ Z.of_nat n) code →
  ∃ m',
    for_each us (SM_patient ids code) (m, singles)
    = Ok (m', singles
              ++ filter (λ ID, (length (patient_codes ids code ID) ≤ 1)%nat) us)
    ∧ square n m'
    ∧ (∀ r c, cell m' r c
              = cell m r c
                + Z.of_nat (sum_list ((λ ID,
                    uses (transitions (patient_codes ids code ID)) r c)
                                      <$> us)))
    ∧ matrix_sum m'
      = matrix_sum m
        + Z.of_nat (sum_list ((λ ID,
            (length (patient_codes ids code ID) - 1)%nat) <$> us)).
Proof.
  intros Hsq Hcode. revert m singles Hsq.
  induction us as [|ID us IH]; intros m singles Hsq.
  { exists m. simpl. rewrite app_nil_r. split_and!; [done..| |]; intros; lia. }
  rewrite for_each_cons, SM_patient_eq. cbv zeta.
  rewrite filter_cons.
  destruct (1 <? length (patient_codes ids code ID))%nat eqn:Hl.
  - apply Nat.ltb_lt in Hl.
    destruct (SM_transitions_Ok n (patient_codes ids code ID) m Hsq)
      as (m1 & Hloop & Hsq1 & Hcell1 & Hsum1).
    { by apply Forall_mask_select. }
    rewrite Hloop, !bind_Ok.
    destruct (IH m1 singles Hsq1) as (m' & Hrest & Hsq' & Hcell' & Hsum').
    exists m'. rewrite decide_False by lia. split_and!; [done..| |].
    + intros r c. rewrite Hcell', Hcell1, fmap_cons, sum_list_cons. lia.
    + rewrite Hsum', Hsum1, fmap_cons, sum_list_cons. lia.
  - apply Nat.ltb_ge in Hl. rewrite bind_Ok.
    destruct (IH m (singles ++ [ID]) Hsq) as (m' & Hrest & Hsq' & Hcell' & Hsum').
    exists m'. rewrite decide_True by lia. split_and!; [|done| |].
    + by rewrite Hrest, <- app_assoc.
    + intros r c. rewrite Hcell', fmap_cons, sum_list_cons.
      assert (transitions (patient_codes ids code ID) = []) as ->;
        [|unfold uses; simpl; lia].
      destruct (patient_codes ids code ID) as [|? [|? ?]]; simpl in *;
        [done..|lia].
    + rewrite Hsum', fmap_cons, sum_list_cons. lia.
Qed.

Lemma filter_ext_elem_of {A} (P Q : A → Prop) `{!∀ x, Decision (P x)}
  `{!∀ x, Decision (Q x)} (l : list A) :
  (∀ x, x ∈ l → P x ↔ Q x) → filter P l = filter Q l.
Proof.
  induction l as [|x l IH]; intros Hext; [done|].
  rewrite !filter_cons, IH by (intros y Hy; apply Hext; by right).
  destruct (decide (P x)) as [HP|HP], (decide (Q x)) as [HQ|HQ]; try done;
    destruct (Hext x); try apply list_elem_of_here; tauto.
Qed.

Lemma event_count_pos (ids : list Z) (ID : Z) :
  ID ∈ ids → (1 ≤ event_count ids ID)%nat.
Proof.
  intros Hin. unfold event_count.
  assert (ID ∈ filter (λ x, x = ID) ids) as Hf
    by by apply list_elem_of_filter.
  destruct (filter (λ x, x = ID) ids); [by apply elem_of_nil in Hf|].
  simpl. lia.
Qed.

Lemma lookup_transitions (c : list Z) (j : nat) a b :
  transitions c !! j = Some (a, b)
  ↔ c !! j = Some a ∧ c !! (j + 1)%nat = Some b.
Proof.
  unfold transitions. rewrite lookup_zip_with_Some, Nat.add_1_r.
  setoid_rewrite lookup_tail. split.
  - intros (x & y & Heq & Hx & Hy). by simplify_eq.
  - intros [Hx Hy]. eauto.
Qed.

(** The whole loop of [output_SM_file], from the array of zeros. *)
Lemma SM_loop_Ok (DATA_SG : DataFrame) (code : list Z) :
  wardTeamCatCode DATA_SG = Some code →
  code ≠ [] →
  Forall (λ c, 1 ≤ c) code →
  let ids := ClientID DATA_SG in
  ∃ (n : nat) (servMove : matrix),
    py_max code = Ok (Z.of_nat n)
    ∧ SM_loop DATA_SG
      = Ok (servMove,
            0 :: filter (λ ID, (length (patient_codes ids code ID) ≤ 1)%nat)
                   (unique ids))
    ∧ square n servMove
    ∧ (∀ r c, cell servMove r c
              = Z.of_nat (sum_list ((λ ID,
                  uses (transitions (patient_codes ids code ID)) r c)
                                    <$> unique ids)))
    ∧ matrix_sum servMove
      = Z.of_nat (sum_list ((λ ID,
          (length (patient_codes ids code ID) - 1)%nat) <$> unique ids)).
Proof.
  intros Hcode Hne Hpos ids.
  destruct (py_max_Ok code Hne) as (mx & Hmax & Hin & Hle).
  assert (1 ≤ mx) as Hmx
    by by eapply (proj1 (Forall_forall _ _) Hpos).
  exists (Z.to_nat mx).
  destruct (SM_patients_Ok (Z.to_nat mx) ids code (unique ids)
              (replicate (Z.to_nat mx) (replicate (Z.to_nat mx) 0)) [0])
    as (m' & Hloop & Hsq & Hcell & Hsum).
  { apply square_zeros. }
  { apply Forall_forall. intros c Hc. split.
    - by eapply (proj1 (Forall_forall _ _) Hpos).
    - specialize (Hle c Hc). lia. }
  exists m'. split_and!.
  - rewrite Hmax. f_equal. lia.
  - unfold SM_loop. rewrite Hcode. simpl getattr. rewrite bind_Ok, Hmax, bind_Ok.
    unfold np_zeros.
    rewrite (proj2 (Z.ltb_ge mx 0)) by lia. simpl orb. cbv iota.
    rewrite bind_Ok. exact Hloop.
  - done.
  - intros r c. by rewrite Hcell, cell_zeros.
  - by rewrite Hsum, matrix_sum_zeros.
Qed.

(** C1.  The transition matrix is built whenever the run has events, and
    then each entity with k >= 2 events adds exactly one to the cell of
    every consecutive pair of its events (event j to event j + 1, for j from
    0 to k - 2) and nothing else is added: a cell holds the number of such
    pairs over all entities, and the sum of the matrix is the sum of
    (eventCount - 1) over the entities with at least two events, the others
    contributing 0. *)
Theorem output_SM_file_counts_consecutive_events
  (DATA_SG : DataFrame) (code : list Z) :
  wardTeamCatCode DATA_SG = Some code →
  length (ClientID DATA_SG) = length code →
  code ≠ [] →
  Forall (λ c, 1 ≤ c) code →
  let ids := ClientID DATA_SG in
  ∃ servMove,
    output_SM_file DATA_SG = Ok servMove
    ∧ (∀ ID, length (patient_codes ids code ID) = event_count ids ID)
    ∧ (∀ ID j a b,
         transitions (patient_codes ids code ID) !! j = Some (a, b)
         ↔ patient_codes ids code ID !! j = Some a
           ∧ patient_codes ids code ID !! (j + 1)%nat = Some b)
    ∧ (∀ r c,
         cell servMove r c
         = Z.of_nat (sum_list ((λ ID,
             uses (transitions (patient_codes ids code ID)) r c)
                               <$> unique ids)))
    ∧ matrix_sum servMove
      = Z.of_nat (sum_list ((λ ID,
          let k := event_count ids ID in
          if (2 <=? k)%nat then (k - 1)%nat else 0%nat) <$> unique ids)).
Proof.
  intros Hcode Hlen Hne Hpos ids.
  destruct (SM_loop_Ok DATA_SG code Hcode Hne Hpos)
    as (n & servMove & _ & Hloop & _ & Hcell & Hsum).
  exists servMove. split_and!.
  - unfold output_SM_file. by rewrite Hloop.
  - intros ID. by apply length_patient_codes.
  - intros ID j a b. apply lookup_transitions.
  - done.
  - rewrite Hsum. do 2 f_equal. apply list_fmap_ext. intros _ ID _.
    fold ids. rewrite (length_patient_codes ids code ID Hlen). cbv zeta.
    destruct (2 <=? event_count ids ID)%nat eqn:Hk; [done|].
    apply Nat.leb_gt in Hk. lia.
Qed.

Lemma transitions_short (c : list Z) :
  (length c ≤ 1)%nat → transitions c = [].
Proof. destruct c as [|? [|? ?]]; simpl; [done..|lia]. Qed.

(** C8.  An entity with exactly one event adds nothing to the matrix (so
    nothing that could become a row of the edge table), its id is appended
    to the singles record, and the record grows by exactly one row; at the
    end of the loop the record is its initial 0 followed by the ids of the
    single-event entities, which appear in no cell of the matrix. *)
Theorem singleton_patient_recorded_without_transition
  (DATA_SG : DataFrame) (code : list Z) :
  wardTeamCatCode DATA_SG = Some code →
  length (ClientID DATA_SG) = length code →
  code ≠ [] →
  Forall (λ c, 1 ≤ c) code →
  let ids := ClientID DATA_SG in
  ∃ servMove singles,
    SM_loop DATA_SG = Ok (servMove, singles)
    ∧ singles = 0 :: filter (λ ID, event_count ids ID = 1%nat) (unique ids)
    ∧ ∀ ID, event_count ids ID = 1%nat →
        (∀ m s, SM_patient ids code (m, s) ID = Ok (m, s ++ [ID])
                ∧ length (s ++ [ID]) = S (length s))
        ∧ ID ∈ singles
        ∧ ∀ r c, uses (transitions (patient_codes ids code ID)) r c = 0%nat.
Proof.
  intros Hcode Hlen Hne Hpos ids.
  destruct (SM_loop_Ok DATA_SG code Hcode Hne Hpos)
    as (n & servMove & _ & Hloop & _ & _ & _).
  fold ids in Hloop.
  assert (filter (λ ID, (length (patient_codes ids code ID) ≤ 1)%nat)
            (unique ids)
          = filter (λ ID, event_count ids ID = 1%nat) (unique ids)) as Hf.
  { apply filter_ext_elem_of. intros ID HID.
    apply (proj1 (elem_of_unique _ _)) in HID.
    rewrite (length_patient_codes ids code ID Hlen).
    pose proof (event_count_pos ids ID HID). lia. }
  rewrite Hf in Hloop.
  exists servMove, (0 :: filter (λ ID, event_count ids ID = 1%nat) (unique ids)).
  split_and!; [done..|]. intros ID Hone.
  pose proof (length_patient_codes ids code ID Hlen) as Hl.
  rewrite Hone in Hl. split_and!.
  - intros m s. rewrite SM_patient_eq. cbv zeta. rewrite Hl. simpl.
    split; [done|]. rewrite length_app. simpl. lia.
  - right. apply list_elem_of_filter. split; [done|].
    apply elem_of_unique.
    destruct (decide (ID ∈ ids)) as [|Hnot]; [done|].
    unfold event_count in Hone.
    assert (filter (λ x, x = ID) ids = []) as Hnil; [|by rewrite Hnil in Hone].
    clear -Hnot. induction ids as [|x l IH]; [done|].
    apply not_elem_of_cons in Hnot as [Hx Hl].
    rewrite filter_cons, decide_False by done. by apply IH.
  - intros r c. rewrite transitions_short by lia. done.
Qed.

(** C10.  For a run with events the matrix is square, its side is the
    largest code assigned, which is the number of distinct category labels
    (the codes are exactly 1..N), and every code of the data indexes a row
    and a column of the matrix. *)
Theorem servMove_side_is_number_of_labels
  (DATA_SG : DataFrame) (labels : list string) :
  newWardTeam DATA_SG = Some labels →
  labels ≠ [] →
  let n := length (unique labels) in
  ∃ DATA_SG' code servMove,
    categorise_columns DATA_SG = Ok DATA_SG'
    ∧ wardTeamCatCode DATA_SG' = Some code
    ∧ output_SM_file DATA_SG' = Ok servMove
    ∧ py_max code = Ok (Z.of_nat n)
    ∧ square n servMove
    ∧ (∀ k, k ∈ code ↔ 1 ≤ k ≤ Z.of_nat n)
    ∧ ∀ c c', c ∈ code → c' ∈ code →
        np_get servMove (c - 1) (c' - 1)
        = Ok (cell servMove (Z.to_nat (c - 1)) (Z.to_nat (c' - 1))).
Proof.
  intros Hlabels Hne n.
  pose proof (categorise_columns_Ok DATA_SG labels Hlabels) as Hcat.
  set (DATA_SG' := set_wardTeamCatCode (category_id labels <$> labels)
                     (set_wardTeamCat (astype_category labels) DATA_SG))
    in Hcat.
  set (code := category_id labels <$> labels).
  assert (∀ k, k ∈ code ↔ 1 ≤ k ≤ Z.of_nat n) as Hdense.
  { intros k. split.
    - intros (a & -> & Ha)%list_elem_of_fmap. by apply category_id_range.
    - intros (a & Ha & <-)%category_id_surj. by apply list_elem_of_fmap_2. }
  assert (code ≠ []) as Hcne.
  { unfold code. by destruct labels. }
  assert (Forall (λ c, 1 ≤ c) code) as Hpos.
  { apply Forall_forall. intros c Hc%Hdense. lia. }
  destruct (SM_loop_Ok DATA_SG' code eq_refl Hcne Hpos)
    as (n' & servMove & Hmax & Hloop & Hsq & _ & _).
  assert (n' = n) as ->.
  { destruct (py_max_Ok code Hcne) as (mx & Hmx & Hin & Hle).
    rewrite Hmx in Hmax. injection Hmax as ->.
    apply Hdense in Hin.
    assert (1 ≤ Z.of_nat n) as Hn.
    { destruct code as [|c ?] eqn:E; [done|].
      assert (c ∈ c :: l) as Hc%Hdense by apply list_elem_of_here. lia. }
    assert (Z.of_nat n ≤ Z.of_nat n') by (apply Hle, Hdense; lia).
    lia. }
  exists DATA_SG', code, servMove. split_and!; try done.
  - unfold output_SM_file. by rewrite Hloop.
  - intros c c' Hc%Hdense Hc'%Hdense.
    rewrite <- (np_get_Ok n servMove) by (done || lia).
    f_equal; lia.
Qed.

(** ** The edge list *)

Lemma for_each_emit {A B} (l : list A) (body : list B → A → result (list B))
  (f : A → list B) (acc : list B) :
  (∀ a x, x ∈ l → body a x = Ok (a ++ f x)) →
  for_each l body acc = Ok (acc ++ (l ≫= f)).
Proof.
  revert acc. induction l as [|x l IH]; intros acc Hbody.
  - simpl. by rewrite app_nil_r.
  - rewrite for_each_cons, Hbody, bind_Ok by apply list_elem_of_here.
    rewrite IH by (intros a y Hy; apply Hbody; by right).
    by rewrite bind_cons, app_assoc.
Qed.

Lemma list_bind_bind {A B C} (f : A → list B) (g : B → list C) (l : list A) :
  (l ≫= f) ≫= g = l ≫= (λ x, f x ≫= g).
Proof.
  induction l as [|x l IH]; [done|].
  by rewrite !bind_cons, bind_app, IH.
Qed.

Lemma bind_if_filter {A B} (h : A → Z) (g : A → B) (l : list A) :
  (l ≫= λ x, if 0 <? h x then [g x] else []) = g <$> filter (λ x, 0 < h x) l.
Proof.
  induction l as [|x l IH]; [done|].
  rewrite bind_cons, filter_cons, IH.
  destruct (Z.ltb_spec 0 (h x)).
  - by rewrite decide_True by done.
  - by rewrite decide_False by lia.
Qed.

(** A row of [edges] for the cell in column [p.1] and row [p.2]. *)
Lemma Edge_cell_Ok (n : nat) (m : matrix) (i j : nat)
  (edges : list (Z * Z * Z)) :
  square n m → (i < n)%nat → (j < n)%nat →
  Edge_cell m i edges j
  = Ok (edges ++ if 0 <? cell m j i
                 then [(Z.of_nat j + 1, Z.of_nat i + 1, cell m j i)]
                 else []).
Proof.
  intros Hsq Hi Hj. unfold Edge_cell.
  rewrite (np_get_Ok n) by done. rewrite bind_Ok.
  destruct (0 <? cell m j i); [done|]. by rewrite app_nil_r.
Qed.

Lemma Edge_loops_Ok (n : nat) (m : matrix) (acc : list (Z * Z * Z)) :
  square n m →
  for_each (seq 0 n) (λ edges i, for_each (seq 0 n) (Edge_cell m i) edges) acc
  = Ok (acc ++ ((λ p, (Z.of_nat p.2 + 1, Z.of_nat p.1 + 1, cell m p.2 p.1))
                  <$> edge_cells m)).
Proof.
  intros Hsq. pose proof Hsq as [Hlen _].
  unfold edge_cells, emission_order. rewrite Hlen.
  rewrite <- (bind_if_filter (λ p, cell m p.2 p.1)
                (λ p, (Z.of_nat p.2 + 1, Z.of_nat p.1 + 1, cell m p.2 p.1))).
  rewrite list_bind_bind.
  apply for_each_emit. intros edges i Hi%elem_of_seq.
  rewrite list_bind_bind.
  apply for_each_emit. intros edges' j Hj%elem_of_seq.
  rewrite bind_singleton. simpl.
  apply (Edge_cell_Ok n); (done || lia).
Qed.

Lemma Edge_table_imap_from (j : nat) (rs : list (Z * Z * Z)) :
  Edge_table ((λ e, e.1.1) <$> rs) ((λ e, e.1.2) <$> rs)
    (replicate (length rs) "Directed") (Z.of_nat <$> seq j (length rs))
    ((λ e, e.2) <$> rs)
  = imap (λ k r, Build_Edge r.1.1 r.1.2 "Directed" (Z.of_nat (j + k)) r.2) rs.
Proof.
  revert j. induction rs as [|[[s t] w] rs IH]; intros j; [done|].
  unfold Edge_table in *. simpl. f_equal.
  - do 2 f_equal. lia.
  - rewrite IH. apply imap_ext. intros k r _. simpl. do 2 f_equal. lia.
Qed.

Lemma Edge_table_imap (rs : list (Z * Z * Z)) :
  Edge_table ((λ e, e.1.1) <$> rs) ((λ e, e.1.2) <$> rs)
    (replicate (length rs) "Directed") (Z.of_nat <$> seq 0 (length rs))
    ((λ e, e.2) <$> rs)
  = imap (λ k r, Build_Edge r.1.1 r.1.2 "Directed" (Z.of_nat k) r.2) rs.
Proof. apply (Edge_table_imap_from 0). Qed.

(** The edge list in closed form: the positive cells in the order of the
    visit, numbered from 0. *)
Lemma output_Edge_file_Ok (n : nat) (m : matrix) :
  square n m →
  output_Edge_file m
  = Ok (imap (λ k p, Build_Edge (Z.of_nat p.2 + 1) (Z.of_nat p.1 + 1)
                       "Directed" (Z.of_nat k) (cell m p.2 p.1))
          (edge_cells m)).
Proof.
  intros Hsq. pose proof Hsq as [Hlen _]. unfold output_Edge_file.
  rewrite Hlen, (Edge_loops_Ok n m _ Hsq), bind_Ok. simpl drop.
  rewrite drop_0, Edge_table_imap. f_equal.
  apply list_eq. intros k.
  rewrite !list_lookup_imap, list_lookup_fmap.
  by destruct (edge_cells m !! k).
Qed.

Lemma elem_of_emission_order (n i j : nat) :
  (i, j) ∈ emission_order n ↔ (i < n ∧ j < n)%nat.
Proof.
  unfold emission_order. rewrite list_elem_of_bind. split.
  - intros (i' & (j' & Hp & Hj%elem_of_seq)%list_elem_of_bind & Hi%elem_of_seq).
    apply list_elem_of_singleton in Hp. simplify_eq. lia.
  - intros [Hi Hj]. exists i. split; [|apply elem_of_seq; lia].
    apply list_elem_of_bind. exists j. split; [|apply elem_of_seq; lia].
    by apply list_elem_of_singleton.
Qed.

Lemma StronglySorted_seq (j n : nat) : StronglySorted lt (seq j n).
Proof.
  revert j. induction n as [|n IH]; intros j; simpl; constructor; [done|].
  apply Forall_forall. intros k Hk%elem_of_seq. lia.
Qed.

Lemma StronglySorted_pairs (cs rs : list nat) :
  StronglySorted lt cs → StronglySorted lt rs →
  StronglySorted visit_before (i ← cs; j ← rs; [(i, j)]).
Proof.
  intros Hcs Hrs. induction Hcs as [|i cs Hcs IH Hall]; [constructor|].
  rewrite bind_cons. apply StronglySorted_app_2; [| |done].
  - intros [i1 j1] [i2 j2]
      (j & Hp%list_elem_of_singleton & Hj)%list_elem_of_bind
      (i' & (j' & Hq%list_elem_of_singleton & Hj')%list_elem_of_bind & Hi')
         %list_elem_of_bind.
    simplify_eq. left. simpl.
    by eapply (proj1 (Forall_forall _ _) Hall).
  - clear -Hrs. induction Hrs as [|j rs Hrs IH Hall]; [constructor|].
    rewrite bind_cons. constructor; [done|].
    apply Forall_forall.
    intros [i2 j2] (j' & Hq%list_elem_of_singleton & Hj')%list_elem_of_bind.
    simplify_eq. right. simpl. split; [done|].
    by eapply (proj1 (Forall_forall _ _) Hall).
Qed.

Lemma StronglySorted_filter {A} (R : relation A) (P : A → Prop)
  `{!∀ x, Decision (P x)} (l : list A) :
  StronglySorted R l → StronglySorted R (filter P l).
Proof.
  induction 1 as [|x l Hs IH Hall]; [constructor|].
  rewrite filter_cons. case_decide; [|done]. constructor; [done|].
  apply Forall_forall. intros y [_ Hy]%list_elem_of_filter.
  by eapply (proj1 (Forall_forall _ _) Hall).
Qed.

Lemma visit_before_irrefl p : ¬ visit_before p p.
Proof. unfold visit_before. lia. Qed.

Lemma StronglySorted_NoDup {A} (R : relation A) (l : list A) :
  (∀ x, ¬ R x x) → StronglySorted R l → NoDup l.
Proof.
  intros Hirr. induction 1 as [|x l Hs IH Hall]; constructor; [|done].
  intros Hx. eapply Hirr. by eapply (proj1 (Forall_forall _ _) Hall).
Qed.

Lemma edge_cells_sorted (m : matrix) :
  StronglySorted visit_before (edge_cells m).
Proof.
  apply StronglySorted_filter, StronglySorted_pairs; apply StronglySorted_seq.
Qed.

Lemma NoDup_edge_cells (m : matrix) : NoDup (edge_cells m).
Proof.
  eapply StronglySorted_NoDup;
    [apply visit_before_irrefl|apply edge_cells_sorted].
Qed.

Lemma elem_of_edge_cells (m : matrix) (i j : nat) :
  (i, j) ∈ edge_cells m
  ↔ (i < length m)%nat ∧ (j < length m)%nat ∧ 0 < cell m j i.
Proof.
  unfold edge_cells. rewrite list_elem_of_filter, elem_of_emission_order.
  simpl. tauto.
Qed.

(** *** Counting the positive cells *)

Lemma length_filter_bind {A B} (P : B → Prop) `{!∀ x, Decision (P x)}
  (f : A → list B) (l : list A) :
  length (filter P (l ≫= f))
  = sum_list ((λ x, length (filter P (f x))) <$> l).
Proof.
  induction l as [|x l IH]; [done|].
  by rewrite bind_cons, filter_app, length_app, fmap_cons, sum_list_cons, IH.
Qed.

Lemma sum_list_fmap_add {A} (f g : A → nat) (l : list A) :
  sum_list ((λ x, f x + g x)%nat <$> l)
  = (sum_list (f <$> l) + sum_list (g <$> l))%nat.
Proof.
  induction l as [|x l IH]; [done|].
  rewrite !fmap_cons, !sum_list_cons, IH. lia.
Qed.

Lemma sum_list_fmap_0 {A} (l : list A) :
  sum_list ((λ _, 0%nat) <$> l) = 0%nat.
Proof. induction l as [|x l IH]; [done|]. by rewrite fmap_cons, sum_list_cons, IH. Qed.

Lemma sum_list_swap {A B} (a : A → B → nat) (l : list A) (k : list B) :
  sum_list ((λ x, sum_list ((λ y, a x y) <$> k)) <$> l)
  = sum_list ((λ y, sum_list ((λ x, a x y) <$> l)) <$> k).
Proof.
  induction l as [|x l IH].
  - simpl. by rewrite sum_list_fmap_0.
  - rewrite fmap_cons, sum_list_cons, IH, <- sum_list_fmap_add. done.
Qed.

Lemma length_filter_seq {A} (Q : A → Prop) `{!∀ x, Decision (Q x)} (d : A)
  (l : list A) :
  length (filter Q l)
  = sum_list ((λ c, if decide (Q (default d (l !! c))) then 1%nat else 0%nat)
                <$> seq 0 (length l)).
Proof.
  induction l as [|x l IH]; [done|].
  rewrite filter_cons. simpl length. rewrite <- cons_seq, <- fmap_S_seq.
  rewrite fmap_cons, sum_list_cons, <- list_fmap_compose. simpl.
  unfold compose. simpl. rewrite <- IH.
  by destruct (decide (Q x)).
Qed.

Lemma fmap_seq_lookup {A B} (f : A → B) (d : A) (l : list A) :
  f <$> l = (λ i, f (default d (l !! i))) <$> seq 0 (length l).
Proof.
  apply list_eq. intros i. rewrite !list_lookup_fmap.
  destruct (l !! i) as [x|] eqn:Hi; simpl.
  - rewrite lookup_seq_lt by by eapply lookup_lt_Some.
    simpl. by rewrite Hi.
  - rewrite lookup_seq_ge; [done|]. by apply lookup_ge_None.
Qed.

Lemma length_edge_cells (n : nat) (m : matrix) :
  square n m → length (edge_cells m) = count_positive m.
Proof.
  intros Hsq. pose proof Hsq as [Hlen Hrows].
  unfold edge_cells, emission_order, count_positive. rewrite Hlen.
  rewrite length_filter_bind.
  rewrite (list_fmap_ext _
             (λ i, sum_list ((λ j, if decide (0 < cell m j i)
                                   then 1%nat else 0%nat) <$> seq 0 n))).
  2:{ intros _ i _. rewrite length_filter_bind.
      apply (f_equal sum_list), list_fmap_ext. intros _ j _.
      rewrite filter_cons. simpl. by destruct (decide (0 < cell m j i)). }
  rewrite (sum_list_swap
             (λ i j, if decide (0 < cell m j i) then 1%nat else 0%nat)).
  rewrite (fmap_seq_lookup _ [] m), Hlen.
  apply (f_equal sum_list), list_fmap_ext.
  intros k r [Hk Hr]%lookup_seq. simpl in Hk. subst k.
  destruct (square_lookup n m r Hsq Hr) as (row & Hrow & Hl).
  rewrite Hrow. simpl. rewrite (length_filter_seq _ 0 row), Hl.
  apply (f_equal sum_list), list_fmap_ext. intros _ c _.
  unfold cell. rewrite Hrow. done.
Qed.

Lemma lookup_edges (m : matrix) (k : nat) (e : Edge) :
  imap (λ k p, Build_Edge (Z.of_nat p.2 + 1) (Z.of_nat p.1 + 1)
                 "Directed" (Z.of_nat k) (cell m p.2 p.1))
    (edge_cells m) !! k = Some e
  ↔ ∃ i j, edge_cells m !! k = Some (i, j)
           ∧ e = Build_Edge (Z.of_nat j + 1) (Z.of_nat i + 1) "Directed"
                   (Z.of_nat k) (cell m j i).
Proof.
  rewrite list_lookup_imap, fmap_Some. split.
  - intros ([i j] & Hk & ->). eauto.
  - intros (i & j & Hk & ->). by exists (i, j).
Qed.

(** C2.  For an N x N matrix the edge rows are exactly the cells above 0:
    there are as many rows as such cells, every row has 1-based source and
    target inside the matrix and as weight the cell [source-1][target-1],
    every positive cell has its row, no cell has two, and a positive cell
    on the diagonal (a self-loop) has its row like any other.  In a matrix
    of counts (no negative cell) the positive cells are the nonzero ones. *)
Theorem output_Edge_file_edges_are_positive_cells
  (n : nat) (servMove : matrix) :
  square n servMove →
  ∃ edges,
    output_Edge_file servMove = Ok edges
    ∧ length edges = count_positive servMove
    ∧ (∀ e, e ∈ edges →
         1 ≤ Source e ≤ Z.of_nat n ∧ 1 ≤ Target e ≤ Z.of_nat n
         ∧ Weight e
           = cell servMove (Z.to_nat (Source e - 1)) (Z.to_nat (Target e - 1))
         ∧ 0 < Weight e)
    ∧ (∀ s t, (s < n)%nat → (t < n)%nat → 0 < cell servMove s t →
         ∃ e, e ∈ edges ∧ Source e = Z.of_nat s + 1
              ∧ Target e = Z.of_nat t + 1 ∧ Weight e = cell servMove s t)
    ∧ NoDup ((λ e, (Source e, Target e)) <$> edges)
    ∧ (∀ s, (s < n)%nat → 0 < cell servMove s s →
         ∃ e, e ∈ edges ∧ Source e = Z.of_nat s + 1
              ∧ Target e = Z.of_nat s + 1)
    ∧ (Forall (Forall (λ v, 0 ≤ v)) servMove →
       ∀ s t, (s < n)%nat → (t < n)%nat → cell servMove s t ≠ 0 →
         ∃ e, e ∈ edges ∧ Source e = Z.of_nat s + 1
              ∧ Target e = Z.of_nat t + 1 ∧ Weight e = cell servMove s t).
Proof.
  intros Hsq. pose proof Hsq as [Hlen _].
  eexists. split; [by apply (output_Edge_file_Ok n)|].
  assert (∀ s t, (s < n)%nat → (t < n)%nat → 0 < cell servMove s t →
    ∃ e, e ∈ imap (λ k p, Build_Edge (Z.of_nat p.2 + 1) (Z.of_nat p.1 + 1)
                            "Directed" (Z.of_nat k) (cell servMove p.2 p.1))
               (edge_cells servMove)
         ∧ Source e = Z.of_nat s + 1 ∧ Target e = Z.of_nat t + 1
         ∧ Weight e = cell servMove s t) as Hall.
  { intros s t Hs Ht Hpos.
    assert ((t, s) ∈ edge_cells servMove) as (k & Hk)%list_elem_of_lookup
      by (apply elem_of_edge_cells; rewrite Hlen; done).
    exists (Build_Edge (Z.of_nat s + 1) (Z.of_nat t + 1) "Directed"
              (Z.of_nat k) (cell servMove s t)).
    split; [|done].
    apply list_elem_of_lookup. exists k. apply lookup_edges. eauto. }
  split_and!.
  - rewrite length_imap. by apply (length_edge_cells n).
  - intros e (k & Hk)%list_elem_of_lookup.
    apply lookup_edges in Hk as (i & j & Hk & ->). simpl.
    assert ((i, j) ∈ edge_cells servMove) as Hin
      by (apply list_elem_of_lookup; eauto).
    apply elem_of_edge_cells in Hin as (Hi & Hj & Hpos).
    rewrite Hlen in Hi, Hj.
    replace (Z.to_nat (Z.of_nat j + 1 - 1)) with j by lia.
    replace (Z.to_nat (Z.of_nat i + 1 - 1)) with i by lia.
    split_and!; (done || lia).
  - done.
  - assert ((λ e, (Source e, Target e))
              <$> imap (λ k p, Build_Edge (Z.of_nat p.2 + 1) (Z.of_nat p.1 + 1)
                                 "Directed" (Z.of_nat k) (cell servMove p.2 p.1))
                    (edge_cells servMove)
            = (λ p, (Z.of_nat p.2 + 1, Z.of_nat p.1 + 1))
                <$> edge_cells servMove) as ->.
    { apply list_eq. intros k.
      rewrite !list_lookup_fmap, list_lookup_imap.
      by destruct (edge_cells servMove !! k). }
    apply NoDup_fmap_2_strong; [|apply NoDup_edge_cells].
    intros [i j] [i' j'] _ _ Heq. simplify_eq/=. f_equal; lia.
  - intros s Hs Hpos. destruct (Hall s s Hs Hs Hpos) as (e & ? & ? & ? & _).
    eauto.
  - intros Hnonneg s t Hs Ht Hnz. apply Hall; [done..|].
    pose proof (cell_nonneg servMove s t Hnonneg). lia.
Qed.

(** C3.  Edge ids start at 0 and go up by one in the order of emission:
    the i-th row has Id i and is the i-th positive cell met when the target
    (column) runs ascending in the outer loop and the source (row) ascending
    in the inner loop, so a later row has a larger target, or the same
    target and a larger source. *)
Theorem output_Edge_file_ids_follow_emission_order
  (n : nat) (servMove : matrix) :
  square n servMove →
  ∃ edges,
    output_Edge_file servMove = Ok edges
    ∧ (∀ k e, edges !! k = Some e → Id e = Z.of_nat k)
    ∧ (∀ k e,
         edges !! k = Some e
         ↔ ∃ i j, edge_cells servMove !! k = Some (i, j)
                  ∧ e = Build_Edge (Z.of_nat j + 1) (Z.of_nat i + 1)
                          "Directed" (Z.of_nat k) (cell servMove j i))
    ∧ (∀ k k' e e',
         edges !! k = Some e → edges !! k' = Some e' → (k < k')%nat →
         Target e < Target e'
         ∨ (Target e = Target e' ∧ Source e < Source e')).
Proof.
  intros Hsq.
  eexists. split; [by apply (output_Edge_file_Ok n)|]. split_and!.
  - intros k e (i & j & _ & ->)%lookup_edges. done.
  - intros k e. apply lookup_edges.
  - intros k k' e e' (i & j & Hk & ->)%lookup_edges
      (i' & j' & Hk' & ->)%lookup_edges Hlt. simpl.
    pose proof (StronglySorted_lookup_lt visit_before _ k k' _ _
                  (edge_cells_sorted servMove) Hk Hk' Hlt) as Hvb.
    unfold visit_before in Hvb. simpl in Hvb. lia.
Qed.

(** C4.  The encoder numbers the labels by their rank in the sorted list of
    distinct labels: the ids of the labels of the column are a bijection
    onto 1..N, an id is smaller exactly when the label is smaller in the
    lexicographic order, and a column with the same rows in another order
    gives every label the same id. *)
Theorem categorise_columns_order_isomorphism
  (DATA_SG : DataFrame) (labels : list string) :
  newWardTeam DATA_SG = Some labels →
  let n := length (unique labels) in
  ∃ DATA_SG' cat,
    categorise_columns DATA_SG = Ok DATA_SG'
    ∧ wardTeamCat DATA_SG' = Some cat
    ∧ wardTeamCatCode DATA_SG' = Some (category_id labels <$> labels)
    ∧ StronglySorted str_lt (categories cat)
    ∧ length (categories cat) = n
    ∧ (∀ a, a ∈ categories cat ↔ a ∈ labels)
    ∧ (∀ a k, categories cat !! k = Some a →
              category_id labels a = Z.of_nat k + 1)
    ∧ (∀ a, a ∈ labels → 1 ≤ category_id labels a ≤ Z.of_nat n)
    ∧ (∀ k, 1 ≤ k ≤ Z.of_nat n → ∃ a, a ∈ labels ∧ category_id labels a = k)
    ∧ (∀ a b, a ∈ labels → b ∈ labels →
              category_id labels a = category_id labels b → a = b)
    ∧ (∀ a b, a ∈ labels → b ∈ labels →
              category_id labels a < category_id labels b ↔ str_lt a b)
    ∧ (∀ labels', labels' ≡ₚ labels →
              ∀ a, category_id labels' a = category_id labels a).
Proof.
  intros Hlabels n.
  exists (set_wardTeamCatCode (category_id labels <$> labels)
            (set_wardTeamCat (astype_category labels) DATA_SG)),
    (astype_category labels).
  split_and!; try done.
  - by apply categorise_columns_Ok.
  - apply categories_sorted.
  - apply length_categories.
  - apply elem_of_categories.
  - intros a k Hk. by apply category_id_of_lookup.
  - apply category_id_range.
  - apply category_id_surj.
  - apply category_id_inj.
  - apply category_id_lt.
  - intros labels' Hperm a. unfold category_id.
    rewrite (categories_set labels labels'); [done|].
    intros b. by rewrite Hperm.
Qed.

(** ** The node list *)

Lemma cat_values_astype (labels : list string) :
  cat_values (astype_category labels) = labels.
Proof.
  unfold cat_values. simpl. rewrite <- list_fmap_compose.
  transitivity (id <$> labels); [|apply list_fmap_id].
  apply list_fmap_ext. intros i a Hi. simpl.
  assert (a ∈ labels) as Ha by (apply list_elem_of_lookup; eauto).
  apply elem_of_categories in Ha.
  destruct (get_indexer_elem_of _ a (NoDup_categories labels) Ha)
    as (k & Hk & Hidx).
  simpl in Hidx. rewrite Hidx, Nat2Z.id. simpl in Hk. by rewrite Hk.
Qed.

Lemma length_groupby_agg {B} (key col : list Z) (agg : list Z → B) :
  length (groupby_agg key col agg) = length (unique key).
Proof.
  unfold groupby_agg. by rewrite length_fmap, merge_sort_Permutation.
Qed.

(** Counting: a duplicate-free list that covers another one through a map
    with a collision is strictly longer. *)
Lemma length_lt_of_collision {A B} (f : A → B) (l : list A) (k : list B)
  (x y : A) :
  NoDup l → NoDup k → (∀ b, b ∈ k → b ∈ f <$> l) →
  x ∈ l → y ∈ l → x ≠ y → f x = f y →
  (length k < length l)%nat.
Proof.
  intros Hl Hk Hcover Hx Hy Hne Hfxy.
  apply elem_of_Permutation in Hx as [l' Hperm].
  rewrite Hperm in Hy. rewrite Hperm. setoid_rewrite Hperm in Hcover.
  apply elem_of_cons in Hy as [->|Hy]; [done|].
  assert (k ⊆+ f <$> l') as Hsub.
  { apply NoDup_submseteq; [done|]. intros b Hb.
    specialize (Hcover b Hb). rewrite fmap_cons in Hcover.
    apply elem_of_cons in Hcover as [->|?]; [|done].
    rewrite Hfxy. by apply list_elem_of_fmap_2. }
  apply submseteq_length in Hsub. rewrite length_fmap in Hsub.
  simpl. lia.
Qed.

(** The rows of [df] before [drop_duplicates], for a categorised frame. *)
Lemma lookup_node_rows (labels : list string) (code : list Z)
  (settings : list string) i a c s :
  labels !! i = Some a → code !! i = Some c → settings !! i = Some s →
  (a, c, s) ∈ zip (zip labels code) settings.
Proof.
  intros Ha Hc Hs. apply list_elem_of_lookup. exists i.
  apply lookup_zip_with_Some. exists (a, c), s. split_and!; [done| |done].
  apply lookup_zip_with_Some. eauto.
Qed.

(** C7 (as amended).  When some label of the events that reach the node
    stage has two different settings, the stage produces no node table: the
    frame of distinct (label, code, setting) rows is longer than the columns
    of means and medians, and stacking them raises numpy's [ValueError] for
    arrays of different lengths.  The error is not an assertion and its
    message is the same whatever the label. *)
Theorem output_Node_file_ambiguous_setting_raises
  (DATA_SG DATA_SG' : DataFrame)
  (labels settings : list string) (i j : nat) (a s1 s2 : string) :
  newWardTeam DATA_SG = Some labels →
  newSetting DATA_SG = Some settings →
  length settings = length labels →
  categorise_columns DATA_SG = Ok DATA_SG' →
  labels !! i = Some a → labels !! j = Some a →
  settings !! i = Some s1 → settings !! j = Some s2 → s1 ≠ s2 →
  output_Node_file DATA_SG'
  = Raise (ValueError "all the input array dimensions except for the concatenation axis must match exactly").
Proof.
  intros Hlabels Hsettings Hlen Hcat Hi Hj Hsi Hsj Hne.
  rewrite (categorise_columns_Ok DATA_SG labels Hlabels) in Hcat.
  injection Hcat as <-.
  unfold output_Node_file. simpl. rewrite Hsettings. simpl.
  rewrite cat_values_astype.
  set (code := category_id labels <$> labels).
  set (df := zip (zip labels code) settings).
  rewrite !length_fmap, !length_groupby_agg, !merge_sort_Permutation.
  assert ((length (unique code) < length (unique df))%nat) as Hlt.
  2:{ rewrite Nat.eqb_refl.
      by rewrite (proj2 (Nat.eqb_neq (length (unique df))
                           (length (unique code)))) by lia. }
  apply (length_lt_of_collision (λ r, r.1.2) _ _
           (a, category_id labels a, s1) (a, category_id labels a, s2)).
  - apply NoDup_unique.
  - apply NoDup_unique.
  - intros c Hc. apply (proj1 (elem_of_unique _ _)) in Hc.
    apply list_elem_of_lookup in Hc as [k Hk].
    destruct (lookup_lt_is_Some_2 labels k) as [b Hb].
    { apply lookup_lt_Some in Hk. unfold code in Hk.
      by rewrite length_fmap in Hk. }
    destruct (lookup_lt_is_Some_2 settings k) as [s Hs].
    { apply lookup_lt_Some in Hb. lia. }
    apply list_elem_of_fmap. exists (b, c, s). split; [reflexivity|].
    apply elem_of_unique. by eapply lookup_node_rows.
  - apply elem_of_unique. apply (lookup_node_rows _ _ _ i); [done| |done].
    unfold code. by rewrite list_lookup_fmap, Hi.
  - apply elem_of_unique. apply (lookup_node_rows _ _ _ j); [done| |done].
    unfold code. by rewrite list_lookup_fmap, Hj.
  - congruence.
  - done.
Qed.

(** ** The subgroup recoder *)

Lemma length_mask_assign {A} (mask : list bool) (x : A) (arr : list A) :
  length (mask_assign mask x arr) = length arr.
Proof.
  revert mask. induction arr as [|a arr IH]; intros [|b mask]; simpl; eauto.
Qed.

Lemma mask_assign_zip_with {A B} `{EqDecision B} (col : list B) (u : B)
  (x : A) (arr : list A) :
  length arr = length col →
  mask_assign (eq_mask col u) x arr
  = zip_with (λ a v, if decide (v = u) then x else a) arr col.
Proof.
  revert col. induction arr as [|a arr IH]; intros [|v col] Hlen;
    simplify_eq/=; [done|].
  rewrite IH by done. f_equal.
  case_bool_decide; [by rewrite decide_True|by rewrite decide_False].
Qed.

Lemma zip_with_zip_with_same {A B} (h k : A → B → A) (arr : list A)
  (col : list B) :
  zip_with h (zip_with k arr col) col = zip_with (λ a v, h (k a v) v) arr col.
Proof.
  revert col. induction arr as [|a arr IH]; intros [|v col]; simpl; [done..|].
  by rewrite IH.
Qed.

Lemma zip_with_ext_elem {A B C} (f g : A → B → C) (arr : list A)
  (col : list B) :
  (∀ a v, v ∈ col → f a v = g a v) →
  zip_with f arr col = zip_with g arr col.
Proof.
  revert col. induction arr as [|a arr IH]; intros [|v col] Hext; simpl;
    [done..|].
  rewrite Hext by apply list_elem_of_here.
  rewrite IH; [done|]. intros a' v' Hv'. apply Hext. by right.
Qed.

Lemma zip_with_fst_id {A B} (arr : list A) (col : list B) :
  length arr = length col → zip_with (λ a _, a) arr col = arr.
Proof.
  revert col. induction arr as [|a arr IH]; intros [|v col] Hlen;
    simplify_eq/=; [done|].
  by rewrite IH.
Qed.

(** The loop on one column: after the values [us] have been visited, the
    rows of a visited value other than [G] hold [x_of] of their value. *)
Lemma column_loop (G : string) (x_of : string → string)
  (col us arr : list string) :
  length arr = length col →
  foldl (λ arr u, if bool_decide (G ≠ u)
                  then mask_assign (eq_mask col u) (x_of u) arr else arr)
    arr us
  = zip_with (λ a v, if decide (v ∈ us ∧ v ≠ G) then x_of v else a) arr col.
Proof.
  revert arr. induction us as [|u us IH]; intros arr Hlen; cbn [foldl].
  - rewrite <- (zip_with_fst_id arr col Hlen) at 1.
    apply zip_with_ext_elem. intros a v _. cbv beta.
    case_decide as H; [|done]. by destruct H as [?%elem_of_nil _].
  - rewrite IH by (case_bool_decide; by rewrite ?length_mask_assign).
    case_bool_decide as HGu.
    + rewrite mask_assign_zip_with, zip_with_zip_with_same by done.
      apply zip_with_ext_elem. intros a v _. cbv beta.
      repeat case_decide; subst; try done;
        rewrite elem_of_cons in *; intuition congruence.
    + subst u.
      apply zip_with_ext_elem. intros a v _. cbv beta.
      repeat case_decide; subst; try done;
        rewrite elem_of_cons in *; intuition congruence.
Qed.

Lemma recode_notgroup_fields (si : subgroup_dict) (G : string)
  (df : DataFrame) (u : string) :
  let df1 := recode_notgroup si G WardTeam_values Setting_values
               GroupCol_values df u in
  ClientID df1 = ClientID df ∧ GroupCol df1 = GroupCol df
  ∧ LoSdays df1 = LoSdays df ∧ wardTeamCat df1 = wardTeamCat df
  ∧ wardTeamCatCode df1 = wardTeamCatCode df
  ∧ WardTeam df1
    = (if bool_decide (G ≠ u)
       then mask_assign (eq_mask (GroupCol df) u)
              (SUBGROUP_NODE_NAME si +:+ u) (WardTeam df)
       else WardTeam df)
  ∧ Setting df1
    = (if bool_decide (G ≠ u)
       then mask_assign (eq_mask (GroupCol df) u) "Mixture" (Setting df)
       else Setting df)
  ∧ newWardTeam df1 = Some (WardTeam df1)
  ∧ newSetting df1 = Some (Setting df1).
Proof.
  destruct df. unfold recode_notgroup.
  case_bool_decide; simpl; split_and!; done.
Qed.

Lemma recode_loop (si : subgroup_dict) (G : string) (us : list string)
  (df : DataFrame) :
  let df' := foldl (recode_notgroup si G WardTeam_values Setting_values
                      GroupCol_values) df us in
  ClientID df' = ClientID df ∧ GroupCol df' = GroupCol df
  ∧ LoSdays df' = LoSdays df ∧ wardTeamCat df' = wardTeamCat df
  ∧ wardTeamCatCode df' = wardTeamCatCode df
  ∧ WardTeam df'
    = foldl (λ arr u, if bool_decide (G ≠ u)
                      then mask_assign (eq_mask (GroupCol df) u)
                             (SUBGROUP_NODE_NAME si +:+ u) arr
                      else arr) (WardTeam df) us
  ∧ Setting df'
    = foldl (λ arr u, if bool_decide (G ≠ u)
                      then mask_assign (eq_mask (GroupCol df) u) "Mixture" arr
                      else arr) (Setting df) us.
Proof.
  revert df. induction us as [|u us IH]; intros df; [done|].
  cbn [foldl].
  destruct (recode_notgroup_fields si G df u)
    as (H1 & H2 & H3 & H4 & H5 & H6 & H7 & _).
  destruct (IH (recode_notgroup si G WardTeam_values Setting_values
                  GroupCol_values df u))
    as (I1 & I2 & I3 & I4 & I5 & I6 & I7).
  rewrite I1, I2, I3, I4, I5, I6, I7, H1, H2, H3, H4, H5, H6, H7.
  done.
Qed.

Lemma recode_loop_new_columns (si : subgroup_dict) (G : string)
  (us : list string) (df : DataFrame) :
  us ≠ [] →
  let df' := foldl (recode_notgroup si G WardTeam_values Setting_values
                      GroupCol_values) df us in
  newWardTeam df' = Some (WardTeam df')
  ∧ newSetting df' = Some (Setting df').
Proof.
  destruct us as [|u us _] using rev_ind; [done|]. intros _.
  rewrite foldl_snoc.
  by destruct (recode_notgroup_fields si G
                 (foldl (recode_notgroup si G WardTeam_values Setting_values
                           GroupCol_values) df us) u)
    as (_ & _ & _ & _ & _ & _ & _ & ? & ?).
Qed.

Lemma DataFrame_eq (a b : DataFrame) :
  ClientID a = ClientID b → WardTeam a = WardTeam b →
  Setting a = Setting b → GroupCol a = GroupCol b →
  LoSdays a = LoSdays b → newWardTeam a = newWardTeam b →
  newSetting a = newSetting b → wardTeamCat a = wardTeamCat b →
  wardTeamCatCode a = wardTeamCatCode b → a = b.
Proof. destruct a, b. simpl. by intros -> -> -> -> -> -> -> -> ->. Qed.

(** The recoder in closed form, when excluded groups are represented. *)
Lemma recoder_closed_form (si : subgroup_dict) (G : string) (df : DataFrame) :
  REPRESENT_REMOVED si ≠ 0 →
  length (WardTeam df) = length (GroupCol df) →
  length (Setting df) = length (GroupCol df) →
  GroupCol df ≠ [] →
  let labels := zip_with (recoded_label (SUBGROUP_NODE_NAME si) G)
                  (WardTeam df) (GroupCol df) in
  let settings := zip_with (recoded_setting G) (Setting df) (GroupCol df) in
  create_new_ward_and_setting_columns si G df
  = {| ClientID := ClientID df; WardTeam := labels; Setting := settings;
       GroupCol := GroupCol df; LoSdays := LoSdays df;
       newWardTeam := Some labels; newSetting := Some settings;
       wardTeamCat := wardTeamCat df;
       wardTeamCatCode := wardTeamCatCode df |}.
Proof.
  intros HRR HlenW HlenS Hne labels settings.
  unfold create_new_ward_and_setting_columns.
  rewrite bool_decide_true by done. cbv zeta.
  assert (unique (GroupCol df) ≠ []) as Hune
    by (intros Hnil; by apply unique_nil_inv in Hnil).
  destruct (recode_loop si G (unique (GroupCol df)) df)
    as (I1 & I2 & I3 & I4 & I5 & I6 & I7).
  destruct (recode_loop_new_columns si G (unique (GroupCol df)) df Hune)
    as (N1 & N2).
  rewrite (column_loop G (λ u, SUBGROUP_NODE_NAME si +:+ u)) in I6 by done.
  rewrite (column_loop G (λ _, "Mixture")) in I7 by done.
  assert (zip_with (λ a v, if decide (v ∈ unique (GroupCol df) ∧ v ≠ G)
                           then SUBGROUP_NODE_NAME si +:+ v else a)
            (WardTeam df) (GroupCol df) = labels) as HW.
  { apply zip_with_ext_elem. intros a v Hv. unfold recoded_label.
    apply elem_of_unique in Hv. repeat case_decide; tauto. }
  assert (zip_with (λ a v, if decide (v ∈ unique (GroupCol df) ∧ v ≠ G)
                           then "Mixture" else a)
            (Setting df) (GroupCol df) = settings) as HS.
  { apply zip_with_ext_elem. intros a v Hv. unfold recoded_setting.
    apply elem_of_unique in Hv. repeat case_decide; tauto. }
  rewrite HW in I6. rewrite HS in I7.
  apply DataFrame_eq; simpl; congruence.
Qed.

Lemma length_mask_select_sync {A B} (mask : list bool) (l : list A)
  (k : list B) :
  length l = length k →
  length (mask_select mask l) = length (mask_select mask k).
Proof.
  revert l k. induction mask as [|b mask IH]; intros [|x l] [|y k] Hlen;
    simplify_eq/=; try done.
  destruct b; simpl; rewrite (IH l k); done.
Qed.

(** Rows selected by a mask, read in two columns at once. *)
Lemma lookup_mask_select_sync {A B} (mask : list bool) (l : list A)
  (k : list B) (a : A) (b : B) :
  (∃ i', mask_select mask l !! i' = Some a ∧ mask_select mask k !! i' = Some b)
  ↔ (∃ i, mask !! i = Some true ∧ l !! i = Some a ∧ k !! i = Some b).
Proof.
  revert l k. induction mask as [|c mask IH]; intros l k.
  { simpl. split; intros (i & H); [by destruct H|by destruct H]. }
  destruct l as [|x l].
  { simpl. split; intros (i & H); [by destruct H|by destruct H as (_ & ? & _)]. }
  destruct k as [|y k].
  { split; [|by intros (i & _ & _ & ?)].
    intros (i & _ & H). by destruct c. }
  destruct c; simpl.
  - split.
    + intros ([|i'] & Ha & Hb); simplify_eq/=.
      * by exists 0%nat.
      * destruct (proj1 (IH l k)) as (i & ? & ? & ?); [eauto|].
        by exists (S i).
    + intros ([|i] & Hm & Ha & Hb); simplify_eq/=.
      * by exists 0%nat.
      * destruct (proj2 (IH l k)) as (i' & ? & ?); [eauto|].
        by exists (S i').
  - rewrite IH. split.
    + intros (i & ? & ? & ?). by exists (S i).
    + intros ([|i] & Hm & Ha & Hb); simplify_eq/=. eauto.
Qed.

Lemma lookup_ne_mask (col : list string) (x : string) (i : nat) :
  ne_mask col x !! i = Some true ↔ ∃ v, col !! i = Some v ∧ v ≠ x.
Proof.
  unfold ne_mask. rewrite list_lookup_fmap, fmap_Some. split.
  - intros (v & Hv & Hb). exists v. split; [done|].
    symmetry in Hb. by apply bool_decide_eq_true in Hb.
  - intros (v & Hv & Hne). exists v. split; [done|].
    symmetry. by apply bool_decide_eq_true.
Qed.

(** C6.  With the excluded groups represented (REPRESENT_REMOVED nonzero)
    and focus value G, on the events left after the rows of the "None"
    sentinel are removed: an event of group G keeps its label and setting;
    an event of another group V gets the label prefix + V and the setting
    "Mixture"; different V give different labels; no event is dropped or
    moved; and the labels of the run are exactly the labels of the events
    of group G together with prefix + v for the group values v of the input
    other than G and the sentinel. *)
Theorem recoder_collapses_excluded_groups
  (subgroup_info : subgroup_dict) (data : DataFrame) (G : string) :
  REPRESENT_REMOVED subgroup_info ≠ 0 →
  length (WardTeam data) = length (GroupCol data) →
  length (Setting data) = length (GroupCol data) →
  G ∈ GroupCol data → G ≠ "None" →
  let prefix := SUBGROUP_NODE_NAME subgroup_info in
  let DATA := frame_select (ne_mask (GroupCol data) "None") data in
  let DATA_SG := create_new_ward_and_setting_columns subgroup_info G DATA in
  ∃ labels settings,
    newWardTeam DATA_SG = Some labels
    ∧ newSetting DATA_SG = Some settings
    ∧ length labels = length (GroupCol DATA)
    ∧ length settings = length (GroupCol DATA)
    ∧ ClientID DATA_SG = ClientID DATA
    ∧ GroupCol DATA_SG = GroupCol DATA
    ∧ LoSdays DATA_SG = LoSdays DATA
    ∧ (∀ i V w s,
         GroupCol DATA !! i = Some V → WardTeam DATA !! i = Some w →
         Setting DATA !! i = Some s →
         (V = G → labels !! i = Some w ∧ settings !! i = Some s)
         ∧ (V ≠ G → labels !! i = Some (prefix +:+ V)
                    ∧ settings !! i = Some "Mixture"))
    ∧ (∀ V1 V2, prefix +:+ V1 = prefix +:+ V2 → V1 = V2)
    ∧ (∀ x, x ∈ labels
            ↔ (∃ i, GroupCol data !! i = Some G ∧ WardTeam data !! i = Some x)
              ∨ (∃ v, v ∈ GroupCol data ∧ v ≠ G ∧ v ≠ "None"
                      ∧ x = prefix +:+ v)).
Proof.
  intros HRR HlenW HlenS HG HGnone prefix DATA DATA_SG.
  set (mask := ne_mask (GroupCol data) "None").
  assert (length (WardTeam DATA) = length (GroupCol DATA)) as HlenW'
    by by apply length_mask_select_sync.
  assert (length (Setting DATA) = length (GroupCol DATA)) as HlenS'
    by by apply length_mask_select_sync.
  assert (G ∈ GroupCol DATA) as HG'.
  { apply list_elem_of_lookup in HG as [i Hi].
    destruct (proj2 (lookup_mask_select_sync mask (GroupCol data)
                       (GroupCol data) G G)) as (i' & Hi' & _).
    - exists i. split_and!; [|done..]. apply lookup_ne_mask. eauto.
    - apply list_elem_of_lookup. eauto. }
  assert (GroupCol DATA ≠ []) as Hne.
  { intros Hnil. rewrite Hnil in HG'. by apply elem_of_nil in HG'. }
  unfold DATA_SG.
  rewrite (recoder_closed_form subgroup_info G DATA HRR HlenW' HlenS' Hne).
  eexists _, _. simpl. split_and!; try done.
  - by rewrite length_zip_with_l_eq.
  - by rewrite length_zip_with_l_eq.
  - intros i V w s HV Hw Hs. unfold recoded_label, recoded_setting.
    rewrite !lookup_zip_with_Some. split; intros HVG.
    + split; [exists w, V|exists s, V]; by rewrite decide_True.
    + split; [exists w, V|exists s, V]; by rewrite decide_False.
  - intros V1 V2. apply (inj (String.app prefix)).
  - intros x. rewrite elem_of_lookup_zip_with. split.
    + intros (i' & w & v & -> & Hw & Hv).
      destruct (proj1 (lookup_mask_select_sync mask (WardTeam data)
                         (GroupCol data) w v)) as (i & Hm & Hwi & Hvi);
        [eauto|].
      apply lookup_ne_mask in Hm as (v' & Hv' & Hnone).
      simplify_eq. unfold recoded_label. case_decide as Hd.
      * subst v'. left. eauto.
      * right. exists v'. split_and!; [|done..].
        apply list_elem_of_lookup. eauto.
    + intros [(i & Hv & Hw)|(v & (i & Hv)%list_elem_of_lookup & HvG & Hnone
                               & ->)].
      * destruct (proj2 (lookup_mask_select_sync mask (WardTeam data)
                           (GroupCol data) x G)) as (i' & Hw' & Hv').
        { exists i. split_and!; [|done..]. apply lookup_ne_mask. eauto. }
        exists i', x, G. unfold recoded_label.
        by rewrite decide_True.
      * destruct (lookup_lt_is_Some_2 (WardTeam data) i) as [w Hw].
        { apply lookup_lt_Some in Hv. lia. }
        destruct (proj2 (lookup_mask_select_sync mask (WardTeam data)
                           (GroupCol data) w v)) as (i' & Hw' & Hv').
        { exists i. split_and!; [|done..]. apply lookup_ne_mask. eauto. }
        exists i', w, v. unfold recoded_label.
        by rewrite decide_False.
Qed.

(** ** Frames in the store *)

Lemma M_bind_Ok_inv {A B} (m : M A) (f : A → M B) (σ σ' : store) (b : B) :
  (m ≫= f) σ = Ok (b, σ') →
  ∃ a σ1, m σ = Ok (a, σ1) ∧ f a σ1 = Ok (b, σ').
Proof.
  unfold mbind, M_bind. destruct (m σ) as [[a σ1]|e]; [eauto|done].
Qed.

Lemma M_bind_Ok {A B} (m : M A) (f : A → M B) (σ σ1 : store) (a : A) :
  m σ = Ok (a, σ1) → (m ≫= f) σ = f a σ1.
Proof. unfold mbind, M_bind. by intros ->. Qed.

Lemma deref_Ok (r : nat) (σ : store) (df : DataFrame) :
  σ !! r = Some df → deref r σ = Ok (df, σ).
Proof. unfold deref. by intros ->. Qed.

Lemma deref_Ok_inv (r : nat) (σ σ' : store) (df : DataFrame) :
  deref r σ = Ok (df, σ') → σ' = σ ∧ σ !! r = Some df.
Proof. unfold deref. destruct (σ !! r); naive_solver. Qed.

Lemma lift_Ok_inv {A} (x : result A) (σ σ' : store) (a : A) :
  lift x σ = Ok (a, σ') → σ' = σ ∧ x = Ok a.
Proof. unfold lift. destruct x; naive_solver. Qed.

Lemma in_place_Ok (r : nat) (f : DataFrame → result DataFrame) (σ : store)
  (df df' : DataFrame) :
  σ !! r = Some df → f df = Ok df' →
  in_place r f σ = Ok ((), <[r := df']> σ).
Proof.
  intros Hr Hf. unfold in_place.
  rewrite (M_bind_Ok _ _ σ σ df) by by apply deref_Ok.
  rewrite (M_bind_Ok _ _ σ σ df') by by rewrite Hf.
  done.
Qed.

Lemma in_place_Ok_inv (r : nat) (f : DataFrame → result DataFrame)
  (σ σ' : store) (u : ()) :
  in_place r f σ = Ok (u, σ') →
  ∃ df df', σ !! r = Some df ∧ f df = Ok df' ∧ σ' = <[r := df']> σ.
Proof.
  unfold in_place.
  intros (df & σ1 & [-> Hr]%deref_Ok_inv
          & (df' & σ2 & [-> Hf]%lift_Ok_inv & Hassign)%M_bind_Ok_inv)
         %M_bind_Ok_inv.
  unfold assign in Hassign. exists df, df'. naive_solver.
Qed.

Lemma copy_deep_Ok (r : nat) (σ : store) (df : DataFrame) :
  σ !! r = Some df → copy_deep r σ = Ok (length σ, σ ++ [df]).
Proof.
  intros Hr. unfold copy_deep.
  by rewrite (M_bind_Ok _ _ σ σ df) by by apply deref_Ok.
Qed.

(** [update_dictionary] changes the frame of [DATA_SG] and no other. *)
Lemma update_dictionary_Ok (si : subgroup_dict) (foi : file_output_dict)
  (group filename : string) (σ : store) (r : nat) (df df' : DataFrame) :
  DATA_SG foi = Some r → σ !! r = Some df →
  categorise_columns (create_new_ward_and_setting_columns si group df)
  = Ok df' →
  update_dictionary si foi group filename σ
  = Ok ({| DATA_SG := Some r;
           FILEMIDDLE := Some (SUBGROUP_FILENAME si +:+ filename) |},
        <[r := df']> σ).
Proof.
  intros Hfoi Hr Hcat. unfold update_dictionary. rewrite Hfoi.
  set (df1 := create_new_ward_and_setting_columns si group df) in *.
  rewrite (M_bind_Ok _ _ σ σ r) by done.
  rewrite (M_bind_Ok _ _ σ (<[r := df1]> σ) ())
    by by apply (in_place_Ok r _ σ df df1).
  rewrite (M_bind_Ok _ _ (<[r := df1]> σ) (<[r := df']> (<[r := df1]> σ)) ()).
  - by rewrite list_insert_insert_eq.
  - apply (in_place_Ok r _ _ df1 df'); [|done].
    apply list_lookup_insert_eq. by eapply lookup_lt_Some.
Qed.

Lemma update_dictionary_Ok_inv (si : subgroup_dict)
  (foi foi' : file_output_dict) (group filename : string) (σ σ' : store) :
  update_dictionary si foi group filename σ = Ok (foi', σ') →
  ∃ r, DATA_SG foi = Some r ∧ DATA_SG foi' = Some r
       ∧ length σ' = length σ
       ∧ ∀ r', r' ≠ r → σ' !! r' = σ !! r'.
Proof.
  unfold update_dictionary.
  intros (r & σ1 & [-> Hget]%lift_Ok_inv
          & (u1 & σ2 & (d1 & d1' & _ & _ & ->)%in_place_Ok_inv
             & (u2 & σ3 & (d2 & d2' & _ & _ & ->)%in_place_Ok_inv
                & Hret)%M_bind_Ok_inv)%M_bind_Ok_inv)%M_bind_Ok_inv.
  destruct (DATA_SG foi) as [r0|] eqn:Hfoi; simplify_eq/=.
  unfold mret, M_ret in Hret. simplify_eq. exists r. split_and!; [done..| |].
  - by rewrite !length_insert.
  - intros r' Hne. by rewrite !list_lookup_insert_ne.
Qed.

(** Earlier frames are kept: the store only grows and the frames that
    were there hold what they held. *)
Lemma subgroup_network_preserves (si : subgroup_dict)
  (st st' : file_output_dict * list file_set) (group : string)
  (σ σ' : store) :
  subgroup_network si st group σ = Ok (st', σ') →
  (length σ ≤ length σ')%nat ∧ ∀ r, (r < length σ)%nat → σ' !! r = σ !! r.
Proof.
  unfold subgroup_network. destruct st as [foi written].
  case_bool_decide as Hgroup.
  2:{ unfold mret, M_ret. intros; by simplify_eq. }
  intros (r0 & σ1 & Halloc
          & (foi1 & σ2 & (r1 & Hr1 & _ & Hlen & Hupd)%update_dictionary_Ok_inv
             & (r2 & σ3 & [-> _]%lift_Ok_inv
                & (df & σ4 & [-> _]%deref_Ok_inv
                   & (files & σ5 & [-> _]%lift_Ok_inv
                      & (middle & σ6 & [-> _]%lift_Ok_inv
                         & Hret)%M_bind_Ok_inv)%M_bind_Ok_inv)
                  %M_bind_Ok_inv)%M_bind_Ok_inv)%M_bind_Ok_inv)%M_bind_Ok_inv.
  unfold mret, M_ret in Hret. simplify_eq/=.
  assert (r1 = length σ ∧ ∃ d, σ1 = σ ++ [d]) as [-> [d ->]].
  { case_bool_decide.
    - apply M_bind_Ok_inv in Halloc
        as (d & σ0 & [-> _]%deref_Ok_inv & Halloc).
      unfold alloc in Halloc. simplify_eq. eauto.
    - unfold copy_deep in Halloc. apply M_bind_Ok_inv in Halloc
        as (d & σ0 & [-> _]%deref_Ok_inv & Halloc).
      unfold alloc in Halloc. simplify_eq. eauto. }
  split.
  - rewrite Hlen, length_app. lia.
  - intros r Hr. rewrite Hupd by lia. by rewrite lookup_app_l.
Qed.

Lemma for_each_M_preserves {A B} (l : list A) (body : B → A → M B)
  (acc acc' : B) (σ σ' : store) :
  (∀ a x a' σ1 σ2,
     body a x σ1 = Ok (a', σ2) →
     (length σ1 ≤ length σ2)%nat
     ∧ ∀ r, (r < length σ1)%nat → σ2 !! r = σ1 !! r) →
  for_each_M l body acc σ = Ok (acc', σ') →
  (length σ ≤ length σ')%nat ∧ ∀ r, (r < length σ)%nat → σ' !! r = σ !! r.
Proof.
  intros Hbody. revert acc σ.
  induction l as [|x l IH]; intros acc σ; simpl.
  - unfold mret, M_ret. intros; by simplify_eq.
  - intros (a1 & σ1 & [Hlen1 Hkeep1]%Hbody & [Hlen2 Hkeep2]%IH)%M_bind_Ok_inv.
    split; [lia|]. intros r Hr. rewrite Hkeep2 by lia. by apply Hkeep1.
Qed.

(** The driver never changes a frame it was given. *)
Lemma create_network_data_for_subgroup_preserves (si : subgroup_dict)
  (foi : file_output_dict) (files : list file_set) (σ σ' : store) :
  create_network_data_for_subgroup si foi σ = Ok (files, σ') →
  ∀ r, (r < length σ)%nat → σ' !! r = σ !! r.
Proof.
  unfold create_network_data_for_subgroup.
  intros (d & σ1 & [-> Hd]%deref_Ok_inv
          & (r0 & σ2 & Halloc
             & (d' & σ3 & [-> _]%deref_Ok_inv
                & (st & σ4 & [Hlen Hkeep]%for_each_M_preserves
                   & Hret)%M_bind_Ok_inv)%M_bind_Ok_inv)%M_bind_Ok_inv)
         %M_bind_Ok_inv.
  2:{ intros a x a' σa σb. apply subgroup_network_preserves. }
  unfold mret, M_ret in Hret. unfold alloc in Halloc. simplify_eq/=.
  intros r Hr. rewrite Hkeep by (rewrite length_app; lia).
  by rewrite lookup_app_l.
Qed.

Lemma zip_with_agree_on_focus {A} (f : A → string → A) (G : string)
  (W W2 : list A) (C : list string) :
  length W = length C → length W2 = length C →
  (∀ a b v, v ≠ G → f a v = f b v) →
  (∀ i, C !! i = Some G → W2 !! i = W !! i) →
  zip_with f W2 C = zip_with f W C.
Proof.
  intros HW HW2 Hf Hfocus. apply list_eq. intros i.
  rewrite !lookup_zip_with.
  destruct (C !! i) as [v|] eqn:Hv.
  - destruct (lookup_lt_is_Some_2 W i) as [a Ha];
      [apply lookup_lt_Some in Hv; lia|].
    destruct (lookup_lt_is_Some_2 W2 i) as [b Hb];
      [apply lookup_lt_Some in Hv; lia|].
    rewrite Ha, Hb. simpl. f_equal.
    destruct (decide (v = G)) as [->|Hne]; [|by apply Hf].
    specialize (Hfocus i Hv). congruence.
  - by destruct (W !! i), (W2 !! i).
Qed.

(** C9.  With the excluded groups represented, the recoder writes through
    the arrays of the run's own WardTeam and Setting columns: afterwards
    those columns hold the rewritten values (the new columns are equal to
    them), so two event sets that differ only in the labels and settings of
    excluded events leave the same frame and the old labels cannot be read
    back from it.  The caller's frame is kept only because the run is given
    a deep copy: through the copy the caller's frame is unchanged, and the
    driver changes no frame it was given, while the same update on the
    caller's own reference replaces its columns. *)
Theorem recoder_overwrites_run_columns
  (subgroup_info : subgroup_dict) (G filename : string) (σ : store)
  (data : DataFrame) :
  REPRESENT_REMOVED subgroup_info ≠ 0 →
  σ !! DATA subgroup_info = Some data →
  length (WardTeam data) = length (GroupCol data) →
  length (Setting data) = length (GroupCol data) →
  GroupCol data ≠ [] →
  let prefix := SUBGROUP_NODE_NAME subgroup_info in
  let run := create_new_ward_and_setting_columns subgroup_info G data in
  (newWardTeam run = Some (WardTeam run)
   ∧ newSetting run = Some (Setting run)
   ∧ ∀ i V, GroupCol data !! i = Some V → V ≠ G →
       WardTeam run !! i = Some (prefix +:+ V)
       ∧ Setting run !! i = Some "Mixture")
  ∧ (∀ data2,
       ClientID data2 = ClientID data → GroupCol data2 = GroupCol data →
       LoSdays data2 = LoSdays data → wardTeamCat data2 = wardTeamCat data →
       wardTeamCatCode data2 = wardTeamCatCode data →
       length (WardTeam data2) = length (GroupCol data) →
       length (Setting data2) = length (GroupCol data) →
       (∀ i, GroupCol data !! i = Some G →
             WardTeam data2 !! i = WardTeam data !! i
             ∧ Setting data2 !! i = Setting data !! i) →
       create_new_ward_and_setting_columns subgroup_info G data2 = run)
  ∧ (∃ run',
       categorise_columns run = Ok run'
       ∧ WardTeam run' = WardTeam run ∧ Setting run' = Setting run
       ∧ (r ← copy_deep (DATA subgroup_info);
          update_dictionary subgroup_info
            {| DATA_SG := Some r; FILEMIDDLE := None |} G filename) σ
         = Ok ({| DATA_SG := Some (length σ);
                  FILEMIDDLE :=
                    Some (SUBGROUP_FILENAME subgroup_info +:+ filename) |},
               σ ++ [run'])
       ∧ (σ ++ [run']) !! DATA subgroup_info = Some data
       ∧ update_dictionary subgroup_info
           {| DATA_SG := Some (DATA subgroup_info); FILEMIDDLE := None |}
           G filename σ
         = Ok ({| DATA_SG := Some (DATA subgroup_info);
                  FILEMIDDLE :=
                    Some (SUBGROUP_FILENAME subgroup_info +:+ filename) |},
               <[DATA subgroup_info := run']> σ)
       ∧ <[DATA subgroup_info := run']> σ !! DATA subgroup_info = Some run')
  ∧ (∀ file_output_info files σ',
       create_network_data_for_subgroup subgroup_info file_output_info σ
       = Ok (files, σ') →
       σ' !! DATA subgroup_info = Some data).
Proof.
  intros HRR Hσ HlenW HlenS Hne prefix run.
  pose proof (recoder_closed_form subgroup_info G data HRR HlenW HlenS Hne)
    as Hrun. cbv zeta in Hrun. fold run in Hrun.
  split_and!.
  - by rewrite Hrun.
  - by rewrite Hrun.
  - intros i V HV HVG. rewrite Hrun. simpl.
    destruct (lookup_lt_is_Some_2 (WardTeam data) i) as [w Hw];
      [apply lookup_lt_Some in HV; lia|].
    destruct (lookup_lt_is_Some_2 (Setting data) i) as [s Hs];
      [apply lookup_lt_Some in HV; lia|].
    rewrite !lookup_zip_with_Some. unfold recoded_label, recoded_setting.
    split; [exists w, V|exists s, V]; by rewrite decide_False.
  - intros data2 H1 H2 H3 H4 H5 HlenW2 HlenS2 Hfocus.
    rewrite <- H2 in HlenW2, HlenS2.
    rewrite recoder_closed_form by (done || by rewrite H2).
    rewrite Hrun, H1, H2, H3, H4, H5. cbv zeta.
    rewrite (zip_with_agree_on_focus (recoded_label prefix G) G
               (WardTeam data) (WardTeam data2));
      [|done|by rewrite <- H2| |by intros i [? _]%Hfocus].
    2:{ intros a b v Hv. unfold recoded_label. by rewrite !decide_False. }
    rewrite (zip_with_agree_on_focus (recoded_setting G) G
               (Setting data) (Setting data2));
      [done|done|by rewrite <- H2| |by intros i [_ ?]%Hfocus].
    intros a b v Hv. unfold recoded_setting. by rewrite !decide_False.
  - assert (newWardTeam run = Some (WardTeam run)) as Hnew by by rewrite Hrun.
    pose proof (categorise_columns_Ok run _ Hnew) as Hcat.
    eexists. split; [exact Hcat|]. split_and!; [done..| | | |].
    + rewrite (M_bind_Ok _ _ σ (σ ++ [data]) (length σ))
        by by apply copy_deep_Ok.
      erewrite (update_dictionary_Ok _ _ _ _ _ (length σ) data); [| done | |].
      * f_equal. f_equal.
        rewrite <- (Nat.add_0_r (length σ)) at 1.
        by rewrite insert_app_r.
      * by rewrite lookup_app_r, Nat.sub_diag.
      * exact Hcat.
    + rewrite lookup_app_l; [done|]. by eapply lookup_lt_Some.
    + by apply (update_dictionary_Ok _ _ _ _ _ _ data).
    + apply list_lookup_insert_eq. by eapply lookup_lt_Some.
  - intros foi files σ' Hdriver.
    rewrite (create_network_data_for_subgroup_preserves _ _ _ _ _ Hdriver);
      [done|]. by eapply lookup_lt_Some.
Qed.

(** ** The empty run *)

Lemma output_SM_file_empty (DATA_SG : DataFrame) :
  wardTeamCatCode DATA_SG = Some [] →
  output_SM_file DATA_SG = Raise (ValueError "max() arg is an empty sequence").
Proof. intros H. unfold output_SM_file, SM_loop. by rewrite H. Qed.

(** C5.  The code at the failing input: for a frame without rows the two
    preparation steps succeed, then [output_SM_file] raises the [ValueError]
    of [max] on an empty sequence, and so does the run; the edge extractor
    on an empty matrix and the node stage on the same frame do return empty
    tables. *)
Theorem empty_run_raises_ValueError :
  ∃ DATA_SG,
    categorise_columns
      (create_new_ward_and_setting_columns client_network "" empty_events)
    = Ok DATA_SG
    ∧ wardTeamCatCode DATA_SG = Some []
    ∧ output_SM_file DATA_SG
      = Raise (ValueError "max() arg is an empty sequence")
    ∧ create_output_files DATA_SG
      = Raise (ValueError "max() arg is an empty sequence")
    ∧ output_Edge_file [] = Ok []
    ∧ output_Node_file DATA_SG = Ok [].
Proof. eexists. split; [reflexivity|]. by vm_compute. Qed.

(** The same through the store, as the main code runs networks 2 and 3. *)
Lemma empty_run_through_store :
  (file_output_info ←
     update_dictionary client_network
       {| DATA_SG := Some 0%nat; FILEMIDDLE := None |} "" "1007835";
   r ← lift (getitem "DATA_SG" (DATA_SG file_output_info));
   df ← deref r;
   lift (create_output_files df)) [empty_events]
  = Raise (ValueError "max() arg is an empty sequence").
Proof. by vm_compute. Qed.

(** ** Concrete runs *)

(** C7, the claim as stated fails: Harford has the settings Inpatient and
    OOA, the node stage raises numpy's [ValueError], which is no assertion
    and does not name Harford. *)
Lemma harford_ambiguity_is_not_asserted :
  ∃ DATA_SG,
    categorise_columns harford_events = Ok DATA_SG
    ∧ output_Node_file DATA_SG
      = Raise (ValueError "all the input array dimensions except for the concatenation axis must match exactly")
    ∧ ¬ reports_ambiguous_label (output_Node_file DATA_SG) "Harford".
Proof.
  eexists. split; [reflexivity|]. split; [by vm_compute|].
  intros (msg & Hmsg & _). vm_compute in Hmsg. discriminate.
Qed.

(** The theorems at the example data. *)

Lemma output_SM_file_counts_consecutive_events_witness :
  wardTeamCatCode example_events = Some [1; 2; 2; 3; 1]
  ∧ length (ClientID example_events) = length [1; 2; 2; 3; 1]
  ∧ [1; 2; 2; 3; 1] ≠ []
  ∧ Forall (λ c, 1 ≤ c) [1; 2; 2; 3; 1]
  ∧ ∃ servMove,
      output_SM_file example_events = Ok servMove
      ∧ cell servMove 0 1 = 1 ∧ cell servMove 1 1 = 1
      ∧ cell servMove 1 2 = 1 ∧ matrix_sum servMove = 3.
Proof.
  assert (Forall (λ c, 1 ≤ c) [1; 2; 2; 3; 1]) as Hpos
    by (repeat constructor; lia).
  split_and!; [reflexivity|reflexivity|discriminate|exact Hpos|].
  destruct (output_SM_file_counts_consecutive_events example_events
              [1; 2; 2; 3; 1] eq_refl eq_refl ltac:(discriminate) Hpos)
    as (servMove & HOk & _ & _ & Hcell & Hsum).
  exists servMove. rewrite !Hcell, Hsum. split_and!; [exact HOk|reflexivity..].
Defined.

Lemma output_Edge_file_edges_are_positive_cells_witness :
  square 3 example_servMove
  ∧ ∃ edges,
      output_Edge_file example_servMove = Ok edges
      ∧ length edges = 3%nat.
Proof.
  assert (square 3 example_servMove) as Hsq
    by (split; [reflexivity|repeat constructor]).
  split; [exact Hsq|].
  destruct (output_Edge_file_edges_are_positive_cells 3 example_servMove Hsq)
    as (edges & HOk & Hlen & _).
  exists edges. split; [exact HOk|]. rewrite Hlen. reflexivity.
Defined.

Lemma output_Edge_file_ids_follow_emission_order_witness :
  square 3 example_servMove
  ∧ ∃ edges,
      output_Edge_file example_servMove = Ok edges
      ∧ edges !! 0%nat = Some (Build_Edge 1 2 "Directed" 0 1)
      ∧ edges !! 1%nat = Some (Build_Edge 2 2 "Directed" 1 1)
      ∧ edges !! 2%nat = Some (Build_Edge 2 3 "Directed" 2 1).
Proof.
  assert (square 3 example_servMove) as Hsq
    by (split; [reflexivity|repeat constructor]).
  split; [exact Hsq|].
  destruct (output_Edge_file_ids_follow_emission_order 3 example_servMove Hsq)
    as (edges & HOk & _ & Hiff & _).
  exists edges. split; [exact HOk|]. split_and!; apply Hiff.
  - exists 1%nat, 0%nat. split; reflexivity.
  - exists 1%nat, 1%nat. split; reflexivity.
  - exists 2%nat, 1%nat. split; reflexivity.
Defined.

Lemma categorise_columns_order_isomorphism_witness :
  newWardTeam example_events
  = Some ["Ward1"; "Ward2"; "Ward2"; "Ward3"; "Ward1"]
  ∧ category_id ["Ward1"; "Ward2"; "Ward2"; "Ward3"; "Ward1"] "Ward2"
    < category_id ["Ward1"; "Ward2"; "Ward2"; "Ward3"; "Ward1"] "Ward3".
Proof.
  split; [reflexivity|].
  destruct (categorise_columns_order_isomorphism example_events
              ["Ward1"; "Ward2"; "Ward2"; "Ward3"; "Ward1"] eq_refl)
    as (df & cat & _ & _ & _ & _ & _ & _ & _ & _ & _ & _ & Hlt & _).
  apply Hlt; [repeat constructor..|reflexivity].
Defined.

Lemma recoder_collapses_excluded_groups_witness :
  REPRESENT_REMOVED locality_network ≠ 0
  ∧ length (WardTeam example_events) = length (GroupCol example_events)
  ∧ length (Setting example_events) = length (GroupCol example_events)
  ∧ "North" ∈ GroupCol example_events
  ∧ "North" ≠ "None"
  ∧ ∃ labels,
      newWardTeam
        (create_new_ward_and_setting_columns locality_network "North"
           (frame_select (ne_mask (GroupCol example_events) "None")
              example_events))
      = Some labels
      ∧ labels !! 0%nat = Some "Ward1"
      ∧ labels !! 2%nat = Some "Locality South".
Proof.
  assert ("North" ∈ GroupCol example_events) as Hin by repeat constructor.
  split_and!; [discriminate|reflexivity|reflexivity|exact Hin|discriminate|].
  destruct (recoder_collapses_excluded_groups locality_network example_events
              "North" ltac:(discriminate) eq_refl eq_refl Hin
              ltac:(discriminate))
    as (labels & settings & Hnew & _ & _ & _ & _ & _ & _ & Hrow & _).
  exists labels. split; [exact Hnew|]. split.
  - apply (Hrow 0%nat "North" "Ward1" "Community"); reflexivity.
  - apply (Hrow 2%nat "South" "Ward2" "Inpatient");
      [reflexivity..|discriminate].
Defined.

Lemma output_Node_file_ambiguous_setting_raises_witness :
  newWardTeam harford_events = Some ["Harford"; "Harford"; "Ward1"]
  ∧ newSetting harford_events = Some ["Inpatient"; "OOA"; "Community"]
  ∧ "Inpatient" ≠ "OOA"
  ∧ ∃ DATA_SG,
      categorise_columns harford_events = Ok DATA_SG
      ∧ output_Node_file DATA_SG
        = Raise (ValueError "all the input array dimensions except for the concatenation axis must match exactly").
Proof.
  split_and!; [reflexivity|reflexivity|discriminate|].
  eexists. split; [reflexivity|].
  apply (output_Node_file_ambiguous_setting_raises harford_events _
           ["Harford"; "Harford"; "Ward1"] ["Inpatient"; "OOA"; "Community"]
           0 1 "Harford" "Inpatient" "OOA");
    (reflexivity || discriminate).
Defined.

Lemma singleton_patient_recorded_without_transition_witness :
  wardTeamCatCode example_events = Some [1; 2; 2; 3; 1]
  ∧ length (ClientID example_events) = length [1; 2; 2; 3; 1]
  ∧ [1; 2; 2; 3; 1] ≠ []
  ∧ Forall (λ c, 1 ≤ c) [1; 2; 2; 3; 1]
  ∧ event_count (ClientID example_events) 8 = 1%nat
  ∧ ∃ servMove singles,
      SM_loop example_events = Ok (servMove, singles)
      ∧ singles = [0; 8]
      ∧ SM_patient (ClientID example_events) [1; 2; 2; 3; 1]
          (example_servMove, [0]) 8
        = Ok (example_servMove, [0; 8]).
Proof.
  assert (Forall (λ c, 1 ≤ c) [1; 2; 2; 3; 1]) as Hpos
    by (repeat constructor; lia).
  split_and!; [reflexivity|reflexivity|discriminate|exact Hpos|reflexivity|].
  destruct (singleton_patient_recorded_without_transition example_events
              [1; 2; 2; 3; 1] eq_refl eq_refl ltac:(discriminate) Hpos)
    as (servMove & singles & HOk & Hsingles & Hone).
  exists servMove, singles. split_and!; [exact HOk|exact Hsingles|].
  destruct (Hone 8 eq_refl) as (Hstep & _).
  apply (Hstep example_servMove [0]).
Defined.

Lemma servMove_side_is_number_of_labels_witness :
  newWardTeam example_events
  = Some ["Ward1"; "Ward2"; "Ward2"; "Ward3"; "Ward1"]
  ∧ ["Ward1"; "Ward2"; "Ward2"; "Ward3"; "Ward1"] ≠ []
  ∧ ∃ DATA_SG' code servMove,
      categorise_columns example_events = Ok DATA_SG'
      ∧ wardTeamCatCode DATA_SG' = Some code
      ∧ output_SM_file DATA_SG' = Ok servMove
      ∧ square 3 servMove.
Proof.
  split_and!; [reflexivity|discriminate|].
  destruct (servMove_side_is_number_of_labels example_events
              ["Ward1"; "Ward2"; "Ward2"; "Ward3"; "Ward1"] eq_refl
              ltac:(discriminate))
    as (df & code & servMove & Hcat & Hcode & HOk & _ & Hsq & _).
  exists df, code, servMove. split_and!; [exact Hcat|exact Hcode|exact HOk|].
  exact Hsq.
Defined.

Lemma recoder_overwrites_run_columns_witness :
  REPRESENT_REMOVED locality_network ≠ 0
  ∧ [example_events] !! DATA locality_network = Some example_events
  ∧ length (WardTeam example_events) = length (GroupCol example_events)
  ∧ length (Setting example_events) = length (GroupCol example_events)
  ∧ GroupCol example_events ≠ []
  ∧ WardTeam
      (create_new_ward_and_setting_columns locality_network "North"
         example_events) !! 2%nat
    = Some "Locality South"
  ∧ newWardTeam
      (create_new_ward_and_setting_columns locality_network "North"
         example_events)
    = Some (WardTeam
              (create_new_ward_and_setting_columns locality_network "North"
                 example_events)).
Proof.
  split_and!;
    [discriminate|reflexivity|reflexivity|reflexivity|discriminate| |].
  - destruct (recoder_overwrites_run_columns locality_network "North" "North"
                [example_events] example_events ltac:(discriminate) eq_refl
                eq_refl eq_refl ltac:(discriminate))
      as ((_ & _ & Hrow) & _).
    destruct (Hrow 2%nat "South" eq_refl ltac:(discriminate)) as [HW _].
    exact HW.
  - destruct (recoder_overwrites_run_columns locality_network "North" "North"
                [example_events] example_events ltac:(discriminate) eq_refl
                eq_refl eq_refl ltac:(discriminate))
      as ((Hnew & _) & _).
    exact Hnew.
Defined.

(** * Further properties *)

(** ** The node list when every label has one setting *)

#[global] Instance by_code_total : Total by_code.
Proof. intros a b. unfold by_code. lia. Qed.

#[global] Instance by_code_trans : Transitive by_code.
Proof. intros a b c. unfold by_code. lia. Qed.

(** The codes of a column are exactly 1..N. *)
Lemma elem_of_codes (labels : list string) (k : Z) :
  k ∈ category_id labels <$> labels
  ↔ 1 ≤ k ≤ Z.of_nat (length (unique labels)).
Proof.
  split.
  - intros (a & -> & Ha)%list_elem_of_fmap. by apply category_id_range.
  - intros (a & Ha & <-)%category_id_surj. by apply list_elem_of_fmap_2.
Qed.

Lemma StronglySorted_ranks (n : nat) :
  StronglySorted Z.le ((λ k, Z.of_nat k + 1) <$> seq 0 n).
Proof.
  apply (StronglySorted_fmap _ lt); [intros; lia|apply StronglySorted_seq].
Qed.

Lemma elem_of_ranks (n : nat) (k : Z) :
  k ∈ (λ k, Z.of_nat k + 1) <$> seq 0 n ↔ 1 ≤ k ≤ Z.of_nat n.
Proof.
  rewrite list_elem_of_fmap. split.
  - intros (i & -> & Hi%elem_of_seq). lia.
  - intros Hk. exists (Z.to_nat (k - 1)). split; [lia|].
    apply elem_of_seq. lia.
Qed.

Lemma NoDup_ranks (n : nat) : NoDup ((λ k, Z.of_nat k + 1) <$> seq 0 n).
Proof.
  apply NoDup_fmap_2_strong; [|apply NoDup_seq]. intros; lia.
Qed.

(** A sorted duplicate-free list of integers whose elements are 1..n is
    the list 1, 2, ..., n. *)
Lemma sorted_ranks (l : list Z) (n : nat) :
  StronglySorted Z.le l → NoDup l →
  (∀ k, k ∈ l ↔ 1 ≤ k ≤ Z.of_nat n) →
  l = (λ k, Z.of_nat k + 1) <$> seq 0 n.
Proof.
  intros Hs Hnd Hel. apply (StronglySorted_unique Z.le); [done| |].
  - apply StronglySorted_ranks.
  - apply NoDup_Permutation; [done|apply NoDup_ranks|].
    intros k. by rewrite Hel, elem_of_ranks.
Qed.

(** The keys of [groupby('wardTeamCatCode')] are 1, 2, ..., N. *)
Lemma groupby_keys (labels : list string) :
  merge_sort Z.le (unique (category_id labels <$> labels))
  = (λ k, Z.of_nat k + 1) <$> seq 0 (length (unique labels)).
Proof.
  apply sorted_ranks.
  - apply (StronglySorted_merge_sort Z.le).
  - rewrite merge_sort_Permutation. apply NoDup_unique.
  - intros k. by rewrite merge_sort_Permutation, elem_of_unique, elem_of_codes.
Qed.

Lemma elem_of_node_rows (labels : list string) (code : list Z)
  (settings : list string) a c s :
  (a, c, s) ∈ zip (zip labels code) settings
  ↔ ∃ i, labels !! i = Some a ∧ code !! i = Some c ∧ settings !! i = Some s.
Proof.
  rewrite list_elem_of_lookup. split.
  - intros (i & ([a' c'] & s' & Heq & (? & ? & ? & ? & ?)%lookup_zip_with_Some
                 & ?)%lookup_zip_with_Some).
    simplify_eq. eauto.
  - intros (i & Ha & Hc & Hs). exists i.
    apply lookup_zip_with_Some. exists (a, c), s. split_and!; [done| |done].
    apply lookup_zip_with_Some. eauto.
Qed.

(** With one setting per label, the rows left by [drop_duplicates], sorted,
    carry the codes 1, 2, ..., N. *)
Lemma node_rows_codes (labels settings : list string) :
  length settings = length labels →
  single_setting labels settings →
  (λ r, r.1.2)
    <$> merge_sort by_code
          (unique (zip (zip labels (category_id labels <$> labels)) settings))
  = (λ k, Z.of_nat k + 1) <$> seq 0 (length (unique labels)).
Proof.
  intros Hlen Hsingle.
  set (code := category_id labels <$> labels).
  set (df := zip (zip labels code) settings).
  assert (∀ a c s, (a, c, s) ∈ unique df →
            ∃ i, labels !! i = Some a ∧ c = category_id labels a
                 ∧ settings !! i = Some s) as Hrow.
  { intros a c s Hin. apply (proj1 (elem_of_unique _ _)) in Hin.
    apply elem_of_node_rows in Hin as (i & Ha & Hc & Hs).
    unfold code in Hc. rewrite list_lookup_fmap, Ha in Hc.
    exists i. by simplify_eq/=. }
  apply sorted_ranks.
  - apply (StronglySorted_fmap _ by_code); [done|].
    apply (StronglySorted_merge_sort by_code).
  - rewrite merge_sort_Permutation.
    apply NoDup_fmap_2_strong; [|apply NoDup_unique].
    intros [[a c] s] [[a' c'] s'] (i & Ha & -> & Hs)%Hrow
      (j & Ha' & -> & Hs')%Hrow Heq. simpl in Heq.
    assert (a = a') as <-.
    { apply (category_id_inj labels); [| |done];
        apply list_elem_of_lookup; eauto. }
    by rewrite (Hsingle i j a s s').
  - intros k. rewrite merge_sort_Permutation, <- elem_of_codes. fold code.
    rewrite list_elem_of_fmap. split.
    + intros ([[a c] s] & -> & Hin). apply (proj1 (elem_of_unique _ _)) in Hin.
      apply elem_of_node_rows in Hin as (i & _ & Hc & _).
      apply list_elem_of_lookup. eauto.
    + intros (i & Hc)%list_elem_of_lookup.
      destruct (lookup_lt_is_Some_2 labels i) as [a Ha].
      { apply lookup_lt_Some in Hc. unfold code in Hc.
        by rewrite length_fmap in Hc. }
      destruct (lookup_lt_is_Some_2 settings i) as [s Hs].
      { apply lookup_lt_Some in Ha. lia. }
      exists (a, k, s). split; [done|].
      apply elem_of_unique, elem_of_node_rows. eauto.
Qed.

Lemma Node_table_lookup (ids : list Z) (labs : list string)
  (means medians : list Q) (sets : list string) (k : nat) i l m md s :
  ids !! k = Some i → labs !! k = Some l → means !! k = Some m →
  medians !! k = Some md → sets !! k = Some s →
  Node_table ids labs means medians sets !! k = Some (Build_Node i l m md s).
Proof.
  intros Hi Hl Hm Hmd Hs. unfold Node_table.
  apply lookup_zip_with_Some. exists (i, l, m), (md, s). split_and!; [done| |].
  - apply lookup_zip_with_Some. exists (i, l), m. split_and!; [done| |done].
    apply lookup_zip_with_Some. eauto.
  - apply lookup_zip_with_Some. eauto.
Qed.

Lemma length_Node_table (ids : list Z) (labs : list string)
  (means medians : list Q) (sets : list string) (n : nat) :
  length ids = n → length labs = n → length means = n →
  length medians = n → length sets = n →
  length (Node_table ids labs means medians sets) = n.
Proof.
  intros. unfold Node_table. rewrite !length_zip_with. lia.
Qed.

(** The mask of the rows with the code of a label is the mask of the rows
    with that label. *)
Lemma eq_mask_code (labels : list string) (a : string) :
  a ∈ labels →
  eq_mask (category_id labels <$> labels) (category_id labels a)
  = eq_mask labels a.
Proof.
  intros Ha. unfold eq_mask. rewrite <- list_fmap_compose.
  apply list_fmap_ext. intros i b Hb. simpl.
  assert (b ∈ labels) as Hbin by (apply list_elem_of_lookup; eauto).
  apply bool_decide_ext. split; [|by intros ->].
  by apply category_id_inj.
Qed.

Lemma lookup_categories_lt (labels : list string) (k : nat) (a : string) :
  categories (astype_category labels) !! k = Some a →
  (k < length (unique labels))%nat.
Proof.
  intros H%lookup_lt_Some. rewrite <- length_categories. exact H.
Qed.

Lemma groupby_agg_lookup {B} (labels : list string) (col : list Z)
  (agg : list Z → B) (k : nat) (a : string) :
  categories (astype_category labels) !! k = Some a →
  groupby_agg (category_id labels <$> labels) col agg !! k
  = Some (agg (mask_select (eq_mask labels a) col)).
Proof.
  intros Hk. unfold groupby_agg.
  rewrite groupby_keys, !list_lookup_fmap, lookup_seq_lt
    by by eapply lookup_categories_lt.
  simpl. rewrite <- (category_id_of_lookup labels k a Hk).
  rewrite eq_mask_code; [done|].
  apply elem_of_categories, list_elem_of_lookup. eauto.
Qed.

(** The node list in the good case, row by row. *)
Lemma output_Node_file_Ok (DATA_SG DATA_SG' : DataFrame)
  (labels settings : list string) :
  newWardTeam DATA_SG = Some labels →
  newSetting DATA_SG = Some settings →
  length settings = length labels →
  single_setting labels settings →
  categorise_columns DATA_SG = Ok DATA_SG' →
  ∃ nodes,
    output_Node_file DATA_SG' = Ok nodes
    ∧ length nodes = length (unique labels)
    ∧ ∀ k a,
        categories (astype_category labels) !! k = Some a →
        ∃ s, nodes !! k
             = Some {| ID := Z.of_nat k + 1; Label := a;
                       MeanLoS :=
                         mean (mask_select (eq_mask labels a)
                                 (LoSdays DATA_SG));
                       MedianLoS :=
                         median (mask_select (eq_mask labels a)
                                   (LoSdays DATA_SG));
                       NSetting := s |}
             ∧ ∀ i, labels !! i = Some a → settings !! i = Some s.
Proof.
  intros Hlabels Hsettings Hlen Hsingle Hcat.
  rewrite (categorise_columns_Ok DATA_SG labels Hlabels) in Hcat.
  injection Hcat as <-.
  unfold output_Node_file. simpl. rewrite Hsettings. simpl.
  rewrite cat_values_astype.
  set (code := category_id labels <$> labels).
  set (df := zip (zip labels code) settings).
  set (S := merge_sort by_code (unique df)).
  pose proof (node_rows_codes labels settings Hlen Hsingle) as Hcodes.
  fold code df S in Hcodes.
  assert (length S = length (unique labels)) as HlenS.
  { apply (f_equal length) in Hcodes.
    by rewrite !length_fmap, length_seq in Hcodes. }
  assert (length (unique code) = length (unique labels)) as HlenK.
  { pose proof (groupby_keys labels) as Hk. fold code in Hk.
    apply (f_equal length) in Hk.
    by rewrite merge_sort_Permutation, length_fmap, length_seq in Hk. }
  rewrite !length_fmap, !length_groupby_agg, HlenS, HlenK, Nat.eqb_refl.
  simpl. eexists. split; [done|]. split.
  - apply length_Node_table;
      by rewrite ?length_fmap, ?length_groupby_agg.
  - intros k a Hk.
    assert (k < length (unique labels))%nat as Hlt
      by by eapply lookup_categories_lt.
    destruct (lookup_lt_is_Some_2 S k) as [[[a' c'] s'] HS]; [lia|].
    assert (c' = Z.of_nat k + 1) as ->.
    { apply (f_equal (λ l, l !! k)) in Hcodes.
      rewrite !list_lookup_fmap, HS, lookup_seq_lt in Hcodes by done.
      by simplify_eq/=. }
    assert ((a', Z.of_nat k + 1, s') ∈ df) as Hin.
    { apply (elem_of_unique df). unfold S in HS.
      rewrite <- (merge_sort_Permutation by_code).
      apply list_elem_of_lookup. eauto. }
    apply elem_of_node_rows in Hin as (i & Ha' & Hc' & Hs').
    unfold code in Hc'. rewrite list_lookup_fmap, Ha' in Hc'.
    simplify_eq/=.
    assert (a' = a) as ->.
    { apply (category_id_inj labels).
      - apply list_elem_of_lookup. eauto.
      - apply elem_of_categories, list_elem_of_lookup. eauto.
      - by rewrite (category_id_of_lookup labels k a Hk). }
    exists s'. split.
    + apply Node_table_lookup.
      * by rewrite list_lookup_fmap, HS.
      * by rewrite list_lookup_fmap, HS.
      * by apply groupby_agg_lookup.
      * by apply groupby_agg_lookup.
      * by rewrite list_lookup_fmap, HS.
    + intros j Hj.
      destruct (lookup_lt_is_Some_2 settings j) as [s Hs].
      { apply lookup_lt_Some in Hj. lia. }
      by rewrite Hs, (Hsingle j i a s s').
Qed.

(** The matrix of a categorised frame with events. *)
Lemma output_SM_file_categorised (DATA_SG DATA_SG' : DataFrame)
  (labels : list string) :
  newWardTeam DATA_SG = Some labels → labels ≠ [] →
  categorise_columns DATA_SG = Ok DATA_SG' →
  ∃ servMove,
    output_SM_file DATA_SG' = Ok servMove
    ∧ square (length (unique labels)) servMove
    ∧ Forall (Forall (λ v, 0 ≤ v)) servMove
    ∧ matrix_sum servMove
      = Z.of_nat (sum_list ((λ ID,
          (length (patient_codes (ClientID DATA_SG)
                     (category_id labels <$> labels) ID) - 1)%nat)
                            <$> unique (ClientID DATA_SG))).
Proof.
  intros Hlabels Hne Hcat.
  rewrite (categorise_columns_Ok DATA_SG labels Hlabels) in Hcat.
  injection Hcat as <-.
  set (code := category_id labels <$> labels).
  assert (code ≠ []) as Hcne by (unfold code; by destruct labels).
  assert (Forall (λ c, 1 ≤ c) code) as Hpos.
  { apply Forall_forall. intros c Hc%elem_of_codes. lia. }
  destruct (SM_loop_Ok
              (set_wardTeamCatCode code
                 (set_wardTeamCat (astype_category labels) DATA_SG))
              code eq_refl Hcne Hpos)
    as (n' & servMove & Hmax & Hloop & Hsq & Hcell & Hsum).
  assert (n' = length (unique labels)) as ->.
  { destruct (py_max_Ok code Hcne) as (mx & Hmx & Hin & Hle).
    rewrite Hmx in Hmax. injection Hmax as ->.
    apply elem_of_codes in Hin.
    assert (1 ≤ Z.of_nat (length (unique labels))) as Hn.
    { destruct (unique labels) as [|? ?] eqn:E; [|simpl; lia].
      by apply unique_nil_inv in E. }
    assert (Z.of_nat (length (unique labels)) ≤ Z.of_nat n')
      by (apply Hle, elem_of_codes; lia).
    lia. }
  exists servMove. split_and!; [|done| |done].
  - unfold output_SM_file. by rewrite Hloop.
  - apply Forall_lookup. intros r row Hrow.
    apply Forall_lookup. intros c v Hv.
    specialize (Hcell r c). unfold cell in Hcell.
    rewrite Hrow in Hcell. simpl in Hcell. rewrite Hv in Hcell.
    simpl in Hcell. lia.
Qed.

(** A whole run in the good case. *)
Lemma create_output_files_Ok (DATA_SG DATA_SG' : DataFrame)
  (labels settings : list string) :
  newWardTeam DATA_SG = Some labels →
  newSetting DATA_SG = Some settings →
  labels ≠ [] →
  length settings = length labels →
  single_setting labels settings →
  categorise_columns DATA_SG = Ok DATA_SG' →
  let n := length (unique labels) in
  ∃ servMove edges nodes,
    create_output_files DATA_SG' = Ok (servMove, edges, nodes)
    ∧ square n servMove
    ∧ ID <$> nodes = (λ k, Z.of_nat k + 1) <$> seq 0 n
    ∧ Label <$> nodes = categories (astype_category labels)
    ∧ (∀ e, e ∈ edges →
         (∃ v, v ∈ nodes ∧ ID v = Source e)
         ∧ (∃ v, v ∈ nodes ∧ ID v = Target e))
    ∧ output_Edge_file servMove = Ok edges
    ∧ Forall (Forall (λ v, 0 ≤ v)) servMove
    ∧ matrix_sum servMove
      = Z.of_nat (sum_list ((λ ID,
          (length (patient_codes (ClientID DATA_SG)
                     (category_id labels <$> labels) ID) - 1)%nat)
                            <$> unique (ClientID DATA_SG))).
Proof.
  intros Hlabels Hsettings Hne Hlen Hsingle Hcat n.
  destruct (output_SM_file_categorised _ _ _ Hlabels Hne Hcat)
    as (servMove & HSM & Hsq & Hnn & Hsum).
  destruct (output_Node_file_Ok _ _ _ _ Hlabels Hsettings Hlen Hsingle Hcat)
    as (nodes & HN & HlenN & Hrows).
  assert (∀ k, (k < n)%nat →
            ∃ v a, nodes !! k = Some v ∧ ID v = Z.of_nat k + 1
                   ∧ categories (astype_category labels) !! k = Some a
                   ∧ Label v = a) as Hnode.
  { intros k Hk.
    destruct (lookup_lt_is_Some_2 (categories (astype_category labels)) k)
      as [a Ha]; [by rewrite length_categories|].
    destruct (Hrows k a Ha) as (s & Hv & _). eauto 10. }
  exists servMove,
    (imap (λ k p, Build_Edge (Z.of_nat p.2 + 1) (Z.of_nat p.1 + 1)
                    "Directed" (Z.of_nat k) (cell servMove p.2 p.1))
       (edge_cells servMove)), nodes.
  split_and!.
  - unfold create_output_files.
    by rewrite HSM, bind_Ok, (output_Edge_file_Ok n), bind_Ok, HN.
  - done.
  - apply list_eq. intros k. rewrite !list_lookup_fmap.
    destruct (decide (k < n)%nat) as [Hk|Hk].
    + destruct (Hnode k Hk) as (v & a & Hv & HID & _).
      rewrite Hv, lookup_seq_lt by done. simpl. by rewrite HID.
    + rewrite (lookup_ge_None_2 nodes), lookup_seq_ge by lia. done.
  - apply list_eq. intros k. rewrite !list_lookup_fmap.
    destruct (decide (k < n)%nat) as [Hk|Hk].
    + destruct (Hnode k Hk) as (v & a & Hv & _ & Ha & HL).
      rewrite Hv, Ha. simpl. by rewrite HL.
    + rewrite (lookup_ge_None_2 nodes) by lia.
      rewrite lookup_ge_None_2; [done|]. rewrite length_categories. lia.
  - intros e (k & Hk)%list_elem_of_lookup.
    apply lookup_edges in Hk as (i & j & Hk & ->). simpl.
    assert ((i, j) ∈ edge_cells servMove) as Hin
      by (apply list_elem_of_lookup; eauto).
    apply elem_of_edge_cells in Hin as (Hi & Hj & _).
    destruct Hsq as [Hlen' _]. rewrite Hlen' in Hi, Hj.
    destruct (Hnode j Hj) as (v & _ & Hv & HID & _).
    destruct (Hnode i Hi) as (w & _ & Hw & HIDw & _).
    split; [exists v|exists w]; (split; [|done]);
      apply list_elem_of_lookup; eauto.
  - by apply (output_Edge_file_Ok n).
  - done.
  - done.
Qed.

(** ** Masks and selections *)

Lemma lookup_bool_mask {A} (P : A → Prop) `{!∀ x, Decision (P x)}
  (col : list A) (i : nat) :
  ((λ x, bool_decide (P x)) <$> col) !! i = Some true
  ↔ ∃ v, col !! i = Some v ∧ P v.
Proof.
  rewrite list_lookup_fmap, fmap_Some. split.
  - intros (v & Hv & Hb). exists v. split; [done|].
    symmetry in Hb. by apply bool_decide_eq_true in Hb.
  - intros (v & Hv & HP). exists v. split; [done|].
    symmetry. by apply bool_decide_eq_true.
Qed.

Lemma mask_select_filter {A} (P : A → Prop) `{!∀ x, Decision (P x)}
  (l : list A) :
  mask_select ((λ x, bool_decide (P x)) <$> l) l = filter P l.
Proof.
  induction l as [|x l IH]; [done|].
  rewrite fmap_cons, filter_cons. simpl. rewrite IH.
  case_bool_decide; [by rewrite decide_True|by rewrite decide_False].
Qed.

(** A selection by a test on one column, read in that column and another:
    the rows that pass, in order. *)
Lemma mask_select_zip_filter {A B} (P : A → Prop) `{!∀ x, Decision (P x)}
  (col : list A) (arr : list B) :
  zip (mask_select ((λ x, bool_decide (P x)) <$> col) col)
      (mask_select ((λ x, bool_decide (P x)) <$> col) arr)
  = filter (λ r, P r.1) (zip col arr).
Proof.
  revert arr. induction col as [|x col IH]; intros [|y arr]; try done.
  - rewrite fmap_cons. cbn [mask_select zip_with].
    by destruct (bool_decide (P x)); [|destruct (mask_select _ col)].
  - rewrite fmap_cons. cbn [mask_select zip_with].
    rewrite filter_cons. cbn [fst]. case_bool_decide.
    + rewrite decide_True by done. cbn [zip_with]. by rewrite IH.
    + rewrite decide_False by done. apply IH.
Qed.

Lemma length_mask_select_le {A} (mask : list bool) (l : list A) :
  (length (mask_select mask l) ≤ length l)%nat.
Proof.
  revert l. induction mask as [|b mask IH]; intros [|x l]; simpl; try lia.
  specialize (IH l). destruct b; simpl; lia.
Qed.

Lemma mask_select_all_true {A} (P : A → Prop) `{!∀ x, Decision (P x)}
  (col : list A) {B} (arr : list B) :
  Forall P col → length arr = length col →
  mask_select ((λ x, bool_decide (P x)) <$> col) arr = arr.
Proof.
  intros Hall. revert arr.
  induction Hall as [|x col Hx Hall IH]; intros [|y arr] Hlen;
    simplify_eq/=; [done|].
  rewrite bool_decide_true by done. by rewrite IH.
Qed.

(** ** The networks of a subgroup column *)






(** A column that holds only the sentinel, or no row at all, gives no
    network and no error. *)
Theorem create_network_data_for_subgroup_sentinel_only (si : subgroup_dict)
  (foi : file_output_dict) (σ : store) (d : DataFrame) :
  σ !! DATA si = Some d →
  Forall (λ g, g = "None") (GroupCol d) →
  create_network_data_for_subgroup si foi σ
  = Ok ([], σ ++ [frame_select (ne_mask (GroupCol d) "None") d]).
Proof.
  intros Hd Hall. unfold create_network_data_for_subgroup.
  rewrite (M_bind_Ok _ _ σ σ d) by by apply deref_Ok.
  set (d' := frame_select (ne_mask (GroupCol d) "None") d).
  rewrite (M_bind_Ok _ _ σ (σ ++ [d']) (length σ)) by done.
  rewrite (M_bind_Ok _ _ (σ ++ [d']) (σ ++ [d']) d').
  2:{ apply deref_Ok. simpl. by rewrite lookup_app_r, Nat.sub_diag. }
  assert (GroupCol d' = []) as ->; [|done].
  unfold d', ne_mask. simpl.
  rewrite (mask_select_filter (λ g, g ≠ "None")).
  clear -Hall. induction Hall as [|g l Hg Hall IH]; [done|].
  by rewrite filter_cons, decide_False by (intros ?; done).
Qed.

(** ** Selections of rows *)

Lemma lookup_mask_assign {A} (mask : list bool) (v : A) (arr : list A)
  (i : nat) (b : bool) (x : A) :
  mask !! i = Some b → arr !! i = Some x →
  mask_assign mask v arr !! i = Some (if b then v else x).
Proof.
  revert mask arr. induction i as [|i IH]; intros [|c mask] [|y arr] Hm Hx;
    simplify_eq/=; [done|]. by apply IH.
Qed.

Lemma mask_assign_idem {A} (mask : list bool) (v : A) (arr : list A) :
  mask_assign mask v (mask_assign mask v arr) = mask_assign mask v arr.
Proof.
  revert arr. induction mask as [|b mask IH]; intros [|x arr]; simpl;
    [done..|].
  rewrite IH. by destruct b.
Qed.

Lemma length_mask_select_mono {A B} (mask : list bool) (col : list A)
  (arr : list B) :
  (length mask ≤ length col)%nat →
  (length (mask_select mask arr) ≤ length (mask_select mask col))%nat.
Proof.
  revert col arr. induction mask as [|b mask IH]; intros [|x col] [|y arr] Hlen;
    simpl in *; try lia.
  assert (length mask ≤ length col)%nat as Hle by lia.
  specialize (IH col arr Hle). destruct b; simpl; lia.
Qed.

Lemma mask_select_true_le {A} (P : A → Prop) `{!∀ x, Decision (P x)}
  (col : list A) {B} (arr : list B) :
  Forall P col → (length arr ≤ length col)%nat →
  mask_select ((λ x, bool_decide (P x)) <$> col) arr = arr.
Proof.
  intros Hall. revert arr.
  induction Hall as [|x col Hx Hall IH]; intros [|y arr] Hlen;
    simpl in *; try done; [lia|].
  rewrite bool_decide_true by done. rewrite IH; [done|lia].
Qed.

(** Selecting by a test on a column twice is selecting once. *)
Lemma mask_select_twice {A B} (P : A → Prop) `{!∀ x, Decision (P x)}
  (col : list A) (arr : list B) :
  mask_select
    ((λ x, bool_decide (P x))
       <$> mask_select ((λ x, bool_decide (P x)) <$> col) col)
    (mask_select ((λ x, bool_decide (P x)) <$> col) arr)
  = mask_select ((λ x, bool_decide (P x)) <$> col) arr.
Proof.
  apply mask_select_true_le.
  - rewrite mask_select_filter. apply Forall_forall.
    by intros x [? _]%list_elem_of_filter.
  - apply length_mask_select_mono. by rewrite length_fmap.
Qed.

Lemma mask_select_zip {A B} (mask : list bool) (l : list A) (k : list B) :
  mask_select mask (zip l k) = zip (mask_select mask l) (mask_select mask k).
Proof.
  revert l k. induction mask as [|b mask IH]; intros [|x l] [|y k]; simpl;
    try done.
  - by destruct b; [|destruct (mask_select mask l)].
  - by destruct b; simpl; rewrite IH.
Qed.

Lemma events_frame_select (mask : list bool) (df : DataFrame) :
  events (frame_select mask df) = mask_select mask (events df).
Proof.
  unfold events, frame_select.
  cbn [ClientID WardTeam Setting GroupCol LoSdays].
  by rewrite !mask_select_zip.
Qed.

Lemma length_events (df : DataFrame) :
  aligned df → length (events df) = length (ClientID df).
Proof.
  intros (Hw & Hs & Hg & Hl). unfold events.
  rewrite !length_zip_with. lia.
Qed.

Lemma aligned_frame_select (mask : list bool) (df : DataFrame) :
  aligned df → aligned (frame_select mask df).
Proof.
  intros (Hw & Hs & Hg & Hl). unfold aligned. simpl.
  split_and!; by apply length_mask_select_sync.
Qed.

(** A selection by a test on one column of an aligned frame keeps the
    events that pass the test. *)
Lemma events_select_by {A} (P : A → Prop) `{!∀ x, Decision (P x)}
  (col : list A) (proj : event → A) (df : DataFrame) :
  proj <$> events df = col →
  events (frame_select ((λ x, bool_decide (P x)) <$> col) df)
  = filter (λ e, P (proj e)) (events df).
Proof.
  intros <-. rewrite events_frame_select, <- list_fmap_compose.
  apply (mask_select_filter (λ e, P (proj e))).
Qed.

Lemma events_LoSdays (df : DataFrame) :
  aligned df → snd <$> events df = LoSdays df.
Proof.
  intros (Hw & Hs & Hg & Hl). unfold events. apply snd_zip.
  rewrite !length_zip_with. lia.
Qed.


(** ** delete_zero_LoS *)

Lemma frame_select_twice (P : Z → Prop) `{!∀ x, Decision (P x)}
  (df : DataFrame) :
  let mask (d : DataFrame) := (λ x, bool_decide (P x)) <$> LoSdays d in
  frame_select (mask (frame_select (mask df) df)) (frame_select (mask df) df)
  = frame_select (mask df) df.
Proof.
  intros mask. unfold mask.
  apply DataFrame_eq; unfold frame_select;
    cbn [ClientID WardTeam Setting GroupCol LoSdays newWardTeam newSetting
         wardTeamCat wardTeamCatCode];
    try apply (mask_select_twice P).
  - destruct (newWardTeam df); [|done]. simpl. f_equal.
    apply (mask_select_twice P).
  - destruct (newSetting df); [|done]. simpl. f_equal.
    apply (mask_select_twice P).
  - destruct (wardTeamCat df); [|done]. simpl. do 2 f_equal.
    apply (mask_select_twice P).
  - destruct (wardTeamCatCode df); [|done]. simpl. f_equal.
    apply (mask_select_twice P).
Qed.

(** delete_zero_LoS leaves no event with a negative length of stay, and a
    second pass removes nothing more. *)
Theorem delete_zero_LoS_no_negative_left (DATA : DataFrame) :
  Forall (λ v, 0 ≤ v) (LoSdays (delete_zero_LoS DATA))
  ∧ delete_zero_LoS (delete_zero_LoS DATA) = delete_zero_LoS DATA.
Proof.
  split.
  - unfold delete_zero_LoS, ge_mask, frame_select. cbn [LoSdays].
    rewrite (mask_select_filter (λ v, 0 ≤ v)). apply Forall_forall.
    by intros v [? _]%list_elem_of_filter.
  - unfold delete_zero_LoS, ge_mask.
    apply (frame_select_twice (λ v, 0 ≤ v)).
Qed.

(** On a frame whose columns have one length, delete_zero_LoS keeps the
    events with a length of stay of 0 or more, whole and in their order,
    and the columns of the result have one length again; an event of
    exactly 0 days stays. *)
Theorem delete_zero_LoS_keeps_nonnegative_events (DATA : DataFrame) :
  aligned DATA →
  aligned (delete_zero_LoS DATA)
  ∧ events (delete_zero_LoS DATA) = filter (λ e, 0 ≤ e.2) (events DATA)
  ∧ ∀ e, e ∈ events DATA → e.2 = 0 → e ∈ events (delete_zero_LoS DATA).
Proof.
  intros Hal.
  assert (events (delete_zero_LoS DATA)
          = filter (λ e, 0 ≤ e.2) (events DATA)) as Hev.
  { unfold delete_zero_LoS, ge_mask.
    apply (events_select_by (λ v, 0 ≤ v) (LoSdays DATA) snd).
    by apply events_LoSdays. }
  split_and!.
  - by apply aligned_frame_select.
  - done.
  - intros e He H0. rewrite Hev. apply list_elem_of_filter. split; [lia|done].
Qed.

(** ** create_DATA_with_one_OOA_node *)

Lemma one_OOA_WardTeam (DATA : DataFrame) :
  WardTeam (create_DATA_with_one_OOA_node DATA)
  = mask_assign (eq_mask (Setting DATA) "OOA") "All OOA services"
      (WardTeam DATA).
Proof. done. Qed.

(** create_DATA_with_one_OOA_node gives every event of setting "OOA" the
    ward team "All OOA services" and leaves the ward team of every other
    event, and all the other columns, as they are; no row is added or
    removed, and a second pass changes nothing. *)
Theorem create_DATA_with_one_OOA_node_relabels_OOA_events (DATA : DataFrame) :
  let DATA' := create_DATA_with_one_OOA_node DATA in
  length (WardTeam DATA') = length (WardTeam DATA)
  ∧ (∀ i w s,
       WardTeam DATA !! i = Some w → Setting DATA !! i = Some s →
       WardTeam DATA' !! i = Some (one_OOA_label w s))
  ∧ ClientID DATA' = ClientID DATA
  ∧ Setting DATA' = Setting DATA
  ∧ GroupCol DATA' = GroupCol DATA
  ∧ LoSdays DATA' = LoSdays DATA
  ∧ create_DATA_with_one_OOA_node DATA' = DATA'.
Proof.
  intros DATA'. unfold DATA'. split_and!; try done.
  - rewrite one_OOA_WardTeam. apply length_mask_assign.
  - intros i w s Hw Hs. rewrite one_OOA_WardTeam.
    rewrite (lookup_mask_assign _ _ _ i (bool_decide (s = "OOA")) w);
      [|by unfold eq_mask; rewrite list_lookup_fmap, Hs|done].
    unfold one_OOA_label.
    case_bool_decide; [by rewrite decide_True|by rewrite decide_False].
  - apply DataFrame_eq; try done.
    rewrite !one_OOA_WardTeam. apply mask_assign_idem.
Qed.

(** ** make_filename *)

Lemma replace_char_other (c : ascii) (s : string) :
  c ∉ list_ascii_of_string s → replace_char c s = s.
Proof.
  induction s as [|d s IH]; [done|]. simpl. intros Hc.
  apply not_elem_of_cons in Hc as [Hd Hs]. rewrite IH by done.
  destruct (Ascii.eqb_spec c d); [done|done].
Qed.

Lemma replace_char_removes (c : ascii) (s : string) :
  c ≠ "_"%char → c ∉ list_ascii_of_string (replace_char c s).
Proof.
  intros Hc. induction s as [|d s IH]; simpl.
  - apply not_elem_of_nil.
  - apply not_elem_of_cons. split; [|done].
    destruct (Ascii.eqb_spec c d); [done|done].
Qed.

Lemma replace_char_keeps_out (c x : ascii) (s : string) :
  x ≠ "_"%char → x ∉ list_ascii_of_string s →
  x ∉ list_ascii_of_string (replace_char c s).
Proof.
  intros Hx. induction s as [|d s IH]; simpl; [done|]. intros Hs.
  apply not_elem_of_cons in Hs as [Hd Hs].
  apply not_elem_of_cons. split; [|by apply IH].
  by destruct (Ascii.eqb c d).
Qed.

Lemma replace_comma_space_other (s : string) :
  ","%char ∉ list_ascii_of_string s → replace_comma_space s = s.
Proof.
  induction s as [|d s IH]; [done|]. simpl list_ascii_of_string. intros Hc.
  apply not_elem_of_cons in Hc as [Hd Hs].
  transitivity (String d (replace_comma_space s)); [|by rewrite IH].
  clear IH Hs.
  destruct d as [[] [] [] [] [] [] [] []]; try reflexivity.
  by destruct Hd.
Qed.

Lemma make_filename_safe (s : string) :
  Forall filename_safe (list_ascii_of_string (make_filename s)).
Proof.
  apply Forall_forall. intros x Hx. unfold make_filename in Hx.
  unfold filename_safe. split_and!; intros ->; revert Hx.
  - apply replace_char_keeps_out; [done|].
    apply replace_char_keeps_out; [done|].
    by apply replace_char_removes.
  - apply replace_char_keeps_out; [done|].
    by apply replace_char_removes.
  - by apply replace_char_removes.
Qed.

Lemma make_filename_id (s : string) :
  Forall filename_safe (list_ascii_of_string s) → make_filename s = s.
Proof.
  intros Hs. unfold make_filename.
  assert (∀ c, (c = " " ∨ c = "." ∨ c = ",")%char →
               c ∉ list_ascii_of_string s) as Hout.
  { intros c Hc Hin.
    destruct (proj1 (Forall_forall _ _) Hs c Hin) as (? & ? & ?).
    by destruct Hc as [->| [->| ->]]. }
  rewrite replace_comma_space_other by (apply Hout; auto).
  rewrite (replace_char_other " ") by (apply Hout; auto).
  rewrite (replace_char_other ".") by (apply Hout; auto).
  apply replace_char_other, Hout; auto.
Qed.

(** The name that make_filename gives holds no space, full stop or comma; a
    name that holds none already is not changed; so formatting twice is
    formatting once. *)
Theorem make_filename_has_no_separator (s : string) :
  Forall filename_safe (list_ascii_of_string (make_filename s))
  ∧ (Forall filename_safe (list_ascii_of_string s) → make_filename s = s)
  ∧ make_filename (make_filename s) = make_filename s.
Proof.
  split_and!.
  - apply make_filename_safe.
  - apply make_filename_id.
  - apply make_filename_id, make_filename_safe.
Qed.

(** ** One network of the driver *)

(** The frame that a run of the driver starts from. *)
Lemma run_frame_Ok (si : subgroup_dict) (group : string) (σ : store)
  (d : DataFrame) :
  σ !! DATA si = Some d →
  (if bool_decide (REPRESENT_REMOVED si = 0) then
     d ← deref (DATA si);
     alloc (frame_select (eq_mask (GroupCol d) group) d)
   else copy_deep (DATA si)) σ
  = Ok (length σ,
        σ ++ [if bool_decide (REPRESENT_REMOVED si = 0)
              then frame_select (eq_mask (GroupCol d) group) d else d]).
Proof.
  intros Hd. case_bool_decide.
  - by rewrite (M_bind_Ok _ _ σ σ d) by by apply deref_Ok.
  - by apply copy_deep_Ok.
Qed.

(** A step of the driver that succeeds: the run's frame is added to the
    store, recoded and categorised, and its file set is appended. *)
Lemma subgroup_network_Ok (si : subgroup_dict) (foi : file_output_dict)
  (written : list file_set) (group : string) (σ : store)
  (d run' : DataFrame) (tables : matrix * list Edge * list Node) :
  group ≠ "None" →
  σ !! DATA si = Some d →
  categorise_columns
    (create_new_ward_and_setting_columns si group
       (if bool_decide (REPRESENT_REMOVED si = 0)
        then frame_select (eq_mask (GroupCol d) group) d else d))
  = Ok run' →
  create_output_files run' = Ok tables →
  subgroup_network si (foi, written) group σ
  = Ok (({| DATA_SG := Some (length σ);
            FILEMIDDLE :=
              Some (SUBGROUP_FILENAME si +:+ make_filename group) |},
         written
           ++ [(SUBGROUP_FILENAME si +:+ make_filename group, tables)]),
        σ ++ [run']).
Proof.
  intros Hgroup Hd Hcat Hfiles. unfold subgroup_network.
  rewrite (bool_decide_true (group ≠ "None")) by done.
  set (run := if bool_decide (REPRESENT_REMOVED si = 0)
              then frame_select (eq_mask (GroupCol d) group) d else d) in *.
  rewrite (M_bind_Ok _ _ σ (σ ++ [run]) (length σ))
    by by apply run_frame_Ok.
  rewrite (M_bind_Ok _ _ (σ ++ [run]) (<[length σ := run']> (σ ++ [run]))
             {| DATA_SG := Some (length σ);
                FILEMIDDLE :=
                  Some (SUBGROUP_FILENAME si +:+ make_filename group) |}).
  2:{ apply (update_dictionary_Ok si _ group _ _ (length σ) run run');
        [done| |done].
      by rewrite lookup_app_r, Nat.sub_diag. }
  assert (<[length σ := run']> (σ ++ [run]) = σ ++ [run']) as ->.
  { rewrite insert_app_r_alt, Nat.sub_diag by done. done. }
  rewrite (M_bind_Ok _ _ (σ ++ [run']) (σ ++ [run']) (length σ)) by done.
  rewrite (M_bind_Ok _ _ (σ ++ [run']) (σ ++ [run']) run').
  2:{ apply deref_Ok. by rewrite lookup_app_r, Nat.sub_diag. }
  rewrite (M_bind_Ok _ _ (σ ++ [run']) (σ ++ [run']) tables)
    by by (unfold lift; rewrite Hfiles).
  by rewrite (M_bind_Ok _ _ (σ ++ [run']) (σ ++ [run'])
             (SUBGROUP_FILENAME si +:+ make_filename group)).
Qed.


(** Without representation of the excluded groups the recoder copies the
    two columns. *)
Lemma recoder_copies (si : subgroup_dict) (group : string) (df : DataFrame) :
  REPRESENT_REMOVED si = 0 →
  create_new_ward_and_setting_columns si group df
  = set_newSetting (Setting df) (set_newWardTeam (WardTeam df) df).
Proof.
  intros HRR. unfold create_new_ward_and_setting_columns.
  by rewrite bool_decide_false by (intros ?; done).
Qed.




(** ** The driver as a whole *)




(** ** clean_data *)

Lemma replace_nan_is_Some (v : string) (col : list (option string)) :
  Forall is_Some (replace_nan v col).
Proof.
  apply Forall_forall. intros c (c0 & -> & _)%list_elem_of_fmap. by eexists.
Qed.

Lemma lookup_and_mask_assign (np1 np2 : list string) (a b x : string)
  (i : nat) (w s : string) :
  np1 !! i = Some w → np2 !! i = Some s →
  mask_assign (and_mask (eq_mask np1 a) (eq_mask np2 b)) x np1 !! i
  = Some (if decide (w = a ∧ s = b) then x else w).
Proof.
  intros Hw Hs.
  rewrite (lookup_mask_assign _ _ _ i
             (bool_decide (w = a) && bool_decide (s = b)) w); [|  |done].
  - do 2 case_bool_decide; simpl;
      destruct (decide (w = a ∧ s = b)); try done; tauto.
  - unfold and_mask, eq_mask.
    by rewrite lookup_zip_with, !list_lookup_fmap, Hw, Hs.
Qed.

Lemma clean_data_WardTeam (DATA : RawData) :
  let np1 := mask_select (has_referral_date DATA) (raw_WardTeam DATA) in
  let np2 := mask_select (has_referral_date DATA) (raw_Setting DATA) in
  let np1' :=
    mask_assign (and_mask (eq_mask np1 "Harford") (eq_mask np2 "Inpatient"))
      "Harford Inpatient" np1 in
  raw_WardTeam (clean_data DATA)
  = mask_assign (and_mask (eq_mask np1' "Harford") (eq_mask np2 "OOA"))
      "Harford OOA" np1'.
Proof. done. Qed.

Lemma clean_data_Setting (DATA : RawData) :
  raw_Setting (clean_data DATA)
  = mask_select (has_referral_date DATA) (raw_Setting DATA).
Proof. done. Qed.

Lemma clean_data_lookup (DATA : RawData) (i : nat) (w s : string) :
  mask_select (has_referral_date DATA) (raw_WardTeam DATA) !! i = Some w →
  raw_Setting (clean_data DATA) !! i = Some s →
  raw_WardTeam (clean_data DATA) !! i = Some (harford_label w s).
Proof.
  intros Hw Hs. rewrite clean_data_Setting in Hs.
  rewrite clean_data_WardTeam. cbv zeta.
  rewrite (lookup_and_mask_assign _ _ _ _ _ i
             (if decide (w = "Harford" ∧ s = "Inpatient")
              then "Harford Inpatient" else w) s);
    [|by apply lookup_and_mask_assign|done].
  unfold harford_label. f_equal.
  destruct (decide (w = "Harford" ∧ s = "Inpatient")) as [[-> ->]|Hn];
    repeat case_decide; destruct_and?; try done; try congruence; tauto.
Qed.

(** clean_data leaves no missing value in the seven referral columns and
    no event without a referral date: the events that are kept are those
    with a referral date, in their order, and a missing discharge date of a
    kept event is the day of the extract, 18/02/2018. *)
Theorem clean_data_leaves_no_missing_value (DATA : RawData) :
  let DATA' := clean_data DATA in
  Forall is_Some (ReferralSource DATA')
  ∧ Forall is_Some (ReferralDate DATA')
  ∧ Forall is_Some (ReferralDischarge DATA')
  ∧ Forall is_Some (Locality_Edit DATA')
  ∧ Forall is_Some (Cluster DATA')
  ∧ Forall is_Some (AgeAtRefGroup DATA')
  ∧ Forall is_Some (GenSpecialty_Age DATA')
  ∧ Forall (λ c, c ≠ Some "None") (ReferralDate DATA')
  ∧ zip (ReferralDate DATA') (raw_ClientID DATA')
    = filter (λ r, r.1 ≠ Some "None")
        (zip (replace_nan "None" (ReferralDate DATA)) (raw_ClientID DATA))
  ∧ zip (ReferralDate DATA') (ReferralDischarge DATA')
    = filter (λ r, r.1 ≠ Some "None")
        (zip (replace_nan "None" (ReferralDate DATA))
           (replace_nan "18/02/2018" (ReferralDischarge DATA))).
Proof.
  intros DATA'. unfold DATA', clean_data, raw_select, ne_mask.
  cbn [ReferralSource ReferralDate ReferralDischarge Locality_Edit Cluster
       AgeAtRefGroup GenSpecialty_Age raw_ClientID].
  split_and!; try (apply Forall_mask_select, replace_nan_is_Some).
  - rewrite (mask_select_filter (λ c, c ≠ Some "None")).
    apply Forall_forall. by intros c [? _]%list_elem_of_filter.
  - exact (mask_select_zip_filter (λ c, c ≠ Some "None")
             (replace_nan "None" (ReferralDate DATA)) (raw_ClientID DATA)).
  - exact (mask_select_zip_filter (λ c, c ≠ Some "None")
             (replace_nan "None" (ReferralDate DATA))
             (replace_nan "18/02/2018" (ReferralDischarge DATA))).
Qed.

(** clean_data does not touch the settings, and gives the ward team
    Harford the name "Harford Inpatient" where its setting is Inpatient and
    "Harford OOA" where it is OOA; every other ward team keeps its name.
    Afterwards no event of Harford is an inpatient or an OOA event. *)
Theorem clean_data_renames_Harford (DATA : RawData) :
  let DATA' := clean_data DATA in
  let WardTeam0 := mask_select (has_referral_date DATA) (raw_WardTeam DATA) in
  raw_Setting DATA' = mask_select (has_referral_date DATA) (raw_Setting DATA)
  ∧ length (raw_WardTeam DATA') = length WardTeam0
  ∧ (∀ i w s,
       WardTeam0 !! i = Some w → raw_Setting DATA' !! i = Some s →
       raw_WardTeam DATA' !! i = Some (harford_label w s))
  ∧ (∀ i s,
       raw_WardTeam DATA' !! i = Some "Harford" →
       raw_Setting DATA' !! i = Some s →
       s ≠ "Inpatient" ∧ s ≠ "OOA").
Proof.
  intros DATA' WardTeam0.
  assert (length (raw_WardTeam DATA') = length WardTeam0) as Hlen.
  { unfold DATA'. rewrite clean_data_WardTeam. cbv zeta.
    by rewrite !length_mask_assign. }
  split_and!; [done|done|apply clean_data_lookup|].
  intros i s HW HS.
  destruct (lookup_lt_is_Some_2 WardTeam0 i) as [w Hw].
  { rewrite <- Hlen. by eapply lookup_lt_Some. }
  unfold DATA' in HW. rewrite (clean_data_lookup DATA i w s Hw HS) in HW.
  injection HW as HW. unfold harford_label in HW.
  repeat case_decide; split; congruence.
Qed.

(** When Harford as an inpatient and as an OOA service is the only ward
    team of the kept events with more than one setting, and no ward team
    is called "Harford Inpatient" or "Harford OOA" already, every ward team
    of the cleaned data has one setting: the condition under which the
    node list can be built. *)
Theorem clean_data_gives_one_setting_per_ward_team (DATA : RawData) :
  single_setting_but_Harford
    (mask_select (has_referral_date DATA) (raw_WardTeam DATA))
    (mask_select (has_referral_date DATA) (raw_Setting DATA)) →
  "Harford Inpatient"
    ∉ mask_select (has_referral_date DATA) (raw_WardTeam DATA) →
  "Harford OOA" ∉ mask_select (has_referral_date DATA) (raw_WardTeam DATA) →
  single_setting (raw_WardTeam (clean_data DATA))
    (raw_Setting (clean_data DATA)).
Proof.
  set (WardTeam0 := mask_select (has_referral_date DATA) (raw_WardTeam DATA)).
  set (Setting0 := mask_select (has_referral_date DATA) (raw_Setting DATA)).
  intros Hsingle HHI HHO i j a s1 s2 Hi Hj Hsi Hsj.
  assert (length (raw_WardTeam (clean_data DATA)) = length WardTeam0) as Hlen.
  { rewrite clean_data_WardTeam. cbv zeta. by rewrite !length_mask_assign. }
  destruct (lookup_lt_is_Some_2 WardTeam0 i) as [wi Hwi].
  { rewrite <- Hlen. by eapply lookup_lt_Some. }
  destruct (lookup_lt_is_Some_2 WardTeam0 j) as [wj Hwj].
  { rewrite <- Hlen. by eapply lookup_lt_Some. }
  rewrite (clean_data_lookup DATA i wi s1 Hwi Hsi) in Hi.
  rewrite (clean_data_lookup DATA j wj s2 Hwj Hsj) in Hj.
  injection Hi as Hi. injection Hj as Hj.
  rewrite clean_data_Setting in Hsi, Hsj. fold Setting0 in Hsi, Hsj.
  assert (wi ≠ "Harford Inpatient" ∧ wi ≠ "Harford OOA"
          ∧ wj ≠ "Harford Inpatient" ∧ wj ≠ "Harford OOA")
    as (Hi1 & Hi2 & Hj1 & Hj2).
  { split_and!; intros ->.
    - apply HHI, list_elem_of_lookup. eauto.
    - apply HHO, list_elem_of_lookup. eauto.
    - apply HHI, list_elem_of_lookup. eauto.
    - apply HHO, list_elem_of_lookup. eauto. }
  unfold harford_label in Hi, Hj.
  repeat case_decide; subst; try congruence;
    match goal with
    | Hwi : WardTeam0 !! i = Some ?a, Hwj : WardTeam0 !! j = Some ?a |- _ =>
        destruct (Hsingle i j a s1 s2 Hwi Hwj Hsi Hsj)
          as [?|(? & [?|[?|[?|?]]])]; congruence
    end.
Qed.

(** ** The weight of the edges *)

Lemma sum_Z_cons (x : Z) (l : list Z) : sum_Z (x :: l) = x + sum_Z l.
Proof. done. Qed.

Lemma sum_Z_app (l k : list Z) : sum_Z (l ++ k) = sum_Z l + sum_Z k.
Proof.
  induction l as [|x l IH]; [done|].
  rewrite <- app_comm_cons, !sum_Z_cons, IH. lia.
Qed.

Lemma sum_Z_fmap_add {A} (f g : A → Z) (l : list A) :
  sum_Z ((λ x, f x + g x) <$> l) = sum_Z (f <$> l) + sum_Z (g <$> l).
Proof.
  induction l as [|x l IH]; [done|].
  rewrite !fmap_cons, !sum_Z_cons, IH. lia.
Qed.

Lemma sum_Z_fmap_0 {A} (l : list A) : sum_Z ((λ _, 0) <$> l) = 0.
Proof.
  induction l as [|x l IH]; [done|]. by rewrite fmap_cons, sum_Z_cons, IH.
Qed.

Lemma sum_Z_swap {A B} (a : A → B → Z) (l : list A) (k : list B) :
  sum_Z ((λ x, sum_Z ((λ y, a x y) <$> k)) <$> l)
  = sum_Z ((λ y, sum_Z ((λ x, a x y) <$> l)) <$> k).
Proof.
  induction l as [|x l IH].
  - simpl. by rewrite sum_Z_fmap_0.
  - rewrite fmap_cons, sum_Z_cons, IH, <- sum_Z_fmap_add. done.
Qed.

Lemma sum_Z_fmap_bind {A B} (w : B → Z) (f : A → list B) (l : list A) :
  sum_Z (w <$> (l ≫= f)) = sum_Z ((λ x, sum_Z (w <$> f x)) <$> l).
Proof.
  induction l as [|x l IH]; [done|].
  by rewrite bind_cons, fmap_app, sum_Z_app, fmap_cons, sum_Z_cons, IH.
Qed.

(** Leaving out the terms that are not above 0 does not change a sum of
    terms that are 0 or more. *)
Lemma sum_Z_filter_pos {A} (w : A → Z) (l : list A) :
  (∀ x, x ∈ l → 0 ≤ w x) →
  sum_Z (w <$> filter (λ x, 0 < w x) l) = sum_Z (w <$> l).
Proof.
  induction l as [|x l IH]; intros Hnn; [done|].
  rewrite filter_cons, fmap_cons, sum_Z_cons.
  assert (0 ≤ w x) by apply Hnn, list_elem_of_here.
  assert (sum_Z (w <$> filter (λ x, 0 < w x) l) = sum_Z (w <$> l)) as IH'.
  { apply IH. intros y Hy. by apply Hnn, list_elem_of_further. }
  destruct (decide (0 < w x)).
  - by rewrite fmap_cons, sum_Z_cons, IH'.
  - rewrite IH'. lia.
Qed.

Lemma sum_Z_seq_lookup (row : list Z) :
  sum_Z row = sum_Z ((λ c, default 0 (row !! c)) <$> seq 0 (length row)).
Proof.
  rewrite <- (fmap_seq_lookup (λ v, v) 0 row). by rewrite list_fmap_id.
Qed.

(** The cells in the order of the visit add up to the sum of the matrix. *)
Lemma sum_Z_emission_order (n : nat) (m : matrix) :
  square n m →
  sum_Z ((λ p, cell m p.2 p.1) <$> emission_order n) = matrix_sum m.
Proof.
  intros Hsq. pose proof Hsq as [Hlen _].
  unfold emission_order, matrix_sum. rewrite sum_Z_fmap_bind.
  rewrite (list_fmap_ext _ (λ i, sum_Z ((λ j, cell m j i) <$> seq 0 n))).
  2:{ intros _ i _. rewrite sum_Z_fmap_bind.
      apply (f_equal sum_Z), list_fmap_ext. intros _ j _.
      simpl. lia. }
  rewrite (sum_Z_swap (λ i j, cell m j i)).
  rewrite (fmap_seq_lookup sum_Z [] m), Hlen.
  apply (f_equal sum_Z), list_fmap_ext.
  intros k r [Hk Hr]%lookup_seq. simpl in Hk. subst k.
  destruct (square_lookup n m r Hsq Hr) as (row & Hrow & Hl).
  rewrite Hrow. simpl. rewrite (sum_Z_seq_lookup row), Hl.
  apply (f_equal sum_Z), list_fmap_ext. intros _ c _.
  unfold cell. rewrite Hrow. done.
Qed.

Lemma Weight_edges (m : matrix) :
  Weight <$> imap (λ k p, Build_Edge (Z.of_nat p.2 + 1) (Z.of_nat p.1 + 1)
                            "Directed" (Z.of_nat k) (cell m p.2 p.1))
               (edge_cells m)
  = (λ p, cell m p.2 p.1) <$> edge_cells m.
Proof.
  apply list_eq. intros k.
  rewrite !list_lookup_fmap, list_lookup_imap.
  by destruct (edge_cells m !! k).
Qed.

Lemma output_Edge_file_total (n : nat) (servMove : matrix)
  (edges : list Edge) :
  square n servMove →
  Forall (Forall (λ v, 0 ≤ v)) servMove →
  output_Edge_file servMove = Ok edges →
  sum_Z (Weight <$> edges) = matrix_sum servMove.
Proof.
  intros Hsq Hnn. pose proof Hsq as [Hlen _].
  rewrite (output_Edge_file_Ok n) by done. intros [= <-].
  rewrite Weight_edges. unfold edge_cells. rewrite Hlen.
  rewrite (sum_Z_filter_pos (λ p, cell servMove p.2 p.1)).
  - by apply sum_Z_emission_order.
  - intros p _. by apply cell_nonneg.
Qed.

(** The edge list loses nothing of a matrix of counts: the weights of the
    edges add up to the sum of the cells. *)
Theorem output_Edge_file_keeps_the_total (n : nat) (servMove : matrix) :
  square n servMove →
  Forall (Forall (λ v, 0 ≤ v)) servMove →
  ∃ edges,
    output_Edge_file servMove = Ok edges
    ∧ sum_Z (Weight <$> edges) = matrix_sum servMove.
Proof.
  intros Hsq Hnn. eexists. split; [by apply (output_Edge_file_Ok n)|].
  apply (output_Edge_file_total n); [done..|].
  by apply (output_Edge_file_Ok n).
Qed.

(** ** The tables of a run *)

(** When every label of the run has one setting, the node list has one row
    for every distinct label, in the order of the labels: row k (from 0)
    has the id k + 1, the k-th label in sorted order, the mean and the
    median of the lengths of stay of the events with that label, and the
    setting that all those events have. *)
Theorem output_Node_file_one_row_per_label (DATA_SG DATA_SG' : DataFrame)
  (labels settings : list string) :
  newWardTeam DATA_SG = Some labels →
  newSetting DATA_SG = Some settings →
  length settings = length labels →
  single_setting labels settings →
  categorise_columns DATA_SG = Ok DATA_SG' →
  ∃ nodes,
    output_Node_file DATA_SG' = Ok nodes
    ∧ length nodes = length (unique labels)
    ∧ ∀ k a,
        categories (astype_category labels) !! k = Some a →
        ∃ s, nodes !! k
             = Some {| ID := Z.of_nat k + 1; Label := a;
                       MeanLoS :=
                         mean (mask_select (eq_mask labels a)
                                 (LoSdays DATA_SG));
                       MedianLoS :=
                         median (mask_select (eq_mask labels a)
                                   (LoSdays DATA_SG));
                       NSetting := s |}
             ∧ ∀ i, labels !! i = Some a → settings !! i = Some s.
Proof. apply output_Node_file_Ok. Qed.

(** A run on a frame with events whose labels have one setting each
    succeeds, and its three tables agree: the matrix has one row and one
    column for every node, the nodes are numbered 1 to N in the sorted order
    of their labels, every edge joins two nodes of the node list, and the
    weights of the edges add up to the number of consecutive pairs of
    events, that is the sum over the clients of the number of events less
    one. *)
Theorem create_output_files_tables_agree (DATA_SG DATA_SG' : DataFrame)
  (labels settings : list string) :
  newWardTeam DATA_SG = Some labels →
  newSetting DATA_SG = Some settings →
  labels ≠ [] →
  length settings = length labels →
  length (ClientID DATA_SG) = length labels →
  single_setting labels settings →
  categorise_columns DATA_SG = Ok DATA_SG' →
  let n := length (unique labels) in
  ∃ servMove edges nodes,
    create_output_files DATA_SG' = Ok (servMove, edges, nodes)
    ∧ square n servMove
    ∧ ID <$> nodes = (λ k, Z.of_nat k + 1) <$> seq 0 n
    ∧ Label <$> nodes = categories (astype_category labels)
    ∧ (∀ e, e ∈ edges →
         (∃ v, v ∈ nodes ∧ ID v = Source e)
         ∧ (∃ v, v ∈ nodes ∧ ID v = Target e))
    ∧ sum_Z (Weight <$> edges)
      = Z.of_nat (sum_list ((λ ID,
          (event_count (ClientID DATA_SG) ID - 1)%nat)
                            <$> unique (ClientID DATA_SG))).
Proof.
  intros Hlabels Hsettings Hne Hlen Hids Hsingle Hcat n.
  destruct (create_output_files_Ok DATA_SG DATA_SG' labels settings)
    as (servMove & edges & nodes & Hrun & Hsq & HID & HL & Hends & Hedges
        & Hnn & Hsum); try done.
  exists servMove, edges, nodes. split_and!; try done.
  rewrite (output_Edge_file_total n servMove edges Hsq Hnn Hedges), Hsum.
  do 2 f_equal. apply list_fmap_ext. intros _ ID _.
  rewrite length_patient_codes; [done|]. by rewrite length_fmap.
Qed.

(** ** The encoder and the recoder at the edges *)

(** categorise_columns needs the column newWardTeam and raises KeyError
    without it.  With it, the categorical column decodes to the labels
    again: the code of an event, less one, is the position of its label
    among the categories.  The events and the two new columns are left as
    they are, and encoding the result again changes nothing. *)
Theorem categorise_columns_codes_decode (DATA_SG : DataFrame) :
  match newWardTeam DATA_SG with
  | None => categorise_columns DATA_SG = Raise (KeyError "newWardTeam")
  | Some labels =>
      ∃ DATA_SG' cat code,
        categorise_columns DATA_SG = Ok DATA_SG'
        ∧ wardTeamCat DATA_SG' = Some cat
        ∧ wardTeamCatCode DATA_SG' = Some code
        ∧ cat_values cat = labels
        ∧ length code = length labels
        ∧ (∀ i c, code !! i = Some c →
                  1 ≤ c ∧ categories cat !! Z.to_nat (c - 1) = labels !! i)
        ∧ events DATA_SG' = events DATA_SG
        ∧ newWardTeam DATA_SG' = Some labels
        ∧ newSetting DATA_SG' = newSetting DATA_SG
        ∧ categorise_columns DATA_SG' = Ok DATA_SG'
  end.
Proof.
  destruct (newWardTeam DATA_SG) as [labels|] eqn:Hlabels.
  2:{ unfold categorise_columns. by rewrite Hlabels. }
  exists (set_wardTeamCatCode (category_id labels <$> labels)
            (set_wardTeamCat (astype_category labels) DATA_SG)),
    (astype_category labels), (category_id labels <$> labels).
  split_and!; try done.
  - by apply categorise_columns_Ok.
  - apply cat_values_astype.
  - by rewrite length_fmap.
  - intros i c Hc. rewrite list_lookup_fmap, fmap_Some in Hc.
    destruct Hc as (a & Ha & ->). rewrite Ha.
    destruct (category_id_lookup labels a) as (k & Hk & ->).
    { apply list_elem_of_lookup. eauto. }
    split; [lia|]. by replace (Z.to_nat (Z.of_nat k + 1 - 1)) with k by lia.
  - by rewrite (categorise_columns_Ok _ labels).
Qed.

Lemma M_bind_Raise {A B} (m : M A) (f : A → M B) (σ : store) (e : exn) :
  m σ = Raise e → (m ≫= f) σ = Raise e.
Proof. unfold mbind, M_bind. by intros ->. Qed.

Lemma in_place_Raise (r : nat) (f : DataFrame → result DataFrame)
  (σ : store) (df : DataFrame) (e : exn) :
  σ !! r = Some df → f df = Raise e → in_place r f σ = Raise e.
Proof.
  intros Hr Hf. unfold in_place.
  rewrite (M_bind_Ok _ _ σ σ df) by by apply deref_Ok.
  apply M_bind_Raise. unfold lift. by rewrite Hf.
Qed.

(** With the excluded groups represented, the recoder adds the two new
    columns inside its loop over the values of the subgroup column: for a
    frame without rows the loop has no turn, the frame is left without the
    columns, and the update of the dictionary raises KeyError in the
    encoder.  Without representation the columns are added in any case. *)
Theorem recoder_adds_no_column_without_rows (si : subgroup_dict)
  (foi : file_output_dict) (group filename : string) (σ : store) (r : nat)
  (df : DataFrame) :
  DATA_SG foi = Some r → σ !! r = Some df →
  GroupCol df = [] → newWardTeam df = None →
  (REPRESENT_REMOVED si ≠ 0 →
   create_new_ward_and_setting_columns si group df = df
   ∧ update_dictionary si foi group filename σ
     = Raise (KeyError "newWardTeam"))
  ∧ (REPRESENT_REMOVED si = 0 →
     newWardTeam (create_new_ward_and_setting_columns si group df)
     = Some (WardTeam df)
     ∧ ∃ foi' σ', update_dictionary si foi group filename σ = Ok (foi', σ')).
Proof.
  intros Hfoi Hr Hrows Hnew. split; intros HRR.
  - assert (create_new_ward_and_setting_columns si group df = df) as Hid.
    { unfold create_new_ward_and_setting_columns.
      rewrite bool_decide_true by done. by rewrite Hrows. }
    split; [done|]. unfold update_dictionary. rewrite Hfoi.
    rewrite (M_bind_Ok _ _ σ σ r) by done.
    rewrite (M_bind_Ok _ _ σ (<[r := df]> σ) ()).
    2:{ apply (in_place_Ok r _ σ df df); [done|]. by rewrite Hid. }
    apply M_bind_Raise. apply (in_place_Raise r _ _ df).
    + apply list_lookup_insert_eq. by eapply lookup_lt_Some.
    + unfold categorise_columns. by rewrite Hnew.
  - rewrite (recoder_copies si group df HRR). split; [done|].
    eexists _, _.
    apply (update_dictionary_Ok si foi group filename σ r df); [done..|].
    rewrite (recoder_copies si group df HRR).
    by apply categorise_columns_Ok.
Qed.


(** A step of the driver that represents the excluded groups succeeds when
    the ward teams of the events of the group have one setting each and
    none of them has the name that stands for an excluded group.  The run
    is a copy of all the events; the nodes of its network are the ward
    teams of the events of the group and one node for every other value of
    the subgroup column. *)
Theorem subgroup_network_represents_the_others (si : subgroup_dict)
  (foi : file_output_dict) (written : list file_set) (group : string)
  (σ : store) (d : DataFrame) :
  REPRESENT_REMOVED si ≠ 0 →
  σ !! DATA si = Some d →
  aligned d →
  group ≠ "None" →
  group ∈ GroupCol d →
  (∀ i j a s1 s2,
     GroupCol d !! i = Some group → GroupCol d !! j = Some group →
     WardTeam d !! i = Some a → WardTeam d !! j = Some a →
     Setting d !! i = Some s1 → Setting d !! j = Some s2 → s1 = s2) →
  (∀ i w V,
     GroupCol d !! i = Some group → WardTeam d !! i = Some w →
     V ∈ GroupCol d → V ≠ group → w ≠ SUBGROUP_NODE_NAME si +:+ V) →
  ∃ foi' servMove edges nodes run,
    subgroup_network si (foi, written) group σ
    = Ok ((foi',
           written
             ++ [(SUBGROUP_FILENAME si +:+ make_filename group,
                  (servMove, edges, nodes))]),
          σ ++ [run])
    ∧ ClientID run = ClientID d
    ∧ GroupCol run = GroupCol d
    ∧ LoSdays run = LoSdays d
    ∧ ∀ a, a ∈ Label <$> nodes
           ↔ (∃ i, GroupCol d !! i = Some group ∧ WardTeam d !! i = Some a)
             ∨ (∃ V, V ∈ GroupCol d ∧ V ≠ group
                     ∧ a = SUBGROUP_NODE_NAME si +:+ V).
Proof.
  intros HRR Hd (HlenW & HlenS & HlenG & HlenL) Hgroup Hin Hone Hfresh.
  assert (GroupCol d ≠ []) as Hne
    by (intros Hnil; rewrite Hnil in Hin; by apply elem_of_nil in Hin).
  set (labels := zip_with (recoded_label (SUBGROUP_NODE_NAME si) group)
                   (WardTeam d) (GroupCol d)).
  set (settings := zip_with (recoded_setting group) (Setting d) (GroupCol d)).
  pose proof (recoder_closed_form si group d HRR) as Hrec.
  cbv zeta in Hrec. fold labels settings in Hrec.
  rewrite HlenW, HlenS, HlenG in Hrec. specialize (Hrec eq_refl eq_refl Hne).
  set (run1 := create_new_ward_and_setting_columns si group d) in *.
  assert (newWardTeam run1 = Some labels) as Hlabels by by rewrite Hrec.
  assert (newSetting run1 = Some settings) as Hsettings by by rewrite Hrec.
  set (run' := set_wardTeamCatCode (category_id labels <$> labels)
                 (set_wardTeamCat (astype_category labels) run1)).
  assert (categorise_columns run1 = Ok run') as Hcat
    by by apply categorise_columns_Ok.
  assert (length labels = length (GroupCol d)) as Hll
    by (unfold labels; rewrite length_zip_with; lia).
  assert (length settings = length (GroupCol d)) as Hls
    by (unfold settings; rewrite length_zip_with; lia).
  assert (single_setting labels settings) as Hsingle.
  { intros i j a s1 s2 Hi Hj Hsi Hsj. unfold labels, settings in *.
    apply lookup_zip_with_Some in Hi as (wi & Vi & -> & Hwi & HVi).
    apply lookup_zip_with_Some in Hj as (wj & Vj & Heq & Hwj & HVj).
    apply lookup_zip_with_Some in Hsi as (si0 & Vi' & -> & Hsi & HVi').
    apply lookup_zip_with_Some in Hsj as (sj0 & Vj' & -> & Hsj & HVj').
    simplify_eq. unfold recoded_label, recoded_setting in *.
    destruct (decide (Vi = group)) as [->|Hi'],
             (decide (Vj = group)) as [->|Hj']; [| | |done].
    - subst. by apply (Hone i j wj).
    - destruct (Hfresh i wi Vj HVi Hwi); [|done..].
      apply list_elem_of_lookup. eauto.
    - destruct (Hfresh j wj Vi HVj Hwj); [|done..].
      apply list_elem_of_lookup. eauto. }
  destruct (create_output_files_Ok run1 run' labels settings)
    as (servMove & edges & nodes & Hfiles & _ & _ & HL & _); try done.
  { intros Hnil. rewrite Hnil in Hll. by destruct (GroupCol d). }
  { lia. }
  exists {| DATA_SG := Some (length σ);
            FILEMIDDLE :=
              Some (SUBGROUP_FILENAME si +:+ make_filename group) |},
    servMove, edges, nodes, run'.
  split_and!.
  - apply (subgroup_network_Ok si foi written group σ d); try done.
    by rewrite bool_decide_false by done.
  - unfold run'. simpl. by rewrite Hrec.
  - unfold run'. simpl. by rewrite Hrec.
  - unfold run'. simpl. by rewrite Hrec.
  - intros a. rewrite HL, elem_of_categories. unfold labels.
    rewrite list_elem_of_lookup. split.
    + intros (i & Hi).
      apply lookup_zip_with_Some in Hi as (w & V & -> & Hw & HV).
      unfold recoded_label. destruct (decide (V = group)) as [->|HVg].
      * left. eauto.
      * right. exists V. split_and!; [|done..].
        apply list_elem_of_lookup. eauto.
    + intros [(i & HV & Hw)|(V & (i & HV)%list_elem_of_lookup & HVg & ->)].
      * exists i. apply lookup_zip_with_Some. exists a, group.
        split_and!; [|done..]. unfold recoded_label.
        by rewrite decide_True.
      * destruct (lookup_lt_is_Some_2 (WardTeam d) i) as [w Hw].
        { apply lookup_lt_Some in HV. lia. }
        exists i. apply lookup_zip_with_Some. exists w, V.
        split_and!; [|done..]. unfold recoded_label.
        by rewrite decide_False.
Qed.

(** ** The further properties at the example data *)

Lemma output_Node_file_one_row_per_label_witness :
  newWardTeam example_events
  = Some ["Ward1"; "Ward2"; "Ward2"; "Ward3"; "Ward1"]
  ∧ newSetting example_events
    = Some ["Community"; "Inpatient"; "Inpatient"; "OOA"; "Community"]
  ∧ single_setting ["Ward1"; "Ward2"; "Ward2"; "Ward3"; "Ward1"]
      ["Community"; "Inpatient"; "Inpatient"; "OOA"; "Community"]
  ∧ ∃ DATA_SG' nodes,
      categorise_columns example_events = Ok DATA_SG'
      ∧ output_Node_file DATA_SG' = Ok nodes
      ∧ length nodes = 3%nat.
Proof.
  assert (single_setting ["Ward1"; "Ward2"; "Ward2"; "Ward3"; "Ward1"]
            ["Community"; "Inpatient"; "Inpatient"; "OOA"; "Community"])
    as Hsingle by (unfold single_setting; by_rows).
  split_and!; [reflexivity|reflexivity|exact Hsingle|].
  eexists.
  destruct (output_Node_file_one_row_per_label example_events _
              ["Ward1"; "Ward2"; "Ward2"; "Ward3"; "Ward1"]
              ["Community"; "Inpatient"; "Inpatient"; "OOA"; "Community"]
              eq_refl eq_refl eq_refl Hsingle eq_refl)
    as (nodes & HOk & Hlen & _).
  exists nodes. split_and!; [reflexivity|exact HOk|exact Hlen].
Defined.

Lemma create_output_files_tables_agree_witness :
  newWardTeam example_events
  = Some ["Ward1"; "Ward2"; "Ward2"; "Ward3"; "Ward1"]
  ∧ newSetting example_events
    = Some ["Community"; "Inpatient"; "Inpatient"; "OOA"; "Community"]
  ∧ length (ClientID example_events) = 5%nat
  ∧ single_setting ["Ward1"; "Ward2"; "Ward2"; "Ward3"; "Ward1"]
      ["Community"; "Inpatient"; "Inpatient"; "OOA"; "Community"]
  ∧ ∃ DATA_SG' servMove edges nodes,
      categorise_columns example_events = Ok DATA_SG'
      ∧ create_output_files DATA_SG' = Ok (servMove, edges, nodes)
      ∧ Label <$> nodes = ["Ward1"; "Ward2"; "Ward3"]
      ∧ sum_Z (Weight <$> edges) = 3.
Proof.
  assert (single_setting ["Ward1"; "Ward2"; "Ward2"; "Ward3"; "Ward1"]
            ["Community"; "Inpatient"; "Inpatient"; "OOA"; "Community"])
    as Hsingle by (unfold single_setting; by_rows).
  split_and!; [reflexivity|reflexivity|reflexivity|exact Hsingle|].
  eexists.
  destruct (create_output_files_tables_agree example_events _
              ["Ward1"; "Ward2"; "Ward2"; "Ward3"; "Ward1"]
              ["Community"; "Inpatient"; "Inpatient"; "OOA"; "Community"]
              eq_refl eq_refl ltac:(discriminate) eq_refl eq_refl Hsingle
              eq_refl)
    as (servMove & edges & nodes & HOk & _ & _ & HL & _ & Hsum).
  exists servMove, edges, nodes.
  split_and!; [reflexivity|exact HOk|exact HL|exact Hsum].
Defined.

Lemma output_Edge_file_keeps_the_total_witness :
  square 3 example_servMove
  ∧ Forall (Forall (λ v, 0 ≤ v)) example_servMove
  ∧ ∃ edges,
      output_Edge_file example_servMove = Ok edges
      ∧ sum_Z (Weight <$> edges) = 3.
Proof.
  assert (square 3 example_servMove) as Hsq
    by (split; [reflexivity|repeat constructor]).
  assert (Forall (Forall (λ v, 0 ≤ v)) example_servMove) as Hnn
    by (repeat constructor; lia).
  split_and!; [exact Hsq|exact Hnn|].
  destruct (output_Edge_file_keeps_the_total 3 example_servMove Hsq Hnn)
    as (edges & HOk & Hsum).
  exists edges. split; [exact HOk|exact Hsum].
Defined.

Lemma recoder_adds_no_column_without_rows_witness :
  [empty_events] !! 0%nat = Some empty_events
  ∧ GroupCol empty_events = []
  ∧ newWardTeam empty_events = None
  ∧ REPRESENT_REMOVED locality_network ≠ 0
  ∧ update_dictionary locality_network
      {| DATA_SG := Some 0%nat; FILEMIDDLE := None |} "North" "North"
      [empty_events]
    = Raise (KeyError "newWardTeam").
Proof.
  split_and!; [reflexivity|reflexivity|reflexivity|discriminate|].
  destruct (recoder_adds_no_column_without_rows locality_network
              {| DATA_SG := Some 0%nat; FILEMIDDLE := None |} "North" "North"
              [empty_events] 0 empty_events eq_refl eq_refl eq_refl eq_refl)
    as [Hraise _].
  destruct (Hraise ltac:(discriminate)) as [_ H]. exact H.
Defined.

Lemma delete_zero_LoS_keeps_nonnegative_events_witness :
  aligned example_stays
  ∧ events (delete_zero_LoS example_stays)
    = [(7, "Ward1", "Community", "North", 1);
       (7, "Ward2", "Inpatient", "South", 0);
       (7, "Ward3", "OOA", "Exeter", 4);
       (8, "Ward1", "Community", "None", 5)].
Proof.
  assert (aligned example_stays) as Hal by (repeat split).
  split; [exact Hal|].
  destruct (delete_zero_LoS_keeps_nonnegative_events example_stays Hal)
    as (_ & Hev & _).
  rewrite Hev. reflexivity.
Defined.


Lemma subgroup_network_represents_the_others_witness :
  REPRESENT_REMOVED locality_network ≠ 0
  ∧ [example_stays] !! DATA locality_network = Some example_stays
  ∧ aligned example_stays
  ∧ "North" ∈ GroupCol example_stays
  ∧ ∃ st run,
      subgroup_network locality_network (no_run_yet, []) "North"
        [example_stays]
      = Ok (st, [example_stays; run])
      ∧ ClientID run = [7; 7; 7; 7; 8].
Proof.
  assert (aligned example_stays) as Hal by (repeat split).
  assert ("North" ∈ GroupCol example_stays) as Hin by repeat constructor.
  split_and!; [discriminate|reflexivity|exact Hal|exact Hin|].
  destruct (subgroup_network_represents_the_others locality_network
              no_run_yet [] "North" [example_stays] example_stays
              ltac:(discriminate) eq_refl Hal ltac:(discriminate) Hin)
    as (foi' & servMove & edges & nodes & run & HOk & Hids & _).
  - by_rows.
  - intros i w V Hi Hw HV Hne ->.
    repeat (destruct i as [|i]; simplify_eq/=).
  - eexists _, run. split; [exact HOk|exact Hids].
Defined.



Lemma create_network_data_for_subgroup_sentinel_only_witness :
  [ungrouped_events] !! DATA locality_network = Some ungrouped_events
  ∧ Forall (λ g, g = "None") (GroupCol ungrouped_events)
  ∧ ∃ σ',
      create_network_data_for_subgroup locality_network no_run_yet
        [ungrouped_events]
      = Ok ([], σ')
      ∧ length σ' = 2%nat.
Proof.
  assert (Forall (λ g, g = "None") (GroupCol ungrouped_events)) as Hall
    by repeat constructor.
  split_and!; [reflexivity|exact Hall|].
  eexists. split.
  - exact (create_network_data_for_subgroup_sentinel_only locality_network
             no_run_yet [ungrouped_events] ungrouped_events eq_refl Hall).
  - reflexivity.
Defined.

Lemma clean_data_gives_one_setting_per_ward_team_witness :
  single_setting_but_Harford
    (mask_select (has_referral_date example_raw) (raw_WardTeam example_raw))
    (mask_select (has_referral_date example_raw) (raw_Setting example_raw))
  ∧ ¬ single_setting
        (mask_select (has_referral_date example_raw)
           (raw_WardTeam example_raw))
        (mask_select (has_referral_date example_raw)
           (raw_Setting example_raw))
  ∧ single_setting (raw_WardTeam (clean_data example_raw))
      (raw_Setting (clean_data example_raw)).
Proof.
  assert (single_setting_but_Harford
            (mask_select (has_referral_date example_raw)
               (raw_WardTeam example_raw))
            (mask_select (has_referral_date example_raw)
               (raw_Setting example_raw))) as Hbut.
  { change (single_setting_but_Harford ["Harford"; "Harford"; "Ward1"]
              ["Inpatient"; "OOA"; "Community"]).
    unfold single_setting_but_Harford. by_rows; auto 10. }
  split_and!; [exact Hbut| |].
  - change (¬ single_setting ["Harford"; "Harford"; "Ward1"]
                ["Inpatient"; "OOA"; "Community"]).
    intros Hsingle.
    pose proof (Hsingle 0%nat 1%nat "Harford" "Inpatient" "OOA"
                  eq_refl eq_refl eq_refl eq_refl).
    discriminate.
  - apply (clean_data_gives_one_setting_per_ward_team example_raw Hbut).
    + change ("Harford Inpatient" ∉ ["Harford"; "Harford"; "Ward1"]).
      rewrite !not_elem_of_cons.
      split_and!; [discriminate..|apply not_elem_of_nil].
    + change ("Harford OOA" ∉ ["Harford"; "Harford"; "Ward1"]).
      rewrite !not_elem_of_cons.
      split_and!; [discriminate..|apply not_elem_of_nil].
Defined.

Lemma categorise_columns_codes_decode_witness :
  ∃ DATA_SG' cat,
    categorise_columns example_events = Ok DATA_SG'
    ∧ wardTeamCat DATA_SG' = Some cat
    ∧ cat_values cat = ["Ward1"; "Ward2"; "Ward2"; "Ward3"; "Ward1"]
    ∧ categorise_columns empty_events = Raise (KeyError "newWardTeam").
Proof.
  destruct (categorise_columns_codes_decode example_events)
    as (DATA_SG' & cat & code & HOk & Hcat & _ & Hval & _).
  exists DATA_SG', cat. split_and!; [exact HOk|exact Hcat|exact Hval|].
  exact (categorise_columns_codes_decode empty_events).
Defined.

Lemma make_filename_has_no_separator_witness :
  make_filename "Exeter, East and Mid Devon" = "Exeter_East_and_Mid_Devon"
  ∧ Forall filename_safe
      (list_ascii_of_string (make_filename "Exeter, East and Mid Devon"))
  ∧ Forall filename_safe (list_ascii_of_string "North")
  ∧ make_filename "North" = "North".
Proof.
  assert (Forall filename_safe (list_ascii_of_string "North")) as Hsafe
    by (repeat constructor; discriminate).
  destruct (make_filename_has_no_separator "Exeter, East and Mid Devon")
    as (Hno & _ & _).
  destruct (make_filename_has_no_separator "North") as (_ & Hid & _).
  split_and!; [reflexivity|exact Hno|exact Hsafe|exact (Hid Hsafe)].
Defined.

Lemma create_DATA_with_one_OOA_node_relabels_OOA_events_witness :
  WardTeam example_stays !! 3%nat = Some "Ward3"
  ∧ Setting example_stays !! 3%nat = Some "OOA"
  ∧ WardTeam (create_DATA_with_one_OOA_node example_stays) !! 3%nat
    = Some "All OOA services"
  ∧ WardTeam (create_DATA_with_one_OOA_node example_stays) !! 1%nat
    = Some "Ward2".
Proof.
  destruct (create_DATA_with_one_OOA_node_relabels_OOA_events example_stays)
    as (_ & Hrule & _).
  split_and!; [reflexivity|reflexivity| |].
  - exact (Hrule 3%nat "Ward3" "OOA" eq_refl eq_refl).
  - exact (Hrule 1%nat "Ward2" "Inpatient" eq_refl eq_refl).
Defined.

Lemma clean_data_renames_Harford_witness :
  raw_WardTeam (clean_data example_raw)
  = ["Harford Inpatient"; "Harford OOA"; "Ward1"]
  ∧ raw_Setting (clean_data example_raw) = ["Inpatient"; "OOA"; "Community"]
  ∧ raw_WardTeam (clean_data example_raw) !! 1%nat
    = Some (harford_label "Harford" "OOA").
Proof.
  destruct (clean_data_renames_Harford example_raw) as (_ & _ & Hrule & _).
  split_and!; [reflexivity|reflexivity|].
  exact (Hrule 1%nat "Harford" "OOA" eq_refl eq_refl).
Defined.
